(** * Extra-output coordination of GalSim's config layer

    A shallow embedding of [galsim/config/extra.py]: the registry of extra
    output kinds, the builder protocol and the lifecycle functions
    [SetupExtraOutput], [SetupExtraOutputsForImage],
    [ProcessExtraOutputsForStamp], [ProcessExtraOutputsForImage],
    [WriteExtraOutputs] and [BuildExtraOutputHDUs].

    The Python code mutates the configuration dict in place and calls builder
    hooks that act on the outside world (work space, file system).  It is
    embedded as a state-and-exception monad over a state made of the
    configuration, the world, and a chronological record of the hook calls
    and log lines the coordinator made.  An exception leaves the state as it
    was at the point of the raise, as in Python. *)

From stdpp Require Import base option list gmap strings fin_maps numbers pretty.
From Stdlib Require Import ZArith Lia Ascii.

Local Open Scope Z_scope.
Local Open Scope string_scope.
Local Open Scope list_scope.

(** ** Python-level helpers *)

(** Exceptions that cross the coordinator.  [BuilderError] stands for any
    exception class a builder hook raises that is not an [IOError]. *)
Inductive exn : Type :=
  | KeyError (k : string)
  | IndexError
  | TypeError
  | ValueError
  | IOError
  | BuilderError (code : nat).

Inductive result (A : Type) : Type :=
  | Ok (a : A)
  | Raise (e : exn).
Arguments Ok {A} a.
Arguments Raise {A} e.

Definition is_ok {A} (r : result A) : bool :=
  match r with Ok _ => true | Raise _ => false end.

Definition is_raise {A} (r : result A) : bool := negb (is_ok r).

(** [l[i]] with Python's negative indices; [None] stands for IndexError. *)
Definition py_index {A} (l : list A) (i : Z) : option A :=
  let n := Z.of_nat (length l) in
  if bool_decide (0 <= i < n) then l !! Z.to_nat i
  else if bool_decide (- n <= i < 0) then l !! Z.to_nat (n + i)
  else None.

(** [range(a, b)] of Python 2: the list [a, a+1, ..., b-1]. *)
Definition py_range (a b : Z) : list Z := seqZ a (b - a).

Definition ends_with_slash (s : string) : bool :=
  match String.length s with
  | O => false
  | S n => bool_decide (String.get n s = Some "/"%char)
  end.

Definition starts_with_slash (s : string) : bool :=
  bool_decide (String.get 0 s = Some "/"%char).

(** [os.path.join(a, b)] of posixpath, for two components. *)
Definition path_join (a b : string) : string :=
  if starts_with_slash b then b
  else if bool_decide (a = "") || ends_with_slash a then a +:+ b
  else a +:+ "/" +:+ b.

(** ** The external signature

    The types the coordinator never looks into: unparsed configuration
    values, the world the builder hooks act on (their work space and the file
    system), and the in-memory artifact a builder returns for an HDU. *)
Class Sig : Type := {
  Expr : Type;
  World : Type;
  Artifact : Type
}.

Section Data.
Context `{Sig}.

(** A value stored in a configuration dict: either an unparsed entry
    ([retry_io], [dir], [noclobber], [file_name], [hdu], [nproc], ...) or a
    nested dict, as is the field of an extra output kind. *)
#[warnings="-register-all"]
Inductive Node : Type :=
  | Leaf (e : Expr)
  | Dict (d : gmap string Node).

(** A builder object is referred to by identity: the registry and
    [config['extra_builder']] hold the same object. *)
Definition BuilderId : Type := nat.

(** Which constructor made a work-space container: the builtin [list()] and
    [dict()], or the manager's [list()] and [dict()] proxies. *)
Inductive Backing : Type := Plain | Proxy.

(** The [data] list handed to [initialize]. *)
Record DataList : Type := {
  data_backing : Backing;
  data_items : list (option Artifact)
}.

(** The [scratch] dict handed to [initialize]. *)
Record ScratchDict : Type := {
  scratch_backing : Backing;
  scratch_items : gmap Z Artifact
}.

(** The configuration dict, restricted to the keys extra.py reads or writes.
    An absent key is [None]. *)
Record Config : Type := {
  index_key : option string;
  output : option (gmap string Node);
  image : option (gmap string Node);
  current_nproc : option Z;
  output_manager : option unit;
  extra_builder : option (gmap string BuilderId);
  extra_last_file : option (gmap string string);
  nimages : option Z;
  file_num : option Z;
  image_num : option Z;
  start_image_num : option Z;
  start_obj_num : option Z;
  nobj : option (list Z);
  obj_num : option Z
}.

Definition set_index_key (v : string) (c : Config) : Config :=
  {| index_key := Some v; output := output c; image := image c;
     current_nproc := current_nproc c; output_manager := output_manager c;
     extra_builder := extra_builder c; extra_last_file := extra_last_file c;
     nimages := nimages c; file_num := file_num c; image_num := image_num c;
     start_image_num := start_image_num c; start_obj_num := start_obj_num c;
     nobj := nobj c; obj_num := obj_num c |}.

Definition set_output (v : gmap string Node) (c : Config) : Config :=
  {| index_key := index_key c; output := Some v; image := image c;
     current_nproc := current_nproc c; output_manager := output_manager c;
     extra_builder := extra_builder c; extra_last_file := extra_last_file c;
     nimages := nimages c; file_num := file_num c; image_num := image_num c;
     start_image_num := start_image_num c; start_obj_num := start_obj_num c;
     nobj := nobj c; obj_num := obj_num c |}.

Definition set_output_manager (v : unit) (c : Config) : Config :=
  {| index_key := index_key c; output := output c; image := image c;
     current_nproc := current_nproc c; output_manager := Some v;
     extra_builder := extra_builder c; extra_last_file := extra_last_file c;
     nimages := nimages c; file_num := file_num c; image_num := image_num c;
     start_image_num := start_image_num c; start_obj_num := start_obj_num c;
     nobj := nobj c; obj_num := obj_num c |}.

Definition set_extra_builder (v : gmap string BuilderId) (c : Config) : Config :=
  {| index_key := index_key c; output := output c; image := image c;
     current_nproc := current_nproc c; output_manager := output_manager c;
     extra_builder := Some v; extra_last_file := extra_last_file c;
     nimages := nimages c; file_num := file_num c; image_num := image_num c;
     start_image_num := start_image_num c; start_obj_num := start_obj_num c;
     nobj := nobj c; obj_num := obj_num c |}.

Definition set_extra_last_file (v : gmap string string) (c : Config) : Config :=
  {| index_key := index_key c; output := output c; image := image c;
     current_nproc := current_nproc c; output_manager := output_manager c;
     extra_builder := extra_builder c; extra_last_file := Some v;
     nimages := nimages c; file_num := file_num c; image_num := image_num c;
     start_image_num := start_image_num c; start_obj_num := start_obj_num c;
     nobj := nobj c; obj_num := obj_num c |}.

(** The hooks of a builder class.  [self] is the builder object, the field
    and the base configuration are read, and the effect falls on the world. *)
Record Builder : Type := {
  initialize : BuilderId -> DataList -> ScratchDict -> Node -> Config ->
               World -> World * result unit;
  setupImage : BuilderId -> Node -> Config -> World -> World * result unit;
  processStamp : BuilderId -> Z -> Node -> Config -> World -> World * result unit;
  processImage : BuilderId -> Z -> list Z -> Node -> Config ->
                 World -> World * result unit;
  finalize : BuilderId -> Node -> Config -> World -> World * result unit;
  writeFile : BuilderId -> string -> Node -> Config -> World -> World * result unit;
  writeHdu : BuilderId -> Node -> Config -> World -> World * result Artifact
}.

(** *** The base class ExtraOutputBuilder *)

Definition pass (w : World) : World * result unit := (w, Ok tt).

(** Every hook of the base class does nothing, except that [initialize]
    stores the work space in the builder object ([set_workspace] is the
    attribute store [self.data = data; self.scratch = scratch]) and that
    [writeHdu] raises: [NotImplemented] is not an exception class, so calling
    it is a TypeError. *)
Definition ExtraOutputBuilder
    (set_workspace : BuilderId -> DataList -> ScratchDict -> World -> World)
    : Builder :=
  {| initialize := fun self data scratch _ _ w =>
       (set_workspace self data scratch w, Ok tt);
     setupImage := fun _ _ _ => pass;
     processStamp := fun _ _ _ _ => pass;
     processImage := fun _ _ _ _ _ => pass;
     finalize := fun _ _ _ => pass;
     writeFile := fun _ _ _ _ => pass;
     writeHdu := fun _ _ _ w => (w, Raise TypeError) |}.

(** A hook call made by the coordinator, with its arguments. *)
Inductive Call : Type :=
  | CInitialize (data : DataList) (scratch : ScratchDict)
  | CSetupImage
  | CProcessStamp (obj_num : Z)
  | CProcessImage (index : Z) (obj_nums : list Z)
  | CFinalize
  | CWriteFile (file_name : string)
  | CWriteHdu.

(** How a hook call ended. *)
Inductive Outcome : Type :=
  | Returned (a : option Artifact)
  | Raised (e : exn).

Inductive Level : Type := LDebug | LInfo | LWarn.

(** What the coordinator did: a hook call on the builder of a kind, or a
    line handed to the logger. *)
Inductive Event : Type :=
  | EHook (key : string) (c : Call) (o : Outcome)
  | ELog (lvl : Level) (key : string).

Record St : Type := {
  cfg : Config;
  world : World;
  trace : list Event
}.

End Data.

(** ** The external operations

    [galsim.config.ParseValue] and [galsim.config.SetDefaultExt] belong to
    the configuration-value resolver and are not part of extra.py, so they
    are taken as parameters: [ParseValue_int d k base] is
    [ParseValue(d, k, base, int)[0]], and [SetDefaultExt d ext] is the
    content of the dict [d] after the call [SetDefaultExt(d, ext)], which
    works in place.  [isfile] is [os.path.isfile] on the current world and
    [class_of] gives the hooks of a builder object.  [leaf_has_key e k] is
    the test [k in e] on a configuration value [e] that is not a dict:
    [None] when [e] is no container, where the test is a TypeError, and
    otherwise its result (on a str, whether [k] is a substring of it).
    The resolver is taken to return its value and a builder hook to act on
    the world: both are given the configuration to read, and what either of
    them might store in it is outside this development. *)
Class Ext `{Sig} : Type := {
  ParseValue_int : gmap string Node -> string -> Config -> Z;
  ParseValue_str : gmap string Node -> string -> Config -> string;
  ParseValue_bool : gmap string Node -> string -> Config -> bool;
  SetDefaultExt : gmap string Node -> string -> gmap string Node;
  isfile : World -> string -> bool;
  class_of : BuilderId -> Builder;
  leaf_has_key : Expr -> string -> option bool
}.

Section Coordinator.
Context `{Ext}.

(** *** The state-and-exception monad *)

Definition M (A : Type) : Type := St -> St * result A.

Definition ret {A} (a : A) : M A := fun s => (s, Ok a).

Definition raise {A} (e : exn) : M A := fun s => (s, Raise e).

Definition bind {A B} (m : M A) (k : A -> M B) : M B :=
  fun s =>
    match m s with
    | (s', Ok a) => k a s'
    | (s', Raise e) => (s', Raise e)
    end.

Notation "'let*' x := m 'in' k" := (bind m (fun x => k))
  (at level 10, x binder, m at level 100, k at level 200).
Notation "m >> k" := (bind m (fun _ => k))
  (at level 100, k at level 200, right associativity).

Definition get_cfg : M Config := fun s => (s, Ok (cfg s)).

Definition get_world : M World := fun s => (s, Ok (world s)).

Definition modify_cfg (f : Config -> Config) : M unit :=
  fun s => ({| cfg := f (cfg s); world := world s; trace := trace s |}, Ok tt).

Definition emit (e : Event) : M unit :=
  fun s => ({| cfg := cfg s; world := world s; trace := trace s ++ [e] |}, Ok tt).

(** [d[k]]: KeyError when the key is absent. *)
Definition require {A} (k : string) (o : option A) : M A :=
  match o with
  | Some a => ret a
  | None => raise (KeyError k)
  end.

Definition when (b : bool) (m : M unit) : M unit := if b then m else ret tt.

Definition outcome_of {A} (val : A -> option Artifact) (r : result A) : Outcome :=
  match r with
  | Ok a => Returned (val a)
  | Raise e => Raised e
  end.

(** Call a hook of the builder of [key]: the hook runs on the current
    configuration and world, and the call is recorded with its outcome. *)
Definition call_hook {A} (key : string) (c : Call) (val : A -> option Artifact)
    (hook : Config -> World -> World * result A) : M A :=
  fun s =>
    let '(w, r) := hook (cfg s) (world s) in
    ({| cfg := cfg s; world := w;
        trace := trace s ++ [EHook key c (outcome_of val r)] |}, r).

Definition no_value (_ : unit) : option Artifact := None.

Fixpoint for_each {A} (l : list A) (body : A -> M unit) : M unit :=
  match l with
  | [] => ret tt
  | x :: rest => body x >> for_each rest body
  end.

(** *** The registry *)

(** [valid_extra_outputs]: kind names with their builder objects, in the
    iteration order of the dict. *)
Definition Registry : Type := list (string * BuilderId).

Fixpoint reg_lookup (reg : Registry) (key : string) : option BuilderId :=
  match reg with
  | [] => None
  | (k, b) :: rest => if bool_decide (k = key) then Some b else reg_lookup rest key
  end.

(** [valid_extra_outputs[key] = builder] *)
Fixpoint RegisterExtraOutput (key : string) (builder : BuilderId) (reg : Registry)
    : Registry :=
  match reg with
  | [] => [(key, builder)]
  | (k, b) :: rest =>
      if bool_decide (k = key) then (k, builder) :: rest
      else (k, b) :: RegisterExtraOutput key builder rest
  end.

(** [[ k for k in valid_extra_outputs.keys() if k in output ]] *)
Definition active_keys (reg : Registry) (out : gmap string Node) : list string :=
  filter (fun k => is_Some (out !! k)) (reg.*1).

(** *** Logging *)

Definition log (logger : bool) (lvl : Level) (key : string) : M unit :=
  when logger (emit (ELog lvl key)).

(** A log line whose arguments read [config['file_num']]. *)
Definition log_file_num (logger : bool) (lvl : Level) (key : string) : M unit :=
  when logger (let* c := get_cfg in let* _ := require "file_num" (file_num c) in
               emit (ELog lvl key)).

(** [config['extra_builder'][key]] *)
Definition get_builder (key : string) : M BuilderId :=
  let* c := get_cfg in
  let* eb := require "extra_builder" (extra_builder c) in
  require key (eb !! key).

(** [config['output'][key]] *)
Definition get_field (key : string) : M Node :=
  let* c := get_cfg in
  let* out := require "output" (output c) in
  require key (out !! key).

(** *** SetupExtraOutput

    The [file_num] argument of the Python function only appears in its log
    lines and is left out. *)

Definition use_manager (c : Config) : bool :=
  match current_nproc c with
  | Some _ => false
  | None =>
      match image c with
      | None => false
      | Some img =>
          match img !! "nproc" with
          | None => false
          | Some _ => bool_decide (ParseValue_int img "nproc" c <> 1)
          end
      end
  end.

Definition new_data (um : bool) (n : Z) : DataList :=
  {| data_backing := if um then Proxy else Plain;
     data_items := (fun _ => None) <$> py_range 0 n |}.

Definition new_scratch (um : bool) : ScratchDict :=
  {| scratch_backing := if um then Proxy else Plain; scratch_items := ∅ |}.

Definition setup_key (reg : Registry) (um : bool) (logger : bool) (key : string)
    : M unit :=
  log logger LDebug key >>
  let* c := get_cfg in
  let* n := require "nimages" (nimages c) in
  let data := new_data um n in
  let scratch := new_scratch um in
  let* field := get_field key in
  let* builder := require key (reg_lookup reg key) in
  call_hook key (CInitialize data scratch) no_value
    (initialize (class_of builder) builder data scratch field) >>
  let* c := get_cfg in
  let* eb := require "extra_builder" (extra_builder c) in
  modify_cfg (set_extra_builder (<[key := builder]> eb)) >>
  log logger LDebug key.

Definition SetupExtraOutput (reg : Registry) (logger : bool) : M unit :=
  let* c := get_cfg in
  match output c with
  | None => ret tt
  | Some out =>
      let all_keys := active_keys reg out in
      let um := use_manager c in
      when (um && bool_decide (output_manager c = None))
        (modify_cfg (set_output_manager tt)) >>
      when (bool_decide (extra_builder c = None))
        (modify_cfg (set_extra_builder ∅)) >>
      for_each all_keys (setup_key reg um logger)
  end.

(** *** SetupExtraOutputsForImage *)

Definition SetupExtraOutputsForImage (reg : Registry) : M unit :=
  let* c := get_cfg in
  match output c with
  | None => ret tt
  | Some out =>
      for_each (active_keys reg out) (fun key =>
        let* builder := get_builder key in
        let* field := get_field key in
        call_hook key CSetupImage no_value
          (setupImage (class_of builder) builder field))
  end.

(** *** ProcessExtraOutputsForStamp *)

Definition ProcessExtraOutputsForStamp (reg : Registry) : M unit :=
  let* c := get_cfg in
  match output c with
  | None => ret tt
  | Some out =>
      let* n := require "obj_num" (obj_num c) in
      for_each (active_keys reg out) (fun key =>
        let* builder := get_builder key in
        let* field := get_field key in
        call_hook key (CProcessStamp n) no_value
          (processStamp (class_of builder) builder n field))
  end.

(** *** ProcessExtraOutputsForImage *)

(** [for i in range(k): start_obj_num += nobj[i]] *)
Fixpoint add_counts (nobj : list Z) (idx : list Z) (start : Z) : M Z :=
  match idx with
  | [] => ret start
  | i :: rest =>
      match py_index nobj i with
      | Some n => add_counts nobj rest (start + n)
      | None => raise IndexError
      end
  end.

(** The object numbers of the current image, as computed on the first pass
    through the loop. *)
Definition image_obj_nums : M (list Z) :=
  let* c := get_cfg in
  let* _ := require "file_num" (file_num c) in
  let* image_num := require "image_num" (image_num c) in
  let* start_image_num := require "start_image_num" (start_image_num c) in
  let* start_obj_num := require "start_obj_num" (start_obj_num c) in
  let* nobj := require "nobj" (nobj c) in
  let k := image_num - start_image_num in
  let* start_obj_num := add_counts nobj (py_range 0 k) start_obj_num in
  match py_index nobj k with
  | Some n => ret (py_range start_obj_num (start_obj_num + n))
  | None => raise IndexError
  end.

Fixpoint image_loop (keys : list string) (obj_nums : option (list Z)) : M unit :=
  match keys with
  | [] => ret tt
  | key :: rest =>
      let* obj_nums :=
        match obj_nums with
        | None => image_obj_nums
        | Some l => ret l
        end in
      let* builder := get_builder key in
      let* field := get_field key in
      let* c := get_cfg in
      let* image_num := require "image_num" (image_num c) in
      let* start_image_num := require "start_image_num" (start_image_num c) in
      let index := image_num - start_image_num in
      call_hook key (CProcessImage index obj_nums) no_value
        (processImage (class_of builder) builder index obj_nums field) >>
      image_loop rest (Some obj_nums)
  end.

Definition ProcessExtraOutputsForImage (reg : Registry) : M unit :=
  let* c := get_cfg in
  match output c with
  | None => ret tt
  | Some out => image_loop (active_keys reg out) None
  end.

(** *** RetryIO *)

Definition is_IOError (e : exn) : bool :=
  match e with IOError => true | _ => false end.

(** Modelled from the spec: [galsim.config.RetryIO] is not part of extra.py.
    The call is tried; a transient I/O failure is retried with the same
    arguments while attempts remain, and once they are exhausted the
    underlying failure is re-raised to the caller.  [more] counts the
    attempts still allowed after the current one. *)
Fixpoint retry_loop {A} (attempt : M A) (more : nat) : M A :=
  fun s =>
    match attempt s with
    | (s', Ok a) => (s', Ok a)
    | (s', Raise e) =>
        match more with
        | O => (s', Raise e)
        | S n => if is_IOError e then retry_loop attempt n s' else (s', Raise e)
        end
    end.

(** Modelled from the spec: [RetryIO(func, args, ntries, file_name, logger)]
    allows [ntries] attempts in total, the first one included. *)
Definition RetryIO {A} (attempt : M A) (ntries : Z) : M A :=
  retry_loop attempt (Z.to_nat ntries - 1).

(** *** WriteExtraOutputs *)

(** [ntries] as computed from [output['retry_io']]. *)
Definition write_ntries (out : gmap string Node) (c : Config) : Z :=
  match out !! "retry_io" with
  | Some _ => ParseValue_int out "retry_io" c + 1
  | None => 1
  end.

Definition write_default_dir (out : gmap string Node) (c : Config) : option string :=
  match out !! "dir" with
  | Some _ => Some (ParseValue_str out "dir" c)
  | None => None
  end.

Definition write_noclobber (out : gmap string Node) (c : Config) : bool :=
  match out !! "noclobber" with
  | Some _ => ParseValue_bool out "noclobber" c
  | None => false
  end.

(** The path of the file of a kind whose field, after [SetDefaultExt], is
    [d]: the resolved [file_name] joined to the field's own [dir], or else to
    the default one. *)
Definition resolve_path (d : gmap string Node) (default_dir : option string)
    (c : Config) : string :=
  let file_name := ParseValue_str d "file_name" c in
  let dir :=
    match d !! "dir" with
    | Some _ => Some (ParseValue_str d "dir" c)
    | None => default_dir
    end in
  match dir with
  | Some dr => path_join dr file_name
  | None => file_name
  end.

(** The end of a pass through the loop of [WriteExtraOutputs], for a kind
    whose file is neither kept by [noclobber] nor already written:
    [finalize], the retried [writeFile], and the record of the file name. *)
Definition write_file (ntries : Z) (logger : bool) (key : string) (field : Node)
    (file_name : string) : M unit :=
  let* builder := get_builder key in
  call_hook key CFinalize no_value
    (finalize (class_of builder) builder field) >>
  RetryIO
    (call_hook key (CWriteFile file_name) no_value
       (writeFile (class_of builder) builder file_name field))
    ntries >>
  let* c := get_cfg in
  let* last := require "extra_last_file" (extra_last_file c) in
  modify_cfg (set_extra_last_file (<[key := file_name]> last)) >>
  log_file_num logger LDebug key.

(** The test [k in field] on a field [e] that is not a dict.  When the test
    is false the kind is passed over, as a dict without the key is.  When it
    cannot be made it is a TypeError; and when it is true the field is next
    indexed by [k], which on a str or a list is a TypeError too. *)
Definition leaf_field {A} (e : Expr) (k : string) (skip : M A) : M A :=
  match leaf_has_key e k with
  | Some false => skip
  | Some true => raise TypeError
  | None => raise TypeError
  end.

(** One pass through the loop of [WriteExtraOutputs]. *)
Definition write_key (ntries : Z) (default_dir : option string) (noclobber : bool)
    (logger : bool) (key : string) : M unit :=
  let* field := get_field key in
  match field with
  | Leaf e => leaf_field e "file_name" (ret tt)
  | Dict d =>
      match d !! "file_name" with
      | None => ret tt
      | Some _ =>
          let d' := SetDefaultExt d ".fits" in
          let* c := get_cfg in
          let* out := require "output" (output c) in
          modify_cfg (set_output (<[key := Dict d']> out)) >>
          let* c := get_cfg in
          let file_name := resolve_path d' default_dir c in
          let* w := get_world in
          if noclobber && isfile w file_name then
            log_file_num logger LWarn key
          else
            let* last := require "extra_last_file" (extra_last_file c) in
            if bool_decide (last !! key = Some file_name) then
              log_file_num logger LInfo key
            else
              write_file ntries logger key (Dict d') file_name
      end
  end.

Definition WriteExtraOutputs (reg : Registry) (logger : bool) : M unit :=
  modify_cfg (set_index_key "file_num") >>
  let* c := get_cfg in
  match output c with
  | None => ret tt
  | Some out =>
      let ntries := write_ntries out c in
      let default_dir := write_default_dir out c in
      let noclobber := write_noclobber out c in
      when (bool_decide (extra_last_file c = None))
        (modify_cfg (set_extra_last_file ∅)) >>
      for_each (active_keys reg out) (write_key ntries default_dir noclobber logger)
  end.

(** *** BuildExtraOutputHDUs *)

(** One pass through the first loop of [BuildExtraOutputHDUs], from the
    [hdus] collected so far to those collected after it.  Formatting the
    message of the "invalid or a duplicate" error applies a format with two
    conversions to the single value [hdu], so what is raised there is a
    TypeError. *)
Definition hdu_key (out : gmap string Node) (key : string)
    (hdus : gmap Z Artifact) : M (gmap Z Artifact) :=
  let* field := require key (out !! key) in
  match field with
  | Leaf e => leaf_field e "hdu" (ret hdus)
  | Dict d =>
      match d !! "hdu" with
      | None => ret hdus
      | Some _ =>
          let* c := get_cfg in
          let hdu := ParseValue_int d "hdu" c in
          if bool_decide (hdu <= 0) || bool_decide (is_Some (hdus !! hdu)) then
            raise TypeError
          else
            let* builder := get_builder key in
            call_hook key CFinalize no_value
              (finalize (class_of builder) builder field) >>
            let* a := call_hook key CWriteHdu Some
                        (writeHdu (class_of builder) builder field) in
            ret (<[hdu := a]> hdus)
      end
  end.

(** The first loop of [BuildExtraOutputHDUs], collecting [hdus]. *)
Fixpoint hdu_loop (out : gmap string Node) (keys : list string)
    (hdus : gmap Z Artifact) : M (gmap Z Artifact) :=
  match keys with
  | [] => ret hdus
  | key :: rest =>
      let* hdus := hdu_key out key hdus in
      hdu_loop out rest hdus
  end.

(** The slots the result is read from: [range(first, len(hdus)+first)]. *)
Definition hdu_range (first : Z) (hdus : gmap Z Artifact) : list Z :=
  py_range first (Z.of_nat (size hdus) + first).

(** The end of [BuildExtraOutputHDUs]: no slot of the range may be missing
    (a ValueError otherwise), and the artifacts are listed in slot order. *)
Definition hdu_list (first : Z) (hdus : gmap Z Artifact) : M (list Artifact) :=
  if forallb (fun h => bool_decide (is_Some (hdus !! h))) (hdu_range first hdus)
  then
    match mapM (fun k => hdus !! k) (hdu_range first hdus) with
    | Some hdulist => ret hdulist
    | None => raise (KeyError "hdu")
    end
  else raise ValueError.

Definition BuildExtraOutputHDUs (reg : Registry) (first : Z) : M (list Artifact) :=
  modify_cfg (set_index_key "file_num") >>
  let* c := get_cfg in
  match output c with
  | None => ret []
  | Some out =>
      let* hdus := hdu_loop out (active_keys reg out) ∅ in
      hdu_list first hdus
  end.

End Coordinator.

(** ** Reading the record of a run *)

Section Observations.
Context `{Sig}.

(** The events a run added to the record, from the state before and after. *)
Definition new_events (s s' : St) : list Event :=
  drop (length (trace s)) (trace s').

(** The hook calls among some events, log lines left out. *)
Definition hook_events (evs : list Event) : list (string * Call * Outcome) :=
  omap (fun e => match e with
                 | EHook k c o => Some (k, c, o)
                 | ELog _ _ => None
                 end) evs.

(** The kinds whose hooks were called, in call order. *)
Definition hook_keys (evs : list Event) : list string :=
  (fun h => h.1.1) <$> hook_events evs.

(** The hook calls made on the builder of one kind. *)
Definition hooks_of (key : string) (evs : list Event)
    : list (string * Call * Outcome) :=
  filter (fun h : string * Call * Outcome => h.1.1 = key) (hook_events evs).



(** [config['extra_last_file'].get(key, None)], also [None] while the record
    itself is absent. *)
Definition last_file (c : Config) (key : string) : option string :=
  extra_last_file c ≫= (fun m => m !! key).

(** The kind [key] has a file target, resp. an HDU target, in [out]. *)
Definition file_mode (out : gmap string Node) (key : string) : Prop :=
  exists d, out !! key = Some (Dict d) /\ is_Some (d !! "file_name").

Definition hdu_mode (out : gmap string Node) (key : string) : Prop :=
  exists d, out !! key = Some (Dict d) /\ is_Some (d !! "hdu").

End Observations.

(** ** A concrete instance

    A small resolver and builder class on which the coordinator can be run:
    configuration values are literals, the world is the set of files on disk
    together with a number of I/O failures still to come, and an artifact is
    a name. *)

Inductive Lit : Type :=
  | LInt (n : Z)
  | LStr (s : string)
  | LBool (b : bool).

Record DemoWorld : Type := {
  files : list string;
  flaky : nat
}.

Definition demo_sig : Sig :=
  {| Expr := Lit; World := DemoWorld; Artifact := string |}.

Definition demo_ParseValue_int (d : gmap string (@Node demo_sig)) (k : string)
    (base : @Config demo_sig) : Z :=
  match d !! k with
  | Some (Leaf (LInt n)) => n
  | _ => 0
  end.

(** A string entry is a literal, which resolves to itself; the instance is
    only run on such entries. *)
Definition demo_ParseValue_str (d : gmap string (@Node demo_sig)) (k : string)
    (base : @Config demo_sig) : string :=
  match d !! k with
  | Some (Leaf (LStr s)) => s
  | _ => ""
  end.

Definition demo_ParseValue_bool (d : gmap string (@Node demo_sig)) (k : string)
    (base : @Config demo_sig) : bool :=
  match d !! k with
  | Some (Leaf (LBool b)) => b
  | _ => false
  end.

(** Modelled from the spec: [galsim.config.SetDefaultExt] is not part of
    extra.py.  It gives the default extension to an item of type
    [NumberedFile] that specifies none: called on a dict whose [type] is
    [NumberedFile] and that has no [ext], it stores the extension under
    [ext] in that dict, in place; on any other dict it does nothing.  The
    code calls it on the field of the kind. *)
Definition demo_SetDefaultExt (d : gmap string (@Node demo_sig)) (ext : string)
    : gmap string (@Node demo_sig) :=
  match d !! "type", d !! "ext" with
  | Some (Leaf (LStr "NumberedFile")), None =>
      <["ext" := @Leaf demo_sig (LStr ext)]> d
  | _, _ => d
  end.

(** [k in e] on a literal: the substring test on a str, a TypeError on a
    number or a boolean. *)
Definition demo_leaf_has_key (e : Lit) (k : string) : option bool :=
  match e with
  | LStr s => Some (bool_decide (is_Some (String.index 0 k s)))
  | LInt _ => None
  | LBool _ => None
  end.

Definition demo_isfile (w : DemoWorld) (f : string) : bool :=
  bool_decide (f ∈ files w).

(** [writeFile] of the demo class: it fails with an IOError while failures
    remain to come, and otherwise puts the file on disk. *)
Definition demo_writeFile (f : string) (w : DemoWorld) : DemoWorld * result unit :=
  match flaky w with
  | S n => ({| files := files w; flaky := n |}, Raise IOError)
  | O => ({| files := f :: files w; flaky := O |}, Ok tt)
  end.

Definition demo_class : @Builder demo_sig :=
  @Build_Builder demo_sig
    (fun _ _ _ _ _ w => (w, Ok tt))
    (fun _ _ _ w => (w, Ok tt))
    (fun _ _ _ _ w => (w, Ok tt))
    (fun _ _ _ _ _ w => (w, Ok tt))
    (fun _ _ _ w => (w, Ok tt))
    (fun _ f _ _ w => demo_writeFile f w)
    (fun self _ _ w => (w, Ok ("hdu of builder " +:+ pretty self))).

Definition demo_ext : @Ext demo_sig :=
  {| ParseValue_int := demo_ParseValue_int;
     ParseValue_str := demo_ParseValue_str;
     ParseValue_bool := demo_ParseValue_bool;
     SetDefaultExt := demo_SetDefaultExt;
     isfile := demo_isfile;
     class_of := fun _ => demo_class;
     leaf_has_key := demo_leaf_has_key |}.

Definition demo_config : @Config demo_sig :=
  {| index_key := None; output := None; image := None; current_nproc := None;
     output_manager := None; extra_builder := None; extra_last_file := None;
     nimages := None; file_num := None; image_num := None;
     start_image_num := None; start_obj_num := None; nobj := None;
     obj_num := None |}.

Definition demo_state (c : @Config demo_sig) : @St demo_sig :=
  {| cfg := c; world := {| files := []; flaky := O |}; trace := [] |}.

(** The registry of the four native kinds. *)
Definition demo_registry : Registry :=
  [("psf", 0%nat); ("weight", 1%nat); ("badpix", 2%nat); ("truth", 3%nat)].

Definition demo_builders : gmap string BuilderId :=
  list_to_map demo_registry.

(** *** Configurations for the concrete instance *)

Definition demo_leaf (l : Lit) : @Node demo_sig := @Leaf demo_sig l.

Definition demo_dict (d : gmap string (@Node demo_sig)) : @Node demo_sig :=
  @Dict demo_sig d.

Definition demo_with_output (out : gmap string (@Node demo_sig))
    : @Config demo_sig :=
  set_extra_builder demo_builders (set_output out demo_config).

Definition demo_flaky_state (c : @Config demo_sig) (n : nat) : @St demo_sig :=
  {| cfg := c; world := {| files := []; flaky := n |}; trace := [] |}.

(** A [psf] written to a file of its own, a [weight] image in HDU 1 of the
    main file, a [truth] catalog that is only computed (no target), and two
    retries of a failed write. *)
Definition demo_output : gmap string (@Node demo_sig) :=
  {[ "psf" := demo_dict {[ "file_name" := demo_leaf (LStr "psf.fits") ]};
     "weight" := demo_dict {[ "hdu" := demo_leaf (LInt 1) ]};
     "truth" := demo_dict ∅;
     "retry_io" := demo_leaf (LInt 2) ]}.

(** Three HDU-mode kinds in the slots 2, 1 and 3. *)
Definition demo_hdu_output : gmap string (@Node demo_sig) :=
  {[ "psf" := demo_dict {[ "hdu" := demo_leaf (LInt 2) ]};
     "weight" := demo_dict {[ "hdu" := demo_leaf (LInt 1) ]};
     "badpix" := demo_dict {[ "hdu" := demo_leaf (LInt 3) ]} ]}.

(** Two HDU-mode kinds in the slots 1 and 3: slot 2 is missing. *)
Definition demo_gap_output : gmap string (@Node demo_sig) :=
  {[ "psf" := demo_dict {[ "hdu" := demo_leaf (LInt 1) ]};
     "weight" := demo_dict {[ "hdu" := demo_leaf (LInt 3) ]} ]}.

(** One HDU-mode kind in slot 0. *)
Definition demo_zero_output : gmap string (@Node demo_sig) :=
  {[ "psf" := demo_dict {[ "hdu" := demo_leaf (LInt 0) ]} ]}.

(** A [psf] field of type [NumberedFile] that is written to [psf.fits] and
    has no [ext]. *)
Definition demo_numbered_output : gmap string (@Node demo_sig) :=
  {[ "psf" := demo_dict {[ "file_name" := demo_leaf (LStr "psf.fits");
                           "type" := demo_leaf (LStr "NumberedFile") ]} ]}.

(** The third image of a file that starts at image 3 and object 100, with
    10, 20 and 30 objects on its images. *)
Definition demo_image_config : @Config demo_sig :=
  {| index_key := None; output := Some demo_output; image := None;
     current_nproc := None; output_manager := None;
     extra_builder := Some demo_builders; extra_last_file := None;
     nimages := Some 3; file_num := Some 0; image_num := Some 5;
     start_image_num := Some 3; start_obj_num := Some 100;
     nobj := Some [10; 20; 30]; obj_num := Some 130 |}.

(** The [ext] entry of the field of [psf] in an [output] section. *)
Definition demo_psf_ext (o : option (gmap string (@Node demo_sig)))
    : option Lit :=
  match o ≫= (fun out => out !! "psf") with
  | Some (Dict d) =>
      match d !! "ext" with
      | Some (Leaf l) => Some l
      | _ => None
      end
  | _ => None
  end.

(** The configuration of the third image again, for a run that builds its
    images in four processes and is not inside one of them. *)
Definition demo_parallel_config : @Config demo_sig :=
  {| index_key := None; output := Some demo_output;
     image := Some {[ "nproc" := demo_leaf (LInt 4) ]};
     current_nproc := None; output_manager := None;
     extra_builder := None; extra_last_file := None;
     nimages := Some 3; file_num := Some 0; image_num := Some 5;
     start_image_num := Some 3; start_obj_num := Some 100;
     nobj := Some [10; 20; 30]; obj_num := Some 130 |}.

(** A [psf] written to [psf.fits] and a [weight] image written to
    [weight.fits], with [noclobber] on. *)
Definition demo_keep_output : gmap string (@Node demo_sig) :=
  {[ "psf" := demo_dict {[ "file_name" := demo_leaf (LStr "psf.fits") ]};
     "weight" := demo_dict {[ "file_name" := demo_leaf (LStr "weight.fits") ]};
     "noclobber" := demo_leaf (LBool true) ]}.

(** A state in which the files [fs] are on disk. *)
Definition demo_disk_state (c : @Config demo_sig) (fs : list string)
    : @St demo_sig :=
  {| cfg := c; world := {| files := fs; flaky := O |}; trace := [] |}.

(** A second instance, in which the builder of [psf] (object 0) is of the
    base class and overrides nothing. *)
Definition demo_base_ext : @Ext demo_sig :=
  {| ParseValue_int := demo_ParseValue_int;
     ParseValue_str := demo_ParseValue_str;
     ParseValue_bool := demo_ParseValue_bool;
     SetDefaultExt := demo_SetDefaultExt;
     isfile := demo_isfile;
     class_of := fun b =>
       match b with
       | O => @ExtraOutputBuilder demo_sig (fun _ _ _ w => w)
       | S _ => demo_class
       end;
     leaf_has_key := demo_leaf_has_key |}.

(** ** What a pass through a loop may change *)

Section Frames.
Context `{Ext}.

(** The entries that no function of the write phase assigns. *)
Definition same_unwritten (c c' : Config) : Prop :=
  image c' = image c /\ current_nproc c' = current_nproc c /\
  output_manager c' = output_manager c /\ extra_builder c' = extra_builder c /\
  nimages c' = nimages c /\ file_num c' = file_num c /\
  image_num c' = image_num c /\ start_image_num c' = start_image_num c /\
  start_obj_num c' = start_obj_num c /\ nobj c' = nobj c /\
  obj_num c' = obj_num c.

(** The [output] dict changes at most in the fields of the file-mode kinds
    among [keys], which [SetDefaultExt] works on in place. *)
Definition defaulted_on (keys : list string)
    (o o' : option (gmap string Node)) : Prop :=
  match o, o' with
  | None, None => True
  | Some out, Some out' =>
      forall k, out' !! k = out !! k \/
        (k ∈ keys /\ exists d, out !! k = Some (Dict d) /\
           is_Some (d !! "file_name") /\
           out' !! k = Some (Dict (SetDefaultExt d ".fits")))
  | _, _ => False
  end.

(** The outcomes of the attempts of one retried call: at most
    [max 1 ntries] of them, all but the last one an I/O failure. *)
Definition retried (ntries : Z) (outs : list Outcome) : Prop :=
  (0 < length outs)%nat /\ Z.of_nat (length outs) <= Z.max 1 ntries /\
  forall i o, outs !! i = Some o -> (S i < length outs)%nat -> o = Raised IOError.

(** The hook calls of one pass through the loop of [WriteExtraOutputs] for
    [key]: none at all, or [finalize] followed, when it returns, by the
    attempts to write one file. *)
Inductive write_pass (ntries : Z) (key : string) :
    list (string * Call * Outcome) -> result unit -> Prop :=
  | wp_skip r :
      write_pass ntries key [] r
  | wp_finalize_raised e :
      write_pass ntries key [(key, CFinalize, Raised e)] (Raise e)
  | wp_written p outs r :
      retried ntries outs ->
      last outs = Some (Returned None) ->
      write_pass ntries key
        ((key, CFinalize, Returned None) ::
         ((fun o => (key, CWriteFile p, o)) <$> outs)) r
  | wp_write_raised p outs e :
      retried ntries outs ->
      last outs = Some (Raised e) ->
      (e = IOError -> Z.of_nat (length outs) = Z.max 1 ntries) ->
      write_pass ntries key
        ((key, CFinalize, Returned None) ::
         ((fun o => (key, CWriteFile p, o)) <$> outs)) (Raise e).

(** What one pass through the loop of [WriteExtraOutputs] for [key] does to
    the state, with [evs] the events it adds. *)
Record write_key_post (ntries : Z) (key : string) (s s' : St) (r : result unit)
    (evs : list Event) : Prop := {
  wk_trace : trace s' = trace s ++ evs;
  wk_index : index_key (cfg s') = index_key (cfg s);
  wk_unwritten : same_unwritten (cfg s) (cfg s');
  wk_output :
    output (cfg s') = output (cfg s) \/
    exists out d, output (cfg s) = Some out /\ out !! key = Some (Dict d) /\
      is_Some (d !! "file_name") /\
      output (cfg s') = Some (<[key := Dict (SetDefaultExt d ".fits")]> out);
  wk_pass : write_pass ntries key (hook_events evs) r;
  wk_no_target :
    forall out, output (cfg s) = Some out -> ~ file_mode out key ->
                hook_events evs = [];
  wk_record_other :
    forall k, k <> key -> last_file (cfg s') k = last_file (cfg s) k;
  wk_record :
    last_file (cfg s') key = last_file (cfg s) key \/
    exists p, last_file (cfg s') key = Some p /\
              (key, CWriteFile p, Returned None) ∈ hook_events evs;
  wk_dup :
    forall p o, (key, CWriteFile p, o) ∈ hook_events evs ->
                last_file (cfg s) key <> Some p;
  wk_written :
    forall p, (key, CWriteFile p, Returned None) ∈ hook_events evs ->
              last_file (cfg s') key = Some p;
  wk_record_kept :
    is_Some (extra_last_file (cfg s)) -> is_Some (extra_last_file (cfg s'))
}.

(** What the whole loop of [WriteExtraOutputs] over [keys] does. *)
Record write_loop_post (ntries : Z) (keys : list string) (s s' : St)
    (r : result unit) (evs : list Event) : Prop := {
  wl_trace : trace s' = trace s ++ evs;
  wl_index : index_key (cfg s') = index_key (cfg s);
  wl_unwritten : same_unwritten (cfg s) (cfg s');
  wl_output : defaulted_on keys (output (cfg s)) (output (cfg s'));
  wl_order :
    exists ns, length ns = length keys /\
               hook_keys evs = mjoin (zip_with replicate ns keys);
  wl_pass :
    forall key, exists rk,
      write_pass ntries key (hooks_of key evs) rk /\
      forall e, rk = Raise e -> r = Raise e;
  wl_no_target :
    forall out key, output (cfg s) = Some out -> ~ file_mode out key ->
                    hooks_of key evs = [];
  wl_record_other :
    forall key, key ∉ keys -> last_file (cfg s') key = last_file (cfg s) key;
  wl_record :
    forall key,
      last_file (cfg s') key = last_file (cfg s) key \/
      exists p, last_file (cfg s') key = Some p /\
                (key, CWriteFile p, Returned None) ∈ hook_events evs;
  wl_dup :
    forall key p o, (key, CWriteFile p, o) ∈ hook_events evs ->
                    last_file (cfg s) key <> Some p;
  wl_written :
    forall key p, (key, CWriteFile p, Returned None) ∈ hook_events evs ->
                  last_file (cfg s') key = Some p;
  wl_record_kept :
    is_Some (extra_last_file (cfg s)) -> is_Some (extra_last_file (cfg s'))
}.

(** The sum of some object counts. *)
Definition sum_counts (l : list Z) : Z := foldr Z.add 0 l.

(** The container kind that [SetupExtraOutput] uses for the work space. *)
Definition backing_of (um : bool) : Backing := if um then Proxy else Plain.

(** What [processImage] is called with: the position of the image in the
    file and the object numbers computed on the first pass. *)
Definition image_call_ok (on : option (list Z)) (s : St) (ev : Event) : Prop :=
  exists k o img img0 objs,
    ev = EHook k (CProcessImage (img - img0) objs) o /\
    image_num (cfg s) = Some img /\
    start_image_num (cfg s) = Some img0 /\
    (on = Some objs \/ (on = None /\ image_obj_nums s = (s, Ok objs))).

(** What [initialize] is called with: containers of the chosen kind, the
    data list holding only [None] and the scratch dict empty. *)
Definition setup_call_ok (um : bool) (ev : Event) : Prop :=
  forall k c o, ev = EHook k c o ->
    exists data scratch, c = CInitialize data scratch /\
      data_backing data = backing_of um /\
      scratch_backing scratch = backing_of um /\
      Forall (fun x => x = None) (data_items data) /\
      scratch_items scratch = ∅.

(** The registry is a dict: no kind name occurs twice. *)
Definition registry_wf (reg : Registry) : Prop := NoDup (reg.*1).

(** The state in which the loop of [WriteExtraOutputs] starts: [index_key]
    is set and the record of last files exists. *)
Definition write_start (s : St) : St :=
  let c := set_index_key "file_num" (cfg s) in
  {| cfg := if bool_decide (extra_last_file c = None)
            then set_extra_last_file ∅ c else c;
     world := world s;
     trace := trace s |}.



(** The hook calls of one pass through the first loop of
    [BuildExtraOutputHDUs] for [key]. *)
Inductive hdu_pass (key : string) :
    list (string * Call * Outcome) -> Prop :=
  | hp_skip : hdu_pass key []
  | hp_finalize_raised e : hdu_pass key [(key, CFinalize, Raised e)]
  | hp_called o :
      hdu_pass key [(key, CFinalize, Returned None); (key, CWriteHdu, o)].

(** What the first loop of [BuildExtraOutputHDUs] over [keys] does. *)
Record hdu_loop_post (out : gmap string Node) (keys : list string) (s s' : St)
    (evs : list Event) : Prop := {
  hl_trace : trace s' = trace s ++ evs;
  hl_cfg : cfg s' = cfg s;
  hl_order :
    exists ns, length ns = length keys /\
               hook_keys evs = mjoin (zip_with replicate ns keys);
  hl_pass : forall key, hdu_pass key (hooks_of key evs);
  hl_no_target : forall key, ~ hdu_mode out key -> hooks_of key evs = []
}.

(** The builder of [key] is set up and its [finalize] and [writeHdu] hooks
    return, whatever they are called on. *)
Definition hdu_hooks_return (c : Config) (key : string) : Prop :=
  exists eb b, extra_builder c = Some eb /\ eb !! key = Some b /\
    forall field base w,
      is_ok (finalize (class_of b) b field base w).2 = true /\
      is_ok (writeHdu (class_of b) b field base w).2 = true.

(** The configured HDU slot of [key], when it is in HDU mode. *)
Definition hdu_slot (c : Config) (out : gmap string Node) (key : string)
    : option (string * Z) :=
  match out !! key with
  | Some (Dict d) =>
      match d !! "hdu" with
      | Some _ => Some (key, ParseValue_int d "hdu" c)
      | None => None
      end
  | _ => None
  end.

(** The HDU-mode kinds among [keys] with their configured slots, in order. *)
Definition hdu_slots (c : Config) (out : gmap string Node) (keys : list string)
    : list (string * Z) :=
  omap (hdu_slot c out) keys.

(** The slots form a duplicate-free run of consecutive numbers that starts
    at [first]. *)
Definition contiguous_run (first : Z) (slots : list Z) : Prop :=
  NoDup slots /\
  Forall (fun z => first <= z < first + Z.of_nat (length slots)) slots.

#[global] Instance contiguous_run_dec first slots :
  Decision (contiguous_run first slots).
Proof. unfold contiguous_run. apply _. Defined.

End Frames.

(** ** Registrations *)

(** The registry after a sequence of [RegisterExtraOutput] calls on the
    module-level dict, which starts empty. *)
Definition register_all (l : list (string * BuilderId)) : Registry :=
  foldl (fun reg kb => RegisterExtraOutput kb.1 kb.2 reg) [] l.

(** ** What the functions of the image phase may do *)

Section Edges.
Context `{Ext}.

(** The entries that [SetupExtraOutput] does not assign: all of them but
    [output_manager] and [extra_builder]. *)
Definition same_unset (c c' : Config) : Prop :=
  index_key c' = index_key c /\ output c' = output c /\ image c' = image c /\
  current_nproc c' = current_nproc c /\
  extra_last_file c' = extra_last_file c /\ nimages c' = nimages c /\
  file_num c' = file_num c /\ image_num c' = image_num c /\
  start_image_num c' = start_image_num c /\
  start_obj_num c' = start_obj_num c /\ nobj c' = nobj c /\
  obj_num c' = obj_num c.

(** A hook call that returned. *)
Definition returned (h : string * Call * Outcome) : Prop :=
  exists a, h.2 = Returned a.

(** Hook calls of a run that ended with [r]: they all returned, or the last
    one raised and the run raised the same exception. *)
Definition fail_fast {A} (hs : list (string * Call * Outcome)) (r : result A)
    : Prop :=
  Forall returned hs \/
  exists pre k c e, hs = pre ++ [(k, c, Raised e)] /\ Forall returned pre /\
                    r = Raise e.

(** The state in which the loop of [SetupExtraOutput] starts: the manager is
    started if it is needed and not there yet, and [extra_builder] exists. *)
Definition setup_start (s : St) : St :=
  let c := cfg s in
  let c1 := if use_manager c && bool_decide (output_manager c = None)
            then set_output_manager tt c else c in
  {| cfg := if bool_decide (extra_builder c = None)
            then set_extra_builder ∅ c1 else c1;
     world := world s;
     trace := trace s |}.

(** [config['extra_builder'][key]] and [config['output'][key]] are there. *)
Definition ready (c : Config) (key : string) : Prop :=
  (exists eb, extra_builder c = Some eb /\ is_Some (eb !! key)) /\
  (exists out, output c = Some out /\ is_Some (out !! key)).

(** The run raised what its last hook call raised. *)
Definition hook_failure {A} (hs : list (string * Call * Outcome))
    (r : result A) : Prop :=
  exists pre k c e, hs = pre ++ [(k, c, Raised e)] /\ r = Raise e.

(** The kinds the functions of the image phase work on in the state [s]. *)
Definition kinds_of (reg : Registry) (s : St) : list string :=
  match output (cfg s) with
  | Some out => active_keys reg out
  | None => []
  end.

(** The hook calls that [f] makes from [s] all returned, or the last one
    raised and [f] raised the same exception. *)
Definition fails_fast {A} (f : M A) (s : St) : Prop :=
  fail_fast (hook_events (new_events s (f s).1)) (f s).2.

(** [config['image_num'] = v] *)
Definition set_image_num (v : Z) (c : Config) : Config :=
  {| index_key := index_key c; output := output c; image := image c;
     current_nproc := current_nproc c; output_manager := output_manager c;
     extra_builder := extra_builder c; extra_last_file := extra_last_file c;
     nimages := nimages c; file_num := file_num c; image_num := Some v;
     start_image_num := start_image_num c; start_obj_num := start_obj_num c;
     nobj := nobj c; obj_num := obj_num c |}.

(** The state [s] while the image [img] is the current one. *)
Definition at_image (s : St) (img : Z) : St :=
  {| cfg := set_image_num img (cfg s); world := world s; trace := trace s |}.

(** Consecutive ranges of object numbers, of the lengths [counts], from
    [start] on. *)
Fixpoint object_ranges (start : Z) (counts : list Z) : list (list Z) :=
  match counts with
  | [] => []
  | n :: rest => py_range start (start + n) :: object_ranges (start + n) rest
  end.

(** Each kind of [keys] twice in a row: one [finalize] and one [writeHdu]
    call per kind. *)
Definition twice (keys : list string) : list string :=
  keys ≫= (fun k => [k; k]).

(** The first of the entries read at the start of the loop of
    [ProcessExtraOutputsForImage] that is missing from [c], in the order in
    which they are read. *)
Definition first_missing (c : Config) : option string :=
  match file_num c, image_num c, start_image_num c, start_obj_num c, nobj c with
  | None, _, _, _, _ => Some "file_num"
  | _, None, _, _, _ => Some "image_num"
  | _, _, None, _, _ => Some "start_image_num"
  | _, _, _, None, _ => Some "start_obj_num"
  | _, _, _, _, None => Some "nobj"
  | _, _, _, _, _ => None
  end.

(** The hook call [c] was made on the kinds of [keys] one after the other,
    once on each: on all of them, every call returning, and the run
    returned; or up to a kind on which the call raised, after it had
    returned on the kinds before it, and the run raised that exception. *)
Definition called_in_order (c : Call) (keys : list string)
    (hs : list (string * Call * Outcome)) (r : result unit) : Prop :=
  (r = Ok tt /\ hs = (fun k => (k, c, Returned None)) <$> keys) \/
  exists pre key post e,
    keys = pre ++ key :: post /\
    hs = ((fun k => (k, c, Returned None)) <$> pre) ++ [(key, c, Raised e)] /\
    r = Raise e.

(** The work space that [initialize] is called with: a data list of [n]
    entries [None] and an empty scratch dict, both backed by [b]. *)
Definition workspace (b : Backing) (n : Z) : Call :=
  CInitialize {| data_backing := b; data_items := replicate (Z.to_nat n) None |}
              {| scratch_backing := b; scratch_items := ∅ |}.






End Edges.

(** ** Basic facts about runs *)

Section Runs.
Context `{Ext}.

Lemma new_events_app (s s' : St) evs :
  trace s' = trace s ++ evs -> new_events s s' = evs.
Proof.
  intros E. unfold new_events. rewrite E. by rewrite drop_app_length.
Qed.

Lemma hook_events_app (a b : list Event) :
  hook_events (a ++ b) = hook_events a ++ hook_events b.
Proof. unfold hook_events. by rewrite omap_app. Qed.

Lemma hooks_of_app key (a b : list Event) :
  hooks_of key (a ++ b) = hooks_of key a ++ hooks_of key b.
Proof. unfold hooks_of. by rewrite hook_events_app, filter_app. Qed.

Lemma hook_keys_app (a b : list Event) :
  hook_keys (a ++ b) = hook_keys a ++ hook_keys b.
Proof. unfold hook_keys. by rewrite hook_events_app, fmap_app. Qed.

Lemma hook_events_writes key p (outs : list Outcome) :
  hook_events (EHook key (CWriteFile p) <$> outs)
  = (fun o => (key, CWriteFile p, o)) <$> outs.
Proof.
  unfold hook_events. induction outs as [|o outs IH]; simpl; [done|].
  f_equal. exact IH.
Qed.

Lemma call_hook_inv {A} key c (val : A -> option Artifact) hook (s s1 : St) r :
  call_hook key c val hook s = (s1, r) ->
  cfg s1 = cfg s /\ trace s1 = trace s ++ [EHook key c (outcome_of val r)].
Proof.
  unfold call_hook. destruct (hook (cfg s) (world s)) as [w r'].
  intros [= <- <-]. done.
Qed.

Lemma retry_loop_eq {A} (attempt : M A) more (s : St) :
  retry_loop attempt more s =
  match attempt s with
  | (s', Ok a) => (s', Ok a)
  | (s', Raise e) =>
      match more with
      | O => (s', Raise e)
      | S n => if is_IOError e then retry_loop attempt n s' else (s', Raise e)
      end
  end.
Proof. destruct more; reflexivity. Qed.

(** The retried call: the configuration is untouched and the record grows by
    the attempts, the last of which decides the result. *)
Lemma retry_loop_writes key p hook more (s : St) :
  let res := retry_loop (call_hook key (CWriteFile p) no_value hook) more s in
  cfg res.1 = cfg s /\
  exists outs,
    trace res.1 = trace s ++ (EHook key (CWriteFile p) <$> outs) /\
    (0 < length outs <= S more)%nat /\
    last outs = Some (outcome_of no_value res.2) /\
    (forall i o, outs !! i = Some o -> (S i < length outs)%nat ->
                 o = Raised IOError) /\
    (res.2 = Raise IOError -> length outs = S more).
Proof.
  assert (Hone : forall (s s1 : St) (r : result unit) n,
    cfg s1 = cfg s ->
    trace s1 = trace s ++ [EHook key (CWriteFile p) (outcome_of no_value r)] ->
    (r = Raise IOError -> n = O) ->
    cfg s1 = cfg s /\
    exists outs,
      trace s1 = trace s ++ (EHook key (CWriteFile p) <$> outs) /\
      (0 < length outs <= S n)%nat /\
      last outs = Some (outcome_of no_value r) /\
      (forall i o, outs !! i = Some o -> (S i < length outs)%nat ->
                   o = Raised IOError) /\
      (r = Raise IOError -> length outs = S n)).
  { intros s0 s1 r n Hc Ht Hn. split; [done|].
    exists [outcome_of no_value r]. simpl.
    split; [done|]. split; [lia|]. split; [done|]. split.
    - intros i o _ Hlt. lia.
    - intros Hr. by rewrite (Hn Hr). }
  revert s. induction more as [|n IH]; intros s; cbv zeta;
    rewrite retry_loop_eq;
    destruct (call_hook key (CWriteFile p) no_value hook s) as [s1 r] eqn:Ecall;
    destruct (call_hook_inv _ _ _ _ _ _ _ Ecall) as [Hc Ht].
  - destruct r as [a|e].
    + by apply (Hone s s1 (Ok a) O).
    + by apply (Hone s s1 (Raise e) O).
  - destruct r as [a|e]; [by apply (Hone s s1 (Ok a) (S n))|].
    destruct (is_IOError e) eqn:Ee; cbn [fst snd].
    + destruct e; try discriminate.
      destruct (IH s1) as (Hc1 & outs & Ht1 & Hl & Hlast & Hmid & Hex).
      split; [congruence|].
      exists (Raised IOError :: outs).
      split; [rewrite Ht1, Ht; simpl; by rewrite <- app_assoc|].
      split; [simpl; lia|].
      split; [destruct outs; [simpl in Hl; lia|]; by rewrite last_cons, Hlast|].
      split.
      * intros [|i] o Hi Hlt; simpl in *; [congruence|].
        apply (Hmid i); [done|lia].
      * intros Hr. simpl. by rewrite (Hex Hr).
    + apply (Hone s s1 (Raise e) (S n)); try done. intros [= ->]. discriminate.
Qed.

Lemma bind_inv {A B} (m : M A) (k : A -> M B) (s s' : St) r :
  bind m k s = (s', r) ->
  (exists s1 a, m s = (s1, Ok a) /\ k a s1 = (s', r)) \/
  (exists e, m s = (s', Raise e) /\ r = Raise e).
Proof.
  unfold bind. destruct (m s) as [s1 [a|e]]; intros E.
  - left. by exists s1, a.
  - right. exists e. by simplify_eq.
Qed.

(** Inversion of a run, one monadic step at a time. *)
Ltac minv :=
  repeat match goal with
  | Hrun : bind _ _ _ = (_, _) |- _ =>
      apply bind_inv in Hrun;
      destruct Hrun as [(? & ? & ? & Hrun) | (? & Hrun & ?)]; simplify_eq
  | Hrun : get_cfg _ = (_, _) |- _ => unfold get_cfg in Hrun; simplify_eq
  | Hrun : get_world _ = (_, _) |- _ => unfold get_world in Hrun; simplify_eq
  | Hrun : ret _ _ = (_, _) |- _ => unfold ret in Hrun; simplify_eq
  | Hrun : raise _ _ = (_, _) |- _ => unfold raise in Hrun; simplify_eq
  | Hrun : modify_cfg _ _ = (_, _) |- _ => unfold modify_cfg in Hrun; simplify_eq
  | Hrun : emit _ _ = (_, _) |- _ => unfold emit in Hrun; simplify_eq
  | Hrun : require _ ?o _ = (_, _) |- _ =>
      unfold require in Hrun; destruct o eqn:?
  | Hrun : get_builder _ _ = (_, _) |- _ => unfold get_builder in Hrun
  | Hrun : get_field _ _ = (_, _) |- _ => unfold get_field in Hrun
  end.

Lemma same_unwritten_refl (c : Config) : same_unwritten c c.
Proof. by repeat split. Qed.

Lemma log_file_num_run logger lvl key (s s' : St) r :
  log_file_num logger lvl key s = (s', r) ->
  cfg s' = cfg s /\
  exists evs, trace s' = trace s ++ evs /\ hook_events evs = [].
Proof.
  unfold log_file_num, when. destruct logger; intros Hrun; minv; simpl.
  - split; [done|]. by exists [ELog lvl key].
  - split; [done|]. exists []. by rewrite app_nil_r.
  - split; [done|]. exists []. by rewrite app_nil_r.
Qed.

Lemma RetryIO_writes key p hook ntries (s s' : St) r :
  RetryIO (call_hook key (CWriteFile p) no_value hook) ntries s = (s', r) ->
  cfg s' = cfg s /\
  exists outs,
    trace s' = trace s ++ (EHook key (CWriteFile p) <$> outs) /\
    retried ntries outs /\
    last outs = Some (outcome_of no_value r) /\
    (r = Raise IOError -> Z.of_nat (length outs) = Z.max 1 ntries).
Proof.
  unfold RetryIO. intros Hrun.
  pose proof (retry_loop_writes key p hook (Z.to_nat ntries - 1) s) as Hspec.
  cbv zeta in Hspec. rewrite Hrun in Hspec. simpl in Hspec.
  destruct Hspec as (Hc & outs & Ht & Hlen & Hlast & Hmid & Hex).
  split; [done|]. exists outs. split; [done|]. split.
  - split; [lia|]. split; [lia|]. done.
  - split; [done|]. intros Hr. specialize (Hex Hr). lia.
Qed.

Lemma hook_events_pass key o p (outs : list Outcome) (logs : list Event) :
  hook_events logs = [] ->
  hook_events ([EHook key CFinalize o] ++ (EHook key (CWriteFile p) <$> outs) ++ logs)
  = (key, CFinalize, o) :: ((fun x => (key, CWriteFile p, x)) <$> outs).
Proof.
  intros Hl.
  rewrite !hook_events_app, hook_events_writes, Hl, app_nil_r. done.
Qed.

Lemma elem_of_pass key o p (outs : list Outcome) key' p' o' :
  ((key', CWriteFile p', o') : string * Call * Outcome) ∈
    (key, CFinalize, o) :: ((fun x => (key, CWriteFile p, x)) <$> outs) ->
  p' = p /\ o' ∈ outs.
Proof.
  intros Hin. apply elem_of_cons in Hin as [Heq|Hin]; [discriminate|].
  apply list_elem_of_fmap in Hin as (x & Heq & Hx). by simplify_eq.
Qed.

Lemma write_key_post_unrecorded ntries key (s s' : St) r evs :
  trace s' = trace s ++ evs ->
  index_key (cfg s') = index_key (cfg s) ->
  same_unwritten (cfg s) (cfg s') ->
  extra_last_file (cfg s') = extra_last_file (cfg s) ->
  (output (cfg s') = output (cfg s) \/
    exists out d, output (cfg s) = Some out /\ out !! key = Some (Dict d) /\
      is_Some (d !! "file_name") /\
      output (cfg s') = Some (<[key := Dict (SetDefaultExt d ".fits")]> out)) ->
  write_pass ntries key (hook_events evs) r ->
  (forall out, output (cfg s) = Some out -> ~ file_mode out key ->
               hook_events evs = []) ->
  (forall p o, (key, CWriteFile p, o) ∈ hook_events evs ->
               last_file (cfg s) key <> Some p /\ o <> Returned None) ->
  write_key_post ntries key s s' r evs.
Proof.
  intros Ht Hi Hu Hl Ho Hp Hn Hw.
  assert (Hlf : forall k, last_file (cfg s') k = last_file (cfg s) k).
  { intros k. unfold last_file. by rewrite Hl. }
  split; [exact Ht|exact Hi|exact Hu|exact Ho|exact Hp|exact Hn|..].
  - intros k _. apply Hlf.
  - by left.
  - intros p o Hin. by apply (Hw p o).
  - intros p Hin. by destruct (Hw _ _ Hin).
  - by rewrite Hl.
Qed.

Lemma write_key_post_quiet ntries key (s s' : St) r evs :
  trace s' = trace s ++ evs ->
  hook_events evs = [] ->
  index_key (cfg s') = index_key (cfg s) ->
  same_unwritten (cfg s) (cfg s') ->
  extra_last_file (cfg s') = extra_last_file (cfg s) ->
  (output (cfg s') = output (cfg s) \/
    exists out d, output (cfg s) = Some out /\ out !! key = Some (Dict d) /\
      is_Some (d !! "file_name") /\
      output (cfg s') = Some (<[key := Dict (SetDefaultExt d ".fits")]> out)) ->
  write_key_post ntries key s s' r evs.
Proof.
  intros Ht Hh Hi Hu Hl Ho.
  apply write_key_post_unrecorded; try done.
  - rewrite Hh. constructor.
  - intros p o Hin. rewrite Hh in Hin. by apply elem_of_nil in Hin.
Qed.

Lemma write_key_post_recorded ntries key p last (s s' : St) r evs :
  trace s' = trace s ++ evs ->
  index_key (cfg s') = index_key (cfg s) ->
  same_unwritten (cfg s) (cfg s') ->
  extra_last_file (cfg s) = Some last ->
  extra_last_file (cfg s') = Some (<[key := p]> last) ->
  (output (cfg s') = output (cfg s) \/
    exists out d, output (cfg s) = Some out /\ out !! key = Some (Dict d) /\
      is_Some (d !! "file_name") /\
      output (cfg s') = Some (<[key := Dict (SetDefaultExt d ".fits")]> out)) ->
  write_pass ntries key (hook_events evs) r ->
  (forall out, output (cfg s) = Some out -> file_mode out key) ->
  (forall p' o, (key, CWriteFile p', o) ∈ hook_events evs -> p' = p) ->
  (key, CWriteFile p, Returned None) ∈ hook_events evs ->
  last !! key <> Some p ->
  write_key_post ntries key s s' r evs.
Proof.
  intros Ht Hi Hu Hl Hl' Ho Hp Hn Hw Hin Hdup.
  assert (Hnew : last_file (cfg s') key = Some p).
  { unfold last_file. rewrite Hl'. simpl. by rewrite lookup_insert_eq. }
  split; [exact Ht|exact Hi|exact Hu|exact Ho|exact Hp|..].
  - intros out Hout Hnf. destruct Hnf. by apply Hn.
  - intros k Hk. unfold last_file. rewrite Hl, Hl'. simpl.
    by rewrite lookup_insert_ne.
  - right. by exists p.
  - intros p' o Hin'. rewrite (Hw _ _ Hin'). unfold last_file. by rewrite Hl.
  - intros p' Hin'. by rewrite (Hw _ _ Hin').
  - by rewrite Hl'.
Qed.

Ltac inv_calls :=
  repeat match goal with
  | Hc : call_hook _ _ _ _ _ = _ |- _ => apply call_hook_inv in Hc as [? ?]
  | Hr : RetryIO _ _ _ = _ |- _ =>
      apply RetryIO_writes in Hr as (? & ? & ? & ? & ? & ?)
  | Hl : log_file_num _ _ _ _ = _ |- _ =>
      apply log_file_num_run in Hl as (? & ? & ? & ?)
  end;
  unfold outcome_of, no_value in *; cbn [cfg world trace] in *.

Ltac trace_eq :=
  repeat match goal with
  | Ht : trace _ = _ |- _ => rewrite Ht; clear Ht
  end;
  rewrite <- ?app_assoc; try reflexivity.

Ltac cfg_eq :=
  repeat match goal with
  | Hc : cfg ?y = _ |- _ => is_var y; try rewrite !Hc in *; clear Hc
  end;
  simpl in *.

Lemma retried_raised ntries outs e o :
  retried ntries outs -> last outs = Some (Raised e) -> o ∈ outs ->
  o <> Returned None.
Proof.
  intros (Hpos & _ & Hmid) Hlast Hin.
  apply list_elem_of_lookup in Hin as [i Hi].
  destruct (decide (S i < length outs)%nat) as [Hlt|Hge].
  - by rewrite (Hmid i o Hi Hlt).
  - apply lookup_lt_Some in Hi as Hlt.
    rewrite last_lookup in Hlast.
    replace (pred (length outs)) with i in Hlast by lia.
    congruence.
Qed.

Lemma write_file_post ntries logger key field p (s0 s s' : St) r :
  trace s = trace s0 ->
  index_key (cfg s) = index_key (cfg s0) ->
  same_unwritten (cfg s0) (cfg s) ->
  extra_last_file (cfg s) = extra_last_file (cfg s0) ->
  (exists out d, output (cfg s0) = Some out /\ out !! key = Some (Dict d) /\
      is_Some (d !! "file_name") /\
      output (cfg s) = Some (<[key := Dict (SetDefaultExt d ".fits")]> out)) ->
  last_file (cfg s) key <> Some p ->
  is_Some (extra_last_file (cfg s)) ->
  write_file ntries logger key field p s = (s', r) ->
  exists evs, write_key_post ntries key s0 s' r evs.
Proof.
  intros Ht Hi Hu Hl Ho Hdup Hsome Hrun.
  assert (Hfm : forall out, output (cfg s0) = Some out -> file_mode out key).
  { intros out Hout. destruct Ho as (out' & d & Hout' & Hk & Hfn & _).
    simplify_eq. by exists d. }
  assert (Ho' : output (cfg s) = output (cfg s0) \/
    exists out d, output (cfg s0) = Some out /\ out !! key = Some (Dict d) /\
      is_Some (d !! "file_name") /\
      output (cfg s) = Some (<[key := Dict (SetDefaultExt d ".fits")]> out))
    by (by right).
  clear Ho.
  unfold write_file in Hrun. minv; inv_calls.
  - (* written and recorded *)
    eexists.
    match goal with
    | Hrec : extra_last_file (cfg _) = Some ?last |- _ =>
        eapply (write_key_post_recorded ntries key p last)
    end.
    + trace_eq.
    + cfg_eq. done.
    + cfg_eq. done.
    + cfg_eq. congruence.
    + cfg_eq. done.
    + cfg_eq. done.
    + rewrite hook_events_pass by done. by apply wp_written.
    + done.
    + rewrite hook_events_pass by done. intros p' o Hin.
      by apply elem_of_pass in Hin as [-> _].
    + rewrite hook_events_pass by done. apply elem_of_cons. right.
      apply list_elem_of_fmap. exists (Returned None). split; [done|].
      by apply last_Some_elem_of.
    + cfg_eq. unfold last_file in Hdup.
      match goal with
      | Hrec : extra_last_file (cfg _) = Some _ |- _ => by rewrite Hrec in Hdup
      end.
  - (* the record is there *)
    cfg_eq.
    match goal with
    | Hrec : extra_last_file (cfg _) = None |- _ =>
        rewrite Hrec in Hsome; by destruct Hsome
    end.
  - (* the retried write raised *)
    eexists ([EHook key CFinalize _] ++ (EHook key (CWriteFile p) <$> _) ++ []).
    eapply write_key_post_unrecorded.
    + rewrite app_nil_r. trace_eq.
    + cfg_eq. done.
    + cfg_eq. done.
    + cfg_eq. done.
    + cfg_eq. done.
    + rewrite hook_events_pass by done.
      apply wp_write_raised; [done|done|intros ->; auto].
    + intros out Hout Hnf. destruct Hnf. by apply Hfm.
    + rewrite hook_events_pass by done. intros p' o Hin.
      apply elem_of_pass in Hin as [-> Hin]. split.
      * cfg_eq. unfold last_file in *. congruence.
      * eapply retried_raised; eauto.
  - (* finalize raised *)
    exists [EHook key CFinalize (Raised x1)].
    apply write_key_post_unrecorded.
    + trace_eq.
    + cfg_eq. done.
    + cfg_eq. done.
    + cfg_eq. done.
    + cfg_eq. done.
    + apply wp_finalize_raised.
    + intros out Hout Hnf. destruct Hnf. by apply Hfm.
    + intros p' o Hin. apply list_elem_of_singleton in Hin. discriminate.
  - (* no builder for the kind *)
    exists []. apply write_key_post_quiet; rewrite ?app_nil_r; auto.
  - exists []. apply write_key_post_quiet; rewrite ?app_nil_r; auto.
Qed.

Lemma write_key_spec ntries default_dir noclobber logger key (s s' : St) r :
  write_key ntries default_dir noclobber logger key s = (s', r) ->
  exists evs, write_key_post ntries key s s' r evs.
Proof.
  intros Hrun. unfold write_key in Hrun.
  apply bind_inv in Hrun as [(s1 & field & Hf & Hrun)|(e & Hf & ->)].
  2:{ unfold get_field in Hf. minv; exists [];
      apply write_key_post_quiet; rewrite ?app_nil_r;
      auto using same_unwritten_refl. }
  unfold get_field in Hf. minv.
  destruct field as [e|d].
  { unfold leaf_field in Hrun. destruct (leaf_has_key e _) as [[]|]; minv;
      exists []; apply write_key_post_quiet; rewrite ?app_nil_r;
      auto using same_unwritten_refl. }
  destruct (d !! "file_name") as [fn|] eqn:Efn.
  2:{ minv. exists []. apply write_key_post_quiet; rewrite ?app_nil_r;
      auto using same_unwritten_refl. }
  minv. cbn [cfg world trace] in Hrun.
  remember {| cfg := set_output (<[key:=Dict (SetDefaultExt d ".fits")]> x3) (cfg x1);
              world := world x1; trace := trace x1 |} as s1 eqn:Es1.
  assert (Hc1 : cfg s1 = set_output (<[key:=Dict (SetDefaultExt d ".fits")]> x3) (cfg x1))
    by (by rewrite Es1).
  assert (Ht1 : trace s1 = trace x1) by (by rewrite Es1).
  clear Es1.
  remember (resolve_path (SetDefaultExt d ".fits") default_dir
              (set_output (<[key:=Dict (SetDefaultExt d ".fits")]> x3) (cfg x1)))
    as p eqn:Ep.
  clear Ep.
  assert (Hout : exists out d0, output (cfg x1) = Some out /\
      out !! key = Some (Dict d0) /\ is_Some (d0 !! "file_name") /\
      output (cfg s1) = Some (<[key := Dict (SetDefaultExt d0 ".fits")]> out)).
  { exists x3, d. rewrite Hc1. by repeat split. }
  assert (Hi1 : index_key (cfg s1) = index_key (cfg x1)) by (by rewrite Hc1).
  assert (Hu1 : same_unwritten (cfg x1) (cfg s1)) by (rewrite Hc1; by repeat split).
  assert (Hl1 : extra_last_file (cfg s1) = extra_last_file (cfg x1))
    by (by rewrite Hc1).
  clear Hc1.
  assert (Hquiet : forall logs r', trace s' = trace s1 ++ logs ->
            hook_events logs = [] -> cfg s' = cfg s1 ->
            exists evs, write_key_post ntries key x1 s' r' evs).
  { intros logs r' Ht Hh Hc. exists logs.
    apply write_key_post_quiet; rewrite ?Hc; try done.
    - by rewrite Ht, Ht1.
    - by right. }
  destruct (noclobber && isfile (world x1) p).
  { inv_calls. eapply Hquiet; eauto. }
  simpl in Hrun. rewrite <- Hl1 in Hrun.
  apply bind_inv in Hrun as [(s2 & last & Hreq & Hrun)|(e & Hreq & ->)];
    unfold require in Hreq;
    destruct (extra_last_file (cfg s1)) as [last'|] eqn:Elast;
    unfold ret, raise in Hreq; simplify_eq.
  2:{ apply (Hquiet []); by rewrite ?app_nil_r. }
  case_bool_decide as Hdup.
  { inv_calls. eapply Hquiet; eauto. }
  eapply (write_file_post _ _ _ _ _ x1 s2); try done.
  - congruence.
  - unfold last_file. by rewrite Elast.
Qed.

Lemma write_pass_own ntries key hs r (h : string * Call * Outcome) :
  write_pass ntries key hs r -> h ∈ hs -> h.1.1 = key.
Proof.
  intros Hp Hin. destruct Hp as [r|e|p outs r Hr Hl|p outs e Hr Hl He].
  - by apply elem_of_nil in Hin.
  - apply list_elem_of_singleton in Hin. by subst.
  - apply elem_of_cons in Hin as [->|Hin]; [done|].
    apply list_elem_of_fmap in Hin as (o & -> & _). done.
  - apply elem_of_cons in Hin as [->|Hin]; [done|].
    apply list_elem_of_fmap in Hin as (o & -> & _). done.
Qed.

Lemma hooks_of_own key (evs : list Event) :
  (forall h, h ∈ hook_events evs -> h.1.1 = key) ->
  hooks_of key evs = hook_events evs.
Proof.
  unfold hooks_of. generalize (hook_events evs). intros hs Hall.
  induction hs as [|h hs IH]; [done|].
  rewrite filter_cons_True by (apply Hall; left).
  f_equal. apply IH. intros h' Hin. apply Hall. by right.
Qed.

Lemma hooks_of_other key (evs : list Event) :
  (forall h, h ∈ hook_events evs -> h.1.1 <> key) ->
  hooks_of key evs = [].
Proof.
  unfold hooks_of. generalize (hook_events evs). intros hs Hall.
  induction hs as [|h hs IH]; [done|].
  rewrite filter_cons_False by (apply Hall; left).
  apply IH. intros h' Hin. apply Hall. by right.
Qed.

Lemma hooks_of_elem key (evs : list Event) h :
  h ∈ hooks_of key evs <-> h ∈ hook_events evs /\ h.1.1 = key.
Proof. unfold hooks_of. rewrite list_elem_of_filter. tauto. Qed.

Lemma hook_keys_own key (evs : list Event) :
  (forall h, h ∈ hook_events evs -> h.1.1 = key) ->
  hook_keys evs = replicate (length (hook_events evs)) key.
Proof.
  unfold hook_keys. generalize (hook_events evs). intros hs Hall.
  induction hs as [|h hs IH]; [done|]. simpl.
  rewrite (Hall h) by left. f_equal. apply IH.
  intros h' Hin. apply Hall. by right.
Qed.

Lemma hook_keys_elem (evs : list Event) k :
  k ∈ hook_keys evs <-> exists h, h ∈ hook_events evs /\ h.1.1 = k.
Proof.
  unfold hook_keys. rewrite list_elem_of_fmap. split.
  - intros (h & -> & Hin). by exists h.
  - intros (h & Hin & <-). by exists h.
Qed.

Lemma mjoin_replicate_zero (keys : list string) :
  mjoin (zip_with replicate (replicate (length keys) O) keys) = [].
Proof. induction keys as [|k keys IH]; [done|]. simpl. exact IH. Qed.

Lemma elem_of_mjoin_replicate (ns : list nat) (keys : list string) k :
  k ∈ mjoin (zip_with replicate ns keys) -> k ∈ keys.
Proof.
  revert ns. induction keys as [|k' keys IH]; intros [|n ns]; simpl;
    try (intros Hin; by apply elem_of_nil in Hin).
  rewrite elem_of_app. intros [Hin|Hin].
  - apply elem_of_replicate in Hin as [-> _]. left.
  - right. by apply (IH ns).
Qed.

Lemma for_each_cons_inv {A} (x : A) l body (s s' : St) r :
  for_each (x :: l) body s = (s', r) ->
  (exists s1, body x s = (s1, Ok tt) /\ for_each l body s1 = (s', r)) \/
  (exists e, body x s = (s', Raise e) /\ r = Raise e).
Proof.
  simpl. intros Hrun. apply bind_inv in Hrun as [(s1 & [] & Hb & Hrun)|Hrun].
  - left. by exists s1.
  - by right.
Qed.

Lemma same_unwritten_trans (c1 c2 c3 : Config) :
  same_unwritten c1 c2 -> same_unwritten c2 c3 -> same_unwritten c1 c3.
Proof.
  unfold same_unwritten. intros H12 H23.
  destruct H12 as (?&?&?&?&?&?&?&?&?&?&?).
  destruct H23 as (?&?&?&?&?&?&?&?&?&?&?).
  repeat split; congruence.
Qed.

Lemma write_loop_keys ntries keys (s s' : St) r evs h :
  write_loop_post ntries keys s s' r evs ->
  h ∈ hook_events evs -> h.1.1 ∈ keys.
Proof.
  intros P Hin. destruct (wl_order _ _ _ _ _ _ P) as (ns & _ & Hk).
  apply (elem_of_mjoin_replicate ns). rewrite <- Hk.
  apply hook_keys_elem. by exists h.
Qed.

Lemma write_loop_post_cons_ok ntries k rest (s s1 s' : St) r evs1 evs2 :
  k ∉ rest ->
  write_key_post ntries k s s1 (Ok tt) evs1 ->
  write_loop_post ntries rest s1 s' r evs2 ->
  write_loop_post ntries (k :: rest) s s' r (evs1 ++ evs2).
Proof.
  intros Hk P1 P2.
  assert (Hown1 : forall h, h ∈ hook_events evs1 -> h.1.1 = k).
  { intros h. apply (write_pass_own _ _ _ _ _ (wk_pass _ _ _ _ _ _ P1)). }
  assert (Hkeys2 : forall h, h ∈ hook_events evs2 -> h.1.1 ∈ rest).
  { intros h. by apply (write_loop_keys _ _ _ _ _ _ _ P2). }
  assert (Hk2 : hooks_of k evs2 = []).
  { apply hooks_of_other. intros h Hin Heq. apply Hk. rewrite <- Heq.
    by apply Hkeys2. }
  assert (Hother1 : forall key, key <> k -> hooks_of key evs1 = []).
  { intros key Hne. apply hooks_of_other. intros h Hin Heq.
    apply Hne. pose proof (Hown1 h Hin). congruence. }
  split.
  - rewrite (wl_trace _ _ _ _ _ _ P2), (wk_trace _ _ _ _ _ _ P1).
    by rewrite app_assoc.
  - rewrite (wl_index _ _ _ _ _ _ P2). apply (wk_index _ _ _ _ _ _ P1).
  - eapply same_unwritten_trans;
      [apply (wk_unwritten _ _ _ _ _ _ P1)|apply (wl_unwritten _ _ _ _ _ _ P2)].
  - pose proof (wl_output _ _ _ _ _ _ P2) as Ho2.
    pose proof (wk_output _ _ _ _ _ _ P1) as Ho1.
    unfold defaulted_on in *.
    destruct (output (cfg s)) as [out|] eqn:Eo;
      destruct (output (cfg s1)) as [out1|] eqn:Eo1;
      destruct (output (cfg s')) as [out'|] eqn:Eo';
      try done; try (destruct Ho1 as [Ho1|(?&?&?&?&?&?)]; congruence).
    intros j. destruct Ho1 as [Ho1|(out0 & d & Hout0 & Hd & Hfn & Ho1)].
    + simplify_eq. destruct (Ho2 j) as [Hj|(Hin & d & Hd & Hfn & Hj)].
      * by left.
      * right. split; [by right|]. by exists d.
    + simplify_eq. destruct (decide (j = k)) as [->|Hne].
      * right. split; [left|]. exists d. split; [done|]. split; [done|].
        destruct (Ho2 k) as [Hj|(Hin & _)]; [|done].
        rewrite Hj. by rewrite lookup_insert_eq.
      * destruct (Ho2 j) as [Hj|(Hin & d' & Hd' & Hfn' & Hj)].
        -- left. rewrite Hj. by rewrite lookup_insert_ne.
        -- right. split; [by right|]. exists d'.
           rewrite lookup_insert_ne in Hd' by done. done.
  - destruct (wl_order _ _ _ _ _ _ P2) as (ns & Hlen & Hk').
    exists (length (hook_events evs1) :: ns). split; [simpl; by rewrite Hlen|].
    rewrite hook_keys_app, Hk'. simpl. f_equal. by apply hook_keys_own.
  - intros key. destruct (decide (key = k)) as [->|Hne].
    + exists (Ok tt). split; [|done].
      rewrite hooks_of_app, Hk2, app_nil_r, hooks_of_own by done.
      apply (wk_pass _ _ _ _ _ _ P1).
    + destruct (wl_pass _ _ _ _ _ _ P2 key) as (rk & Hp & Hr).
      exists rk. split; [|done].
      by rewrite hooks_of_app, (Hother1 key Hne).
  - intros out key Hout Hnf. rewrite hooks_of_app.
    destruct (decide (key = k)) as [->|Hne].
    + rewrite Hk2, app_nil_r, hooks_of_own by done.
      by apply (wk_no_target _ _ _ _ _ _ P1 out).
    + rewrite (Hother1 key Hne). simpl.
      destruct (wk_output _ _ _ _ _ _ P1) as [Ho1|(out0 & d & Hout0 & Hd & Hfn & Ho1)].
      * apply (wl_no_target _ _ _ _ _ _ P2 out); [congruence|done].
      * simplify_eq.
        apply (wl_no_target _ _ _ _ _ _ P2 _ key Ho1).
        intros (d' & Hd' & Hfn'). apply Hnf. exists d'.
        rewrite lookup_insert_ne in Hd' by done. done.
  - intros key Hnin. apply not_elem_of_cons in Hnin as [Hne Hnin].
    rewrite (wl_record_other _ _ _ _ _ _ P2 key Hnin).
    by apply (wk_record_other _ _ _ _ _ _ P1).
  - intros key.
    destruct (wl_record _ _ _ _ _ _ P2 key) as [Heq|(p & Hp & Hin)].
    + rewrite Heq. destruct (decide (key = k)) as [->|Hne].
      * destruct (wk_record _ _ _ _ _ _ P1) as [Heq1|(p & Hp & Hin)]; [by left|].
        right. exists p. split; [done|].
        rewrite hook_events_app. apply elem_of_app. by left.
      * left. by apply (wk_record_other _ _ _ _ _ _ P1).
    + right. exists p. split; [done|].
      rewrite hook_events_app. apply elem_of_app. by right.
  - intros key p o Hin. rewrite hook_events_app in Hin.
    apply elem_of_app in Hin as [Hin|Hin].
    + pose proof (Hown1 _ Hin) as Heq. simpl in Heq. subst key.
      by apply (wk_dup _ _ _ _ _ _ P1 p o).
    + pose proof (Hkeys2 _ Hin) as Hkin. simpl in Hkin.
      rewrite <- (wk_record_other _ _ _ _ _ _ P1 key)
        by (intros ->; by apply Hk).
      by apply (wl_dup _ _ _ _ _ _ P2 key p o).
  - intros key p Hin. rewrite hook_events_app in Hin.
    apply elem_of_app in Hin as [Hin|Hin].
    + pose proof (Hown1 _ Hin) as Heq. simpl in Heq. subst key.
      rewrite (wl_record_other _ _ _ _ _ _ P2 k Hk).
      by apply (wk_written _ _ _ _ _ _ P1).
    + by apply (wl_written _ _ _ _ _ _ P2).
  - intros Hs. apply (wl_record_kept _ _ _ _ _ _ P2).
    by apply (wk_record_kept _ _ _ _ _ _ P1).
Qed.

Lemma write_loop_post_cons_raise ntries k rest (s s' : St) e evs1 :
  write_key_post ntries k s s' (Raise e) evs1 ->
  write_loop_post ntries (k :: rest) s s' (Raise e) evs1.
Proof.
  intros P1.
  assert (Hown1 : forall h, h ∈ hook_events evs1 -> h.1.1 = k).
  { intros h. apply (write_pass_own _ _ _ _ _ (wk_pass _ _ _ _ _ _ P1)). }
  assert (Hother1 : forall key, key <> k -> hooks_of key evs1 = []).
  { intros key Hne. apply hooks_of_other. intros h Hin Heq.
    apply Hne. pose proof (Hown1 h Hin). congruence. }
  split.
  - apply (wk_trace _ _ _ _ _ _ P1).
  - apply (wk_index _ _ _ _ _ _ P1).
  - apply (wk_unwritten _ _ _ _ _ _ P1).
  - pose proof (wk_output _ _ _ _ _ _ P1) as Ho1. unfold defaulted_on.
    destruct (output (cfg s)) as [out|] eqn:Eo;
      destruct (output (cfg s')) as [out'|] eqn:Eo';
      try done; try (destruct Ho1 as [Ho1|(?&?&?&?&?&?)]; congruence).
    intros j. destruct Ho1 as [Ho1|(out0 & d & Hout0 & Hd & Hfn & Ho1)].
    + simplify_eq. by left.
    + simplify_eq. destruct (decide (j = k)) as [->|Hne].
      * right. split; [left|]. exists d. by rewrite lookup_insert_eq.
      * left. by rewrite lookup_insert_ne.
  - exists (length (hook_events evs1) :: replicate (length rest) O).
    split; [simpl; by rewrite length_replicate|].
    simpl. rewrite mjoin_replicate_zero, app_nil_r. by apply hook_keys_own.
  - intros key. destruct (decide (key = k)) as [->|Hne].
    + exists (Raise e). split; [|done]. rewrite hooks_of_own by done.
      apply (wk_pass _ _ _ _ _ _ P1).
    + exists (Ok tt). split; [|done]. rewrite (Hother1 key Hne). constructor.
  - intros out key Hout Hnf. destruct (decide (key = k)) as [->|Hne].
    + rewrite hooks_of_own by done. by apply (wk_no_target _ _ _ _ _ _ P1 out).
    + by apply Hother1.
  - intros key Hnin. apply not_elem_of_cons in Hnin as [Hne Hnin].
    by apply (wk_record_other _ _ _ _ _ _ P1).
  - intros key. destruct (decide (key = k)) as [->|Hne].
    + apply (wk_record _ _ _ _ _ _ P1).
    + left. by apply (wk_record_other _ _ _ _ _ _ P1).
  - intros key p o Hin. pose proof (Hown1 _ Hin) as Heq. simpl in Heq.
    subst key. by apply (wk_dup _ _ _ _ _ _ P1 p o).
  - intros key p Hin. pose proof (Hown1 _ Hin) as Heq. simpl in Heq.
    subst key. by apply (wk_written _ _ _ _ _ _ P1).
  - apply (wk_record_kept _ _ _ _ _ _ P1).
Qed.

Lemma write_loop_spec ntries dd nc lg keys :
  NoDup keys ->
  forall (s s' : St) r,
    for_each keys (write_key ntries dd nc lg) s = (s', r) ->
    exists evs, write_loop_post ntries keys s s' r evs.
Proof.
  induction 1 as [|k rest Hk Hnd IH]; intros s s' r Hrun.
  - simpl in Hrun. unfold ret in Hrun. simplify_eq. exists [].
    split.
    + by rewrite app_nil_r.
    + done.
    + apply same_unwritten_refl.
    + unfold defaulted_on. destruct (output (cfg s')); [|done]. by left.
    + by exists [].
    + intros key. exists (Ok tt). split; [constructor|done].
    + done.
    + done.
    + intros key. by left.
    + intros key p o Hin. by apply elem_of_nil in Hin.
    + intros key p Hin. by apply elem_of_nil in Hin.
    + done.
  - apply for_each_cons_inv in Hrun as [(s1 & Hk1 & Hrest)|(e & Hk1 & ->)].
    + apply write_key_spec in Hk1 as [evs1 P1].
      apply IH in Hrest as [evs2 P2].
      exists (evs1 ++ evs2). by apply write_loop_post_cons_ok with s1.
    + apply write_key_spec in Hk1 as [evs1 P1].
      exists evs1. by apply write_loop_post_cons_raise.
Qed.

Lemma active_keys_NoDup reg (out : gmap string Node) :
  registry_wf reg -> NoDup (active_keys reg out).
Proof. intros Hwf. unfold active_keys. by apply NoDup_filter. Qed.

Lemma WriteExtraOutputs_no_output reg lg (s : St) :
  output (cfg s) = None ->
  WriteExtraOutputs reg lg s =
  ({| cfg := set_index_key "file_num" (cfg s); world := world s;
      trace := trace s |}, Ok tt).
Proof.
  intros Hout. unfold WriteExtraOutputs, bind, modify_cfg, get_cfg. simpl.
  by rewrite Hout.
Qed.

Lemma WriteExtraOutputs_loop reg lg (s : St) out :
  output (cfg s) = Some out ->
  let c := set_index_key "file_num" (cfg s) in
  WriteExtraOutputs reg lg s =
  for_each (active_keys reg out)
    (write_key (write_ntries out c) (write_default_dir out c)
       (write_noclobber out c) lg) (write_start s).
Proof.
  intros Hout. unfold WriteExtraOutputs, write_start, bind, modify_cfg, get_cfg.
  simpl. rewrite Hout. unfold when.
  destruct (extra_last_file (cfg s)); simpl; reflexivity.
Qed.

Lemma write_start_last_file (s : St) key :
  last_file (cfg (write_start s)) key = last_file (cfg s) key.
Proof.
  unfold write_start, last_file. simpl. case_bool_decide as Hn; simpl.
  - rewrite Hn. simpl. by rewrite lookup_empty.
  - done.
Qed.

Lemma write_start_unwritten (s : St) :
  same_unwritten (cfg s) (cfg (write_start s)).
Proof.
  unfold write_start. simpl. case_bool_decide; by repeat split.
Qed.

Lemma write_start_output (s : St) :
  output (cfg (write_start s)) = output (cfg s).
Proof. unfold write_start. simpl. by case_bool_decide. Qed.

Lemma write_start_index (s : St) :
  index_key (cfg (write_start s)) = Some "file_num".
Proof. unfold write_start. simpl. by case_bool_decide. Qed.

Lemma WriteExtraOutputs_post reg lg (s : St) out :
  registry_wf reg ->
  output (cfg s) = Some out ->
  let c := set_index_key "file_num" (cfg s) in
  let res := WriteExtraOutputs reg lg s in
  exists evs,
    write_loop_post (write_ntries out c) (active_keys reg out)
      (write_start s) res.1 res.2 evs.
Proof.
  intros Hwf Hout c res. subst res. rewrite (WriteExtraOutputs_loop _ _ _ _ Hout).
  fold c.
  destruct (for_each _ _ _) as [s' r] eqn:Hrun.
  eapply write_loop_spec; [|exact Hrun]. by apply active_keys_NoDup.
Qed.

Lemma write_loop_new_events ntries keys (s0 s s' : St) r evs :
  trace s = trace s0 ->
  write_loop_post ntries keys s s' r evs ->
  new_events s0 s' = evs.
Proof.
  intros Ht P. apply new_events_app. rewrite <- Ht. apply (wl_trace _ _ _ _ _ _ P).
Qed.

(** C9: the per-kind record of the last file written changes only when a
    [writeFile] call on that kind has returned: whatever the outcome of
    [WriteExtraOutputs] (normal return, or an exception out of a hook, of the
    retried write once its attempts are exhausted, or of a lookup), the
    record of a kind either keeps its prior value or holds the path of a
    [writeFile] call that returned during this run.  In particular a kind
    skipped by no-clobber, or whose write raised, keeps its prior value. *)
Theorem C9_record_updated_only_after_write reg logger (s : St) key :
  registry_wf reg ->
  let s' := (WriteExtraOutputs reg logger s).1 in
  let evs := new_events s s' in
  (last_file (cfg s') key = last_file (cfg s) key \/
   exists p, last_file (cfg s') key = Some p /\
             (key, CWriteFile p, Returned None) ∈ hook_events evs) /\
  ((forall p o, (key, CWriteFile p, o) ∈ hook_events evs -> o <> Returned None) ->
   last_file (cfg s') key = last_file (cfg s) key).
Proof.
  intros Hwf s' evs.
  assert (Hmain : last_file (cfg s') key = last_file (cfg s) key \/
    exists p, last_file (cfg s') key = Some p /\
              (key, CWriteFile p, Returned None) ∈ hook_events evs).
  { subst s' evs. destruct (output (cfg s)) as [out|] eqn:Hout.
    - destruct (WriteExtraOutputs_post reg logger s out Hwf Hout) as [evs P].
      cbv zeta in P.
      rewrite (write_loop_new_events _ _ s (write_start s) _ _ _ eq_refl P).
      rewrite <- (write_start_last_file s key).
      apply (wl_record _ _ _ _ _ _ P).
    - rewrite (WriteExtraOutputs_no_output _ _ _ Hout). simpl. by left. }
  split; [exact Hmain|].
  intros Hnone. destruct Hmain as [Heq|(p & _ & Hin)]; [done|].
  by destruct (Hnone _ _ Hin).
Qed.

Lemma WriteExtraOutputs_facts reg lg (s : St) out :
  registry_wf reg ->
  output (cfg s) = Some out ->
  let c := set_index_key "file_num" (cfg s) in
  let res := WriteExtraOutputs reg lg s in
  write_loop_post (write_ntries out c) (active_keys reg out)
    (write_start s) res.1 res.2 (new_events s res.1).
Proof.
  intros Hwf Hout c res.
  destruct (WriteExtraOutputs_post reg lg s out Hwf Hout) as [evs P].
  cbv zeta in P. subst res.
  by rewrite (write_loop_new_events _ _ s (write_start s) _ _ _ eq_refl P).
Qed.

Lemma WriteExtraOutputs_quiet reg lg (s : St) :
  output (cfg s) = None ->
  new_events s (WriteExtraOutputs reg lg s).1 = [].
Proof.
  intros Hout. rewrite (WriteExtraOutputs_no_output _ _ _ Hout). simpl.
  apply new_events_app. simpl. by rewrite app_nil_r.
Qed.

(** C4: duplicate-write suppression.  Once a run of the write phase has
    written the file [p] of a kind ([writeFile] returned), a later run that
    starts from the same record of last files makes no [writeFile] call for
    that kind and that path: with the resolved path unchanged the file is
    written only once. *)
Theorem C4_duplicate_write_suppressed reg logger logger' (s s2 : St) key p :
  registry_wf reg ->
  let s1 := (WriteExtraOutputs reg logger s).1 in
  (key, CWriteFile p, Returned None) ∈ hook_events (new_events s s1) ->
  extra_last_file (cfg s2) = extra_last_file (cfg s1) ->
  let s3 := (WriteExtraOutputs reg logger' s2).1 in
  forall o, (key, CWriteFile p, o) ∉ hook_events (new_events s2 s3).
Proof.
  intros Hwf s1 Hin Hrec s3 o Hin2.
  assert (Hlast : last_file (cfg s1) key = Some p).
  { subst s1. destruct (output (cfg s)) as [out|] eqn:Hout.
    - apply (wl_written _ _ _ _ _ _ (WriteExtraOutputs_facts reg logger s out Hwf Hout)).
      exact Hin.
    - rewrite (WriteExtraOutputs_quiet _ _ _ Hout) in Hin.
      by apply elem_of_nil in Hin. }
  subst s3. destruct (output (cfg s2)) as [out2|] eqn:Hout2.
  - apply (wl_dup _ _ _ _ _ _ (WriteExtraOutputs_facts reg logger' s2 out2 Hwf Hout2))
      in Hin2.
    apply Hin2. rewrite write_start_last_file. unfold last_file in *.
    by rewrite Hrec.
  - rewrite (WriteExtraOutputs_quiet _ _ _ Hout2) in Hin2.
    by apply elem_of_nil in Hin2.
Qed.


Lemma hdu_key_run out key hdus (s s' : St) r :
  hdu_key out key hdus s = (s', r) ->
  cfg s' = cfg s /\
  exists evs, trace s' = trace s ++ evs /\
    hdu_pass key (hook_events evs) /\
    (~ hdu_mode out key -> hook_events evs = []).
Proof.
  intros Hrun. unfold hdu_key in Hrun.
  assert (Hquiet : s' = s -> cfg s' = cfg s /\
    exists evs, trace s' = trace s ++ evs /\
      hdu_pass key (hook_events evs) /\
      (~ hdu_mode out key -> hook_events evs = [])).
  { intros ->. split; [done|]. exists []. rewrite app_nil_r.
    split; [done|]. split; [constructor|done]. }
  apply bind_inv in Hrun as [(s1 & field & Hf & Hrun)|(e & Hf & ->)];
    unfold require in Hf; destruct (out !! key) as [field'|] eqn:Ek;
    unfold ret, raise in Hf; simplify_eq.
  2:{ by apply Hquiet. }
  destruct field as [e|d].
  { unfold leaf_field in Hrun.
    destruct (leaf_has_key e _) as [[]|]; unfold raise, ret in Hrun;
      simplify_eq; by apply Hquiet. }
  destruct (d !! "hdu") as [h|] eqn:Eh;
    [|unfold ret in Hrun; simplify_eq; by apply Hquiet].
  assert (Hmode : hdu_mode out key) by (exists d; eauto).
  minv.
  destruct (_ || _); [unfold raise in Hrun; simplify_eq; by apply Hquiet|].
  minv; inv_calls; cfg_eq.
  - split; [done|].
    eexists [EHook key CFinalize _; EHook key CWriteHdu _].
    split; [trace_eq|]. split; [constructor|done].
  - split; [done|].
    eexists [EHook key CFinalize _; EHook key CWriteHdu _].
    split; [trace_eq|]. split; [constructor|done].
  - split; [done|]. eexists [EHook key CFinalize _].
    split; [trace_eq|]. split; [constructor|done].
  - by apply Hquiet.
  - by apply Hquiet.
Qed.

Lemma hdu_pass_own key hs (h : string * Call * Outcome) :
  hdu_pass key hs -> h ∈ hs -> h.1.1 = key.
Proof.
  intros Hp Hin. destruct Hp as [|e|o].
  - by apply elem_of_nil in Hin.
  - apply list_elem_of_singleton in Hin. by subst.
  - apply elem_of_cons in Hin as [->|Hin]; [done|].
    apply list_elem_of_singleton in Hin. by subst.
Qed.

Lemma hdu_loop_spec out keys :
  NoDup keys ->
  forall hdus (s s' : St) r,
    hdu_loop out keys hdus s = (s', r) ->
    exists evs, hdu_loop_post out keys s s' evs.
Proof.
  induction 1 as [|k rest Hk Hnd IH]; intros hdus s s' r Hrun.
  - simpl in Hrun. unfold ret in Hrun. simplify_eq. exists []. split.
    + by rewrite app_nil_r.
    + done.
    + by exists [].
    + intros key. constructor.
    + done.
  - simpl in Hrun.
    apply bind_inv in Hrun as [(s1 & hdus1 & Hk1 & Hrest)|(e & Hk1 & ->)];
      apply hdu_key_run in Hk1 as (Hc1 & evs1 & Ht1 & Hp1 & Hn1).
    + apply IH in Hrest as [evs2 P2].
      assert (Hown1 : forall h, h ∈ hook_events evs1 -> h.1.1 = k).
      { intros h. by apply hdu_pass_own. }
      assert (Hkeys2 : forall h, h ∈ hook_events evs2 -> h.1.1 ∈ rest).
      { intros h Hin. destruct (hl_order _ _ _ _ _ P2) as (ns & _ & Hk').
        apply (elem_of_mjoin_replicate ns). rewrite <- Hk'.
        apply hook_keys_elem. by exists h. }
      assert (Hk2 : hooks_of k evs2 = []).
      { apply hooks_of_other. intros h Hin Heq. apply Hk. rewrite <- Heq.
        by apply Hkeys2. }
      assert (Hother1 : forall key, key <> k -> hooks_of key evs1 = []).
      { intros key Hne. apply hooks_of_other. intros h Hin Heq.
        apply Hne. pose proof (Hown1 h Hin). congruence. }
      exists (evs1 ++ evs2). split.
      * rewrite (hl_trace _ _ _ _ _ P2), Ht1. by rewrite app_assoc.
      * rewrite (hl_cfg _ _ _ _ _ P2). done.
      * destruct (hl_order _ _ _ _ _ P2) as (ns & Hlen & Hk').
        exists (length (hook_events evs1) :: ns). split; [simpl; by rewrite Hlen|].
        rewrite hook_keys_app, Hk'. simpl. f_equal. by apply hook_keys_own.
      * intros key. rewrite hooks_of_app. destruct (decide (key = k)) as [->|Hne].
        -- rewrite Hk2, app_nil_r, hooks_of_own by done. done.
        -- rewrite (Hother1 key Hne). apply (hl_pass _ _ _ _ _ P2).
      * intros key Hnm. rewrite hooks_of_app. destruct (decide (key = k)) as [->|Hne].
        -- rewrite Hk2, app_nil_r, hooks_of_own by done. by apply Hn1.
        -- rewrite (Hother1 key Hne). by apply (hl_no_target _ _ _ _ _ P2).
    + assert (Hown1 : forall h, h ∈ hook_events evs1 -> h.1.1 = k).
      { intros h. by apply hdu_pass_own. }
      assert (Hother1 : forall key, key <> k -> hooks_of key evs1 = []).
      { intros key Hne. apply hooks_of_other. intros h Hin Heq.
        apply Hne. pose proof (Hown1 h Hin). congruence. }
      exists evs1. split.
      * done.
      * done.
      * exists (length (hook_events evs1) :: replicate (length rest) O).
        split; [simpl; by rewrite length_replicate|].
        simpl. rewrite mjoin_replicate_zero, app_nil_r. by apply hook_keys_own.
      * intros key. destruct (decide (key = k)) as [->|Hne].
        -- by rewrite hooks_of_own.
        -- rewrite (Hother1 key Hne). constructor.
      * intros key Hnm. destruct (decide (key = k)) as [->|Hne].
        -- rewrite hooks_of_own by done. by apply Hn1.
        -- by apply Hother1.
Qed.

Lemma hdu_key_no_slot out key hdus (s : St) :
  (exists d, out !! key = Some (Dict d)) ->
  hdu_slot (cfg s) out key = None ->
  hdu_key out key hdus s = (s, Ok hdus).
Proof.
  intros [d Hd] Hs. unfold hdu_slot in Hs. rewrite Hd in Hs.
  unfold hdu_key, bind, require, ret. rewrite Hd.
  by destruct (d !! "hdu").
Qed.

Lemma hdu_key_slot out key hdus (s : St) z :
  hdu_slot (cfg s) out key = Some (key, z) ->
  hdu_hooks_return (cfg s) key ->
  let res := hdu_key out key hdus s in
  cfg res.1 = cfg s /\
  ((0 < z /\ hdus !! z = None /\
    exists a, res.2 = Ok (<[z := a]> hdus) /\
      trace res.1 = trace s ++ [EHook key CFinalize (Returned None);
                                EHook key CWriteHdu (Returned (Some a))]) \/
   (~ (0 < z /\ hdus !! z = None) /\ is_ok res.2 = false)).
Proof.
  intros Hs (eb & b & Heb & Hb & Hhooks). unfold hdu_slot in Hs.
  destruct (out !! key) as [[e|d]|] eqn:Hd; try done.
  destruct (d !! "hdu") as [h|] eqn:Hh; [|done]. simplify_eq.
  cbv zeta. unfold hdu_key, bind, require, ret, get_cfg. rewrite Hd, Hh.
  set (z := ParseValue_int d "hdu" (cfg s)).
  destruct (bool_decide (z <= 0) || bool_decide (is_Some (hdus !! z))) eqn:Ebad.
  - simpl. split; [done|]. right. split; [|done]. intros [Hpos Hfree].
    apply orb_true_iff in Ebad as [Hz|Hz].
    + apply bool_decide_eq_true in Hz. lia.
    + apply bool_decide_eq_true in Hz. rewrite Hfree in Hz. by destruct Hz.
  - apply orb_false_iff in Ebad as [Hz1 Hz2].
    apply bool_decide_eq_false in Hz1. apply bool_decide_eq_false in Hz2.
    unfold get_builder, bind, get_cfg, require, ret. rewrite Heb, Hb.
    unfold call_hook. simpl.
    destruct (Hhooks (Dict d) (cfg s) (world s)) as [Hfin _].
    destruct (finalize (class_of b) b (Dict d) (cfg s) (world s)) as [w1 [[]|e]] eqn:Efin;
      [|done].
    simpl.
    destruct (Hhooks (Dict d) (cfg s) w1) as [_ Hw].
    destruct (writeHdu (class_of b) b (Dict d) (cfg s) w1) as [w2 [a|e]] eqn:Ew;
      [|done].
    simpl. split; [done|]. left. split; [lia|]. split.
    + destruct (hdus !! z) eqn:E; [|done]. destruct Hz2. eauto.
    + exists a. split; [done|]. by rewrite <- app_assoc.
Qed.

Lemma hdu_slots_cons c out key keys :
  hdu_slots c out (key :: keys) =
  match hdu_slot c out key with
  | Some ks => ks :: hdu_slots c out keys
  | None => hdu_slots c out keys
  end.
Proof. reflexivity. Qed.

Lemma hdu_slot_key c out key ks : hdu_slot c out key = Some ks -> ks.1 = key.
Proof.
  unfold hdu_slot. destruct (out !! key) as [[e|d]|]; try done.
  destruct (d !! "hdu"); [|done]. by intros [= <-].
Qed.

Lemma hdu_loop_cons out k rest hdus (s : St) :
  hdu_loop out (k :: rest) hdus s =
  match hdu_key out k hdus s with
  | (s', Ok h) => hdu_loop out rest h s'
  | (s', Raise e) => (s', Raise e)
  end.
Proof. reflexivity. Qed.

(** The slots collected by the loop, when the fields are dicts and the hooks
    of the HDU-mode kinds return: the loop succeeds exactly when every slot
    is positive and free, and then holds the artifact of each kind at its
    slot. *)
Lemma hdu_loop_slots out keys :
  (forall key, key ∈ keys -> exists d, out !! key = Some (Dict d)) ->
  forall hdus (s : St),
    (forall ks, ks ∈ hdu_slots (cfg s) out keys -> hdu_hooks_return (cfg s) ks.1) ->
    let slots := hdu_slots (cfg s) out keys in
    let res := hdu_loop out keys hdus s in
    cfg res.1 = cfg s /\
    exists evs, trace res.1 = trace s ++ evs /\
    match res.2 with
    | Ok hdus' =>
        Forall (fun z => 0 < z /\ hdus !! z = None) slots.*2 /\
        NoDup slots.*2 /\
        (forall z, is_Some (hdus' !! z) <-> is_Some (hdus !! z) \/ z ∈ slots.*2) /\
        (forall z a, hdus !! z = Some a -> hdus' !! z = Some a) /\
        (forall key z, (key, z) ∈ slots ->
           exists a, hdus' !! z = Some a /\
                     (key, CWriteHdu, Returned (Some a)) ∈ hook_events evs)
    | Raise e =>
        ~ (Forall (fun z => 0 < z /\ hdus !! z = None) slots.*2 /\ NoDup slots.*2)
    end.
Proof.
  induction keys as [|k rest IH]; intros Hdict hdus s Hret; cbv zeta.
  - simpl. split; [done|]. exists []. rewrite app_nil_r. split; [done|].
    split; [constructor|]. split; [constructor|]. split.
    + intros z. split; [by left|]. intros [?|Hin]; [done|].
      by apply elem_of_nil in Hin.
    + split; [done|]. intros key z Hin. by apply elem_of_nil in Hin.
  - assert (Hdict' : forall key, key ∈ rest -> exists d, out !! key = Some (Dict d)).
    { intros key Hin. apply Hdict. by right. }
    rewrite hdu_slots_cons in *. rewrite hdu_loop_cons.
    destruct (hdu_slot (cfg s) out k) as [[k' z]|] eqn:Es.
    + pose proof (hdu_slot_key _ _ _ _ Es) as Hk. simpl in Hk. subst k'.
      assert (Hretk : hdu_hooks_return (cfg s) k).
      { apply (Hret (k, z)). left. }
      destruct (hdu_key_slot out k hdus s z Es Hretk) as [Hc Hcase].
      destruct (hdu_key out k hdus s) as [s1 r1] eqn:Ek.
      simpl in Hc, Hcase.
      destruct Hcase as [(Hpos & Hfree & a & -> & Ht)|(Hbad & Hr)].
      * assert (Hret1 : forall ks, ks ∈ hdu_slots (cfg s1) out rest ->
                  hdu_hooks_return (cfg s1) ks.1).
        { rewrite Hc. intros ks Hin. apply Hret. by right. }
        specialize (IH Hdict' (<[z := a]> hdus) s1 Hret1). cbv zeta in IH.
        rewrite Hc in IH.
        destruct IH as (Hc2 & evs2 & Ht2 & IH).
        split; [done|].
        exists ([EHook k CFinalize (Returned None);
                 EHook k CWriteHdu (Returned (Some a))] ++ evs2).
        split; [rewrite Ht2, Ht; by rewrite <- app_assoc|].
        destruct (hdu_loop out rest (<[z:=a]> hdus) s1).2 as [hdus'|e].
        -- destruct IH as (Hall & Hnd & Hdom & Hkeep & Hart).
           assert (Hz : z ∉ (hdu_slots (cfg s) out rest).*2).
           { intros Hin. rewrite Forall_forall in Hall.
             destruct (Hall z Hin) as [_ Hnone].
             by rewrite lookup_insert_eq in Hnone. }
           simpl. split.
           { constructor; [done|]. rewrite Forall_forall in *.
             intros z' Hin. destruct (Hall z' Hin) as [Hp Hn]. split; [done|].
             rewrite lookup_insert_ne in Hn; [done|]. intros ->. by apply Hz. }
           split; [by constructor|]. split.
           { intros z'. rewrite Hdom. rewrite elem_of_cons.
             destruct (decide (z' = z)) as [->|Hne].
             - rewrite lookup_insert_eq. split; [by right; left|by left; eauto].
             - rewrite lookup_insert_ne by done. tauto. }
           split.
           { intros z' a' Hz'. apply Hkeep. rewrite lookup_insert_ne; [done|].
             intros ->. congruence. }
           intros key z' Hin. apply elem_of_cons in Hin as [Heq|Hin].
           ++ simplify_eq. exists a. split.
              ** apply Hkeep. by rewrite lookup_insert_eq.
              ** unfold hook_events. simpl. right. left.
           ++ destruct (Hart key z' Hin) as (a' & Ha' & Hev).
              exists a'. split; [done|].
              unfold hook_events. simpl. right. right. exact Hev.
        -- simpl. intros [Hall Hnd]. apply IH.
           apply Forall_cons in Hall as [_ Hall].
           apply NoDup_cons in Hnd as [Hz Hnd]. split; [|done].
           rewrite Forall_forall in *. intros z' Hin.
           destruct (Hall z' Hin) as [Hp Hn]. split; [done|].
           rewrite lookup_insert_ne; [done|]. intros ->. by apply Hz.
      * destruct r1 as [h1|e1]; [done|]. simpl. split; [done|].
        apply hdu_key_run in Ek as (_ & evs & Ht & _).
        exists evs. split; [done|]. intros [Hall _].
        apply Forall_cons in Hall as [Hz _]. by apply Hbad.
    + rewrite hdu_key_no_slot; [|apply Hdict; left|done].
      apply (IH Hdict' hdus s). intros ks Hin. by apply Hret.
Qed.

Lemma run_check first (zs : list Z) :
  NoDup zs ->
  (forall h, h ∈ seqZ first (Z.of_nat (length zs)) -> h ∈ zs) <->
  Forall (fun z => first <= z < first + Z.of_nat (length zs)) zs.
Proof.
  intros Hnd. set (n := Z.of_nat (length zs)).
  assert (Hlen : length (seqZ first n) = length zs).
  { rewrite length_seqZ. subst n. lia. }
  split.
  - intros Hsub. apply Forall_forall. intros z Hz.
    assert (Hperm : seqZ first n ≡ₚ zs).
    { apply submseteq_length_Permutation; [|lia].
      apply NoDup_submseteq; [apply NoDup_seqZ|done]. }
    rewrite <- Hperm in Hz. apply elem_of_seqZ in Hz. lia.
  - intros Hall h Hh. rewrite Forall_forall in Hall.
    assert (Hperm : zs ≡ₚ seqZ first n).
    { apply submseteq_length_Permutation; [|lia].
      apply NoDup_submseteq; [done|]. intros z Hz.
      apply elem_of_seqZ. specialize (Hall z Hz). lia. }
    by rewrite Hperm.
Qed.

Lemma size_slots (hdus : gmap Z Artifact) (zs : list Z) :
  NoDup zs ->
  (forall z, is_Some (hdus !! z) <-> z ∈ zs) ->
  size hdus = length zs.
Proof.
  intros Hnd Hdom.
  rewrite <- (size_dom (D := gset Z)).
  rewrite <- (size_list_to_set (C := gset Z) zs) by done.
  f_equal. apply set_eq. intros z.
  rewrite elem_of_dom, elem_of_list_to_set. apply Hdom.
Qed.

Lemma hdu_list_spec first (hdus : gmap Z Artifact) (zs : list Z) (s : St) :
  NoDup zs ->
  (forall z, is_Some (hdus !! z) <-> z ∈ zs) ->
  (contiguous_run first zs ->
   exists l, hdu_list first hdus s = (s, Ok l) /\ length l = length zs /\
     forall z, z ∈ zs -> l !! Z.to_nat (z - first) = hdus !! z) /\
  (~ contiguous_run first zs -> hdu_list first hdus s = (s, Raise ValueError)).
Proof.
  intros Hnd Hdom. pose proof (size_slots hdus zs Hnd Hdom) as Hsize.
  assert (Hrange : hdu_range first hdus = seqZ first (Z.of_nat (length zs))).
  { unfold hdu_range, py_range. rewrite Hsize. f_equal. lia. }
  unfold hdu_list. rewrite Hrange.
  assert (Hcheck :
    forallb (fun h => bool_decide (is_Some (hdus !! h)))
      (seqZ first (Z.of_nat (length zs))) = true <-> contiguous_run first zs).
  { rewrite forallb_forall. unfold contiguous_run.
    rewrite <- (run_check first zs Hnd). split.
    - intros Hall. split; [done|]. intros h Hh. apply Hdom.
      apply list_elem_of_In in Hh. specialize (Hall h Hh).
      by apply bool_decide_eq_true in Hall.
    - intros [_ Hall] h Hh. apply bool_decide_eq_true. apply Hdom, Hall.
      by apply list_elem_of_In. }
  split.
  - intros Hrun. rewrite (proj2 Hcheck Hrun).
    destruct (mapM (fun k => hdus !! k) (seqZ first (Z.of_nat (length zs))))
      as [l|] eqn:Em.
    + exists l. split; [done|].
      pose proof (length_mapM _ _ _ Em) as Hl. rewrite length_seqZ in Hl.
      split; [lia|]. intros z Hz.
      apply mapM_Some in Em.
      destruct Hrun as [_ Hall]. rewrite Forall_forall in Hall.
      specialize (Hall z Hz).
      assert (Hi : seqZ first (Z.of_nat (length zs)) !! Z.to_nat (z - first) = Some z).
      { apply lookup_seqZ. lia. }
      destruct (Forall2_lookup_l _ _ _ _ _ Em Hi) as (a & Ha & Hz').
      by rewrite Ha, Hz'.
    + exfalso. assert (Hs : is_Some (mapM (fun k => hdus !! k)
                 (seqZ first (Z.of_nat (length zs))))).
      { apply mapM_is_Some. apply Forall_forall. intros h Hh. simpl.
        apply Hdom. destruct Hrun as [_ Hall].
        by apply (proj2 (run_check first zs Hnd) Hall). }
      rewrite Em in Hs. by destruct Hs.
  - intros Hrun.
    destruct (forallb _ _) eqn:E; [|done].
    destruct Hrun. by apply Hcheck.
Qed.

Lemma BuildExtraOutputHDUs_no_output reg first (s : St) :
  output (cfg s) = None ->
  BuildExtraOutputHDUs reg first s =
  ({| cfg := set_index_key "file_num" (cfg s); world := world s;
      trace := trace s |}, Ok []).
Proof.
  intros Hout. unfold BuildExtraOutputHDUs, bind, modify_cfg, get_cfg. simpl.
  by rewrite Hout.
Qed.

Lemma BuildExtraOutputHDUs_loop reg first (s : St) out :
  output (cfg s) = Some out ->
  BuildExtraOutputHDUs reg first s =
  bind (hdu_loop out (active_keys reg out) ∅) (hdu_list first)
    {| cfg := set_index_key "file_num" (cfg s); world := world s;
       trace := trace s |}.
Proof.
  intros Hout. unfold BuildExtraOutputHDUs, modify_cfg, get_cfg.
  unfold bind at 1 2. simpl. by rewrite Hout.
Qed.

Lemma hdu_list_state first hdus (s s' : St) r :
  hdu_list first hdus s = (s', r) -> s' = s.
Proof.
  unfold hdu_list. destruct (forallb _ _); [destruct (mapM _ _)|];
    unfold ret, raise; by intros [= <- _].
Qed.

(** C2, as the code has it: [BuildExtraOutputHDUs] raises exactly when some
    configured slot of an active HDU-mode kind is zero or negative, or when
    the slots fail to form a duplicate-free run of consecutive numbers
    starting at [first]; otherwise it returns the artifacts in ascending slot
    order, the artifact of slot [z] at position [z - first].  The fields of
    the active kinds are dicts and the [finalize] and [writeHdu] hooks of the
    HDU-mode kinds return. *)
Theorem C2_hdu_slots_validated reg first (s : St) out :
  output (cfg s) = Some out ->
  let c := set_index_key "file_num" (cfg s) in
  let keys := active_keys reg out in
  let slots := hdu_slots c out keys in
  (forall key, key ∈ keys -> exists d, out !! key = Some (Dict d)) ->
  (forall ks, ks ∈ slots -> hdu_hooks_return c ks.1) ->
  let res := BuildExtraOutputHDUs reg first s in
  (is_ok res.2 = false <->
   ~ (Forall (fun z => 0 < z) slots.*2 /\ contiguous_run first slots.*2)) /\
  (forall hdulist, res.2 = Ok hdulist ->
     length hdulist = length slots /\
     forall key z, (key, z) ∈ slots ->
       exists a, hdulist !! Z.to_nat (z - first) = Some a /\
                 (key, CWriteHdu, Returned (Some a))
                   ∈ hook_events (new_events s res.1)).
Proof.
  intros Hout c keys slots Hdict Hret res. subst res.
  rewrite (BuildExtraOutputHDUs_loop _ _ _ _ Hout). fold c keys.
  set (s0 := {| cfg := c; world := world s; trace := trace s |}).
  pose proof (hdu_loop_slots out keys Hdict ∅ s0 Hret) as Hloop.
  cbv zeta in Hloop. change (cfg s0) with c in Hloop. fold slots in Hloop.
  unfold bind. destruct (hdu_loop out keys ∅ s0) as [s1 [hdus|e]] eqn:Eloop;
    simpl in Hloop; destruct Hloop as (Hc & evs & Ht & Hloop).
  - destruct Hloop as (Hall & Hnd & Hdom & _ & Hart).
    assert (Hdom' : forall z, is_Some (hdus !! z) <-> z ∈ slots.*2).
    { intros z. rewrite Hdom. rewrite lookup_empty. split; [|by right].
      intros [[? ?]|?]; done. }
    assert (Hpos : Forall (fun z => 0 < z) slots.*2).
    { eapply Forall_impl; [exact Hall|]. by intros z [? _]. }
    destruct (hdu_list_spec first hdus slots.*2 s1 Hnd Hdom') as [Hyes Hno].
    destruct (decide (contiguous_run first slots.*2)) as [Hrun|Hrun].
    + destruct (Hyes Hrun) as (l & -> & Hlen & Hl). simpl. split.
      * split; [done|]. intros Hn. destruct Hn. by split.
      * intros hdulist [= <-]. split; [by rewrite Hlen, length_fmap|].
        intros key z Hin. destruct (Hart key z Hin) as (a & Ha & Hev).
        exists a. split.
        -- rewrite Hl; [done|]. apply list_elem_of_fmap. by exists (key, z).
        -- by rewrite (new_events_app s s1 evs).
    + rewrite (Hno Hrun). simpl. split; [|done].
      split; [|done]. intros _ [_ ?]. done.
  - simpl. split; [|done]. split; [|done]. intros _ [Hpos [Hnd Hrun]].
    apply Hloop. split; [|done].
    eapply Forall_impl; [exact Hpos|]. intros z Hz. split; [done|].
    apply lookup_empty.
Qed.

Lemma BuildExtraOutputHDUs_facts reg first (s : St) out :
  registry_wf reg ->
  output (cfg s) = Some out ->
  let res := BuildExtraOutputHDUs reg first s in
  hdu_loop_post out (active_keys reg out)
    {| cfg := set_index_key "file_num" (cfg s); world := world s;
       trace := trace s |} res.1 (new_events s res.1).
Proof.
  intros Hwf Hout res. subst res.
  rewrite (BuildExtraOutputHDUs_loop _ _ _ _ Hout).
  set (s0 := {| cfg := _; world := _; trace := _ |}).
  unfold bind. destruct (hdu_loop out (active_keys reg out) ∅ s0) as [s1 r1] eqn:El.
  apply hdu_loop_spec in El as [evs P]; [|by apply active_keys_NoDup].
  assert (Hnew : forall s', s' = s1 -> new_events s s' = evs).
  { intros s' ->. apply new_events_app. apply (hl_trace _ _ _ _ _ P). }
  destruct r1 as [hdus|e]; simpl.
  - destruct (hdu_list first hdus s1) as [s2 r2] eqn:Elist.
    apply hdu_list_state in Elist as ->. simpl. by rewrite (Hnew s1).
  - by rewrite (Hnew s1).
Qed.

Lemma BuildExtraOutputHDUs_quiet reg first (s : St) :
  output (cfg s) = None ->
  new_events s (BuildExtraOutputHDUs reg first s).1 = [].
Proof.
  intros Hout. rewrite (BuildExtraOutputHDUs_no_output _ _ _ Hout). simpl.
  apply new_events_app. simpl. by rewrite app_nil_r.
Qed.




(** C10, as the code has it: both write-phase entry points set
    [config['index_key']] to ['file_num'] whatever happens afterwards, also
    when there is no [output] section, in which case nothing else happens.
    Of the assignments that the two functions make themselves,
    [BuildExtraOutputHDUs] has no other; [WriteExtraOutputs] assigns besides
    only [extra_last_file] and, in [output], hands the fields of the active
    kinds that have a [file_name] to [SetDefaultExt], which completes them
    in place.  What a builder hook or the resolver stores in the
    configuration they are given is not covered. *)
Theorem C10_index_key_and_frame reg logger first (s : St) :
  registry_wf reg ->
  let w := WriteExtraOutputs reg logger s in
  let h := BuildExtraOutputHDUs reg first s in
  let s0 := {| cfg := set_index_key "file_num" (cfg s); world := world s;
               trace := trace s |} in
  index_key (cfg w.1) = Some "file_num" /\
  index_key (cfg h.1) = Some "file_num" /\
  (output (cfg s) = None -> w = (s0, Ok tt) /\ h = (s0, Ok [])) /\
  same_unwritten (cfg s) (cfg w.1) /\
  (forall out, output (cfg s) = Some out ->
     defaulted_on (active_keys reg out) (Some out) (output (cfg w.1))) /\
  cfg h.1 = set_index_key "file_num" (cfg s).
Proof.
  intros Hwf w h s0. subst w h.
  destruct (output (cfg s)) as [out|] eqn:Hout.
  - pose proof (WriteExtraOutputs_facts reg logger s out Hwf Hout) as PW.
    pose proof (BuildExtraOutputHDUs_facts reg first s out Hwf Hout) as PH.
    cbv zeta in PW, PH.
    split. { rewrite (wl_index _ _ _ _ _ _ PW). apply write_start_index. }
    split. { by rewrite (hl_cfg _ _ _ _ _ PH). }
    split; [done|].
    split. { eapply same_unwritten_trans; [apply write_start_unwritten|].
             apply (wl_unwritten _ _ _ _ _ _ PW). }
    split. { intros out' [= <-]. pose proof (wl_output _ _ _ _ _ _ PW) as Ho.
             by rewrite write_start_output, Hout in Ho. }
    apply (hl_cfg _ _ _ _ _ PH).
  - rewrite (WriteExtraOutputs_no_output _ _ _ Hout).
    rewrite (BuildExtraOutputHDUs_no_output _ _ _ Hout). simpl.
    repeat split; done.
Qed.

(** A loop whose every pass makes one hook call on its kind, unless it
    raises before: the kinds called are a prefix of the keys, all of them when
    the loop returns, and every event satisfies what each pass guarantees. *)
Lemma for_each_one_hook (body : string -> M unit) (Q : Event -> Prop) :
  (forall key (s s' : St) r, body key s = (s', r) ->
     exists evs, trace s' = trace s ++ evs /\ Forall Q evs /\
       ((r = Ok tt /\ hook_keys evs = [key]) \/
        (is_ok r = false /\ (hook_keys evs = [] \/ hook_keys evs = [key])))) ->
  forall keys (s s' : St) r,
    for_each keys body s = (s', r) ->
    exists evs, trace s' = trace s ++ evs /\ Forall Q evs /\
      hook_keys evs `prefix_of` keys /\
      (r = Ok tt -> hook_keys evs = keys).
Proof.
  intros Hbody keys. induction keys as [|k rest IH]; intros s s' r Hrun.
  - simpl in Hrun. unfold ret in Hrun. simplify_eq. exists [].
    rewrite app_nil_r. split; [done|]. split; [constructor|].
    split; [apply prefix_nil|done].
  - apply for_each_cons_inv in Hrun as [(s1 & Hk & Hrest)|(e & Hk & ->)].
    + apply Hbody in Hk as (evs1 & Ht1 & HQ1 & [[_ Hk1]|[Hbad _]]); [|done].
      apply IH in Hrest as (evs2 & Ht2 & HQ2 & Hpre & Hall).
      exists (evs1 ++ evs2). split; [rewrite Ht2, Ht1; by rewrite app_assoc|].
      split; [by apply Forall_app|]. rewrite hook_keys_app, Hk1. split.
      * by apply prefix_cons.
      * intros Hr. simpl. by rewrite (Hall Hr).
    + apply Hbody in Hk as (evs1 & Ht1 & HQ1 & [[? _]|[_ Hk1]]); [done|].
      exists evs1. split; [done|]. split; [done|]. split; [|done].
      destruct Hk1 as [->| ->]; [apply prefix_nil|].
      apply prefix_cons, prefix_nil.
Qed.

Lemma per_image_body (c : Call)
    (hook : BuilderId -> Node -> Config -> World -> World * result unit)
    key (s s' : St) r :
  bind (get_builder key) (fun builder =>
    bind (get_field key) (fun field =>
      call_hook key c no_value (hook builder field))) s = (s', r) ->
  exists evs, trace s' = trace s ++ evs /\
    Forall (fun ev => exists k o, ev = EHook k c o) evs /\
    ((r = Ok tt /\ hook_keys evs = [key]) \/
     (is_ok r = false /\ (hook_keys evs = [] \/ hook_keys evs = [key]))).
Proof.
  intros Hrun. minv; inv_calls.
  - eexists [_]. split; [done|]. split; [repeat constructor; eauto|].
    destruct r as [[]|e]; [left|right]; split; try done. by right.
  - exists []. rewrite app_nil_r. split; [done|]. split; [constructor|].
    right. split; [done|by left].
  - exists []. rewrite app_nil_r. split; [done|]. split; [constructor|].
    right. split; [done|by left].
  - exists []. rewrite app_nil_r. split; [done|]. split; [constructor|].
    right. split; [done|by left].
  - exists []. rewrite app_nil_r. split; [done|]. split; [constructor|].
    right. split; [done|by left].
Qed.

Lemma keys_in_order_run reg (f : M unit) (s : St) out :
  output (cfg s) = Some out ->
  (forall s' r, f s = (s', r) ->
     exists evs, trace s' = trace s ++ evs /\
       hook_keys evs `prefix_of` active_keys reg out /\
       (r = Ok tt -> hook_keys evs = active_keys reg out)) ->
  hook_keys (new_events s (f s).1) `prefix_of` active_keys reg out /\
  ((f s).2 = Ok tt -> hook_keys (new_events s (f s).1) = active_keys reg out).
Proof.
  intros Hout Hf. destruct (f s) as [s' r] eqn:E.
  destruct (Hf s' r eq_refl) as (evs & Ht & Hpre & Hall). simpl.
  by rewrite (new_events_app s s' evs).
Qed.

Lemma SetupExtraOutputsForImage_keys reg (s : St) out :
  output (cfg s) = Some out ->
  forall s' r, SetupExtraOutputsForImage reg s = (s', r) ->
    exists evs, trace s' = trace s ++ evs /\
      hook_keys evs `prefix_of` active_keys reg out /\
      (r = Ok tt -> hook_keys evs = active_keys reg out).
Proof.
  intros Hout s' r Hrun. unfold SetupExtraOutputsForImage in Hrun.
  apply bind_inv in Hrun as [(s1 & c & Hc & Hrun)|(e & Hc & _)];
    unfold get_cfg in Hc; simplify_eq.
  rewrite Hout in Hrun.
  eapply for_each_one_hook in Hrun as (evs & Ht & _ & Hpre & Hall).
  - by exists evs.
  - intros key s2 s2' r2 Hb.
    apply (per_image_body CSetupImage
             (fun b fld => setupImage (class_of b) b fld)) in Hb. exact Hb.
Qed.

Lemma ProcessExtraOutputsForStamp_keys reg (s : St) out :
  output (cfg s) = Some out ->
  forall s' r, ProcessExtraOutputsForStamp reg s = (s', r) ->
    exists evs, trace s' = trace s ++ evs /\
      hook_keys evs `prefix_of` active_keys reg out /\
      (r = Ok tt -> hook_keys evs = active_keys reg out).
Proof.
  intros Hout s' r Hrun. unfold ProcessExtraOutputsForStamp in Hrun.
  apply bind_inv in Hrun as [(s1 & c & Hc & Hrun)|(e & Hc & _)];
    unfold get_cfg in Hc; simplify_eq.
  rewrite Hout in Hrun.
  apply bind_inv in Hrun as [(s1' & n & Hn & Hrun)|(e & Hn & ->)];
    unfold require in Hn; destruct (obj_num (cfg _)) as [n'|];
    unfold ret, raise in Hn; simplify_eq.
  - eapply for_each_one_hook in Hrun as (evs & Ht & _ & Hpre & Hall).
    + by exists evs.
    + intros key s2 s2' r2 Hb.
      apply (per_image_body (CProcessStamp n)
               (fun b fld => processStamp (class_of b) b n fld)) in Hb. exact Hb.
  - exists []. rewrite app_nil_r. split; [done|]. split; [apply prefix_nil|done].
Qed.

Lemma add_counts_run counts (s : St) :
  forall (n : nat) (i : nat) start,
    (i + n <= length counts)%nat ->
    add_counts counts (seqZ (Z.of_nat i) (Z.of_nat n)) start s =
    (s, Ok (start + sum_counts (take n (drop i counts)))).
Proof.
  induction n as [|n IH]; intros i start Hlen.
  - simpl. unfold ret. f_equal. f_equal. unfold sum_counts. simpl. lia.
  - rewrite seqZ_cons by lia.
    replace (Z.pred (Z.of_nat (S n))) with (Z.of_nat n) by lia.
    replace (Z.succ (Z.of_nat i)) with (Z.of_nat (S i)) by lia.
    simpl add_counts.
    assert (Hi : exists x, counts !! i = Some x).
    { apply lookup_lt_is_Some. lia. }
    destruct Hi as [x Hx].
    assert (Hpy : py_index counts (Z.of_nat i) = Some x).
    { unfold py_index. rewrite bool_decide_eq_true_2 by lia.
      by rewrite Nat2Z.id. }
    rewrite Hpy. rewrite IH by lia. f_equal. f_equal.
    rewrite (drop_S _ _ _ Hx). simpl. unfold sum_counts. simpl. lia.
Qed.

Lemma add_counts_state counts idx start (s s' : St) r :
  add_counts counts idx start s = (s', r) -> s' = s.
Proof.
  revert start. induction idx as [|i idx IH]; intros start; simpl.
  - unfold ret. by intros [= <- _].
  - destruct (py_index counts i); [apply IH|]. unfold raise. by intros [= <- _].
Qed.

Lemma image_obj_nums_state (s s' : St) r :
  image_obj_nums s = (s', r) -> s' = s.
Proof.
  unfold image_obj_nums. intros Hrun.
  minv;
    repeat match goal with
    | Ha : add_counts _ _ _ _ = _ |- _ => apply add_counts_state in Ha
    end; subst; try done.
  destruct (py_index _ _); unfold ret, raise in Hrun; by simplify_eq.
Qed.

Lemma image_loop_spec keys :
  forall on (s s' : St) r,
    image_loop keys on s = (s', r) ->
    exists evs, trace s' = trace s ++ evs /\
      Forall (image_call_ok on s) evs /\
      hook_keys evs `prefix_of` keys /\
      (r = Ok tt -> hook_keys evs = keys).
Proof.
  induction keys as [|k rest IH]; intros on s s' r Hrun.
  - simpl in Hrun. unfold ret in Hrun. simplify_eq. exists [].
    rewrite app_nil_r. split; [done|]. split; [constructor|].
    split; [apply prefix_nil|done].
  - simpl in Hrun.
    assert (Hquiet : s' = s -> r <> Ok tt ->
      exists evs, trace s' = trace s ++ evs /\
        Forall (image_call_ok on s) evs /\
        hook_keys evs `prefix_of` k :: rest /\
        (r = Ok tt -> hook_keys evs = k :: rest)).
    { intros -> Hr. exists []. rewrite app_nil_r. split; [done|].
      split; [constructor|]. split; [apply prefix_nil|done]. }
    apply bind_inv in Hrun as [(s1 & objs & Hobj & Hrun)|(e & Hobj & ->)].
    2:{ destruct on as [l|].
        - unfold ret in Hobj. simplify_eq.
        - apply image_obj_nums_state in Hobj as ->. by apply Hquiet. }
    assert (Hs1 : s1 = s).
    { destruct on as [l|].
      - unfold ret in Hobj. by simplify_eq.
      - by apply image_obj_nums_state in Hobj. }
    subst s1.
    assert (Hon : on = Some objs \/ (on = None /\ image_obj_nums s = (s, Ok objs))).
    { destruct on as [l|]; [left|by right]. unfold ret in Hobj. by simplify_eq. }
    clear Hobj.
    minv; try (by apply Hquiet); inv_calls.
    + match goal with
      | Hc : cfg ?y = cfg ?x, Hl : image_loop _ _ ?y = _ |- _ =>
          apply (IH (Some objs) y s' r) in Hl as (evs2 & Ht2 & HQ2 & Hpre & Hall);
          assert (HQ2' : Forall (image_call_ok on x) evs2)
      end.
      { eapply Forall_impl; [exact HQ2|].
        intros ev (k' & o & img & img0 & objs' & -> & Hi & Hi0 & Hobjs).
        exists k', o, img, img0, objs'. split; [|split; [congruence|split; [congruence|]]].
        - done.
        - destruct Hobjs as [[= <-]|[? _]]; done. }
      eexists ([_] ++ evs2). split; [trace_eq|].
      split.
      { constructor; [|done]. eexists _, _, _, _, objs. eauto. }
      rewrite hook_keys_app. split.
      * by apply prefix_cons.
      * intros Hr. simpl. by rewrite (Hall Hr).
    + eexists [_]. split; [trace_eq|].
      split.
      { constructor; [|done]. eexists _, _, _, _, objs. eauto. }
      split; [|done]. apply prefix_cons, prefix_nil.
Qed.

Lemma setup_key_run reg um logger key (s s' : St) r :
  setup_key reg um logger key s = (s', r) ->
  exists evs, trace s' = trace s ++ evs /\ Forall (setup_call_ok um) evs /\
    ((r = Ok tt /\ hook_keys evs = [key]) \/
     (is_ok r = false /\ (hook_keys evs = [] \/ hook_keys evs = [key]))).
Proof.
  assert (Hlog : forall lvl k, setup_call_ok um (ELog lvl k)).
  { intros lvl k k' c o Heq. discriminate. }
  assert (Hinit : forall n o,
    setup_call_ok um (EHook key (CInitialize (new_data um n) (new_scratch um)) o)).
  { intros n o k c o' [= <- <- <-]. exists (new_data um n), (new_scratch um).
    split; [done|]. split; [by destruct um|]. split; [by destruct um|].
    split; [|done]. simpl. apply Forall_fmap. by apply Forall_true. }
  intros Hrun. unfold setup_key, log, when in Hrun.
  destruct logger; minv; inv_calls.
  - eexists [_; _; _]. split; [trace_eq|].
    split; [repeat constructor; auto|]. left. split; [|done].
    match goal with |- Ok ?u = Ok tt => by destruct u end.
  - eexists [_; _]. split; [trace_eq|].
    split; [repeat constructor; auto|]. right. split; [done|by right].
  - eexists [_; _]. split; [trace_eq|].
    split; [repeat constructor; auto|]. right. split; [done|by right].
  - eexists [_]. split; [trace_eq|].
    split; [repeat constructor; auto|]. right. split; [done|by left].
  - eexists [_]. split; [trace_eq|].
    split; [repeat constructor; auto|]. right. split; [done|by left].
  - eexists [_]. split; [trace_eq|].
    split; [repeat constructor; auto|]. right. split; [done|by left].
  - eexists [_]. split; [trace_eq|].
    split; [repeat constructor; auto|]. right. split; [done|by left].
  - eexists [_]. split; [trace_eq|].
    split; [repeat constructor; auto|]. left. split; [|done].
    match goal with |- Ok ?u = Ok tt => by destruct u end.
  - eexists [_]. split; [trace_eq|].
    split; [repeat constructor; auto|]. right. split; [done|by right].
  - eexists [_]. split; [trace_eq|].
    split; [repeat constructor; auto|]. right. split; [done|by right].
  - exists []. rewrite app_nil_r. split; [done|]. split; [constructor|].
    right. split; [done|by left].
  - exists []. rewrite app_nil_r. split; [done|]. split; [constructor|].
    right. split; [done|by left].
  - exists []. rewrite app_nil_r. split; [done|]. split; [constructor|].
    right. split; [done|by left].
  - exists []. rewrite app_nil_r. split; [done|]. split; [constructor|].
    right. split; [done|by left].
Qed.

Lemma SetupExtraOutput_run reg logger (s : St) out :
  output (cfg s) = Some out ->
  forall s' r, SetupExtraOutput reg logger s = (s', r) ->
    exists evs, trace s' = trace s ++ evs /\
      Forall (setup_call_ok (use_manager (cfg s))) evs /\
      hook_keys evs `prefix_of` active_keys reg out /\
      (r = Ok tt -> hook_keys evs = active_keys reg out).
Proof.
  intros Hout s' r Hrun. unfold SetupExtraOutput in Hrun.
  apply bind_inv in Hrun as [(s1 & c & Hc & Hrun)|(e & Hc & _)];
    unfold get_cfg in Hc; simplify_eq.
  rewrite Hout in Hrun. unfold when in Hrun.
  assert (Hloop : forall s2, trace s2 = trace s1 ->
    for_each (active_keys reg out)
      (setup_key reg (use_manager (cfg s1)) logger) s2 = (s', r) ->
    exists evs, trace s' = trace s1 ++ evs /\
      Forall (setup_call_ok (use_manager (cfg s1))) evs /\
      hook_keys evs `prefix_of` active_keys reg out /\
      (r = Ok tt -> hook_keys evs = active_keys reg out)).
  { intros s2 Ht2 Hl.
    eapply for_each_one_hook in Hl as (evs & Ht & HQ & Hpre & Hall).
    - exists evs. by rewrite <- Ht2.
    - intros key s3 s3' r3. apply setup_key_run. }
  destruct (use_manager (cfg s1) && bool_decide (output_manager (cfg s1) = None));
    destruct (bool_decide (extra_builder (cfg s1) = None)) eqn:Eb;
    minv; simpl in Hrun; rewrite ?Eb in Hrun; minv;
    (eapply Hloop; [|exact Hrun]; done).
Qed.

Lemma ProcessExtraOutputsForImage_keys reg (s : St) out :
  output (cfg s) = Some out ->
  forall s' r, ProcessExtraOutputsForImage reg s = (s', r) ->
    exists evs, trace s' = trace s ++ evs /\
      hook_keys evs `prefix_of` active_keys reg out /\
      (r = Ok tt -> hook_keys evs = active_keys reg out).
Proof.
  intros Hout s' r Hrun. unfold ProcessExtraOutputsForImage, bind, get_cfg in Hrun.
  rewrite Hout in Hrun.
  apply image_loop_spec in Hrun as (evs & Ht & _ & Hpre & Hall). by exists evs.
Qed.

Lemma active_keys_insert reg (out : gmap string Node) k v :
  k ∉ (reg.*1) -> active_keys reg (<[k := v]> out) = active_keys reg out.
Proof.
  intros Hk. unfold active_keys.
  induction (reg.*1) as [|x l IH]; [done|].
  apply not_elem_of_cons in Hk as [Hne Hk].
  rewrite !filter_cons, lookup_insert_ne by done.
  destruct (decide (is_Some (out !! x))); by rewrite IH.
Qed.

(** C6: the kinds a lifecycle function works on are the registered names
    that are keys of the [output] dict, in the order of the registry.  The
    functions that call one hook per kind call it on a prefix of the active
    kinds, in order, and on all of them when they return; the two functions of
    the write phase call hooks kind by kind in that same order, a number of
    times that may be zero.  So no hook is ever called for a registered kind
    that is not in [output], and a key of [output] that is not registered
    changes nothing. *)
Theorem C6_active_kinds_in_registry_order reg logger first (s : St) out :
  registry_wf reg ->
  output (cfg s) = Some out ->
  let keys := active_keys reg out in
  let per_kind : list (M unit) :=
    [SetupExtraOutput reg logger; SetupExtraOutputsForImage reg;
     ProcessExtraOutputsForStamp reg; ProcessExtraOutputsForImage reg] in
  let evw := new_events s (WriteExtraOutputs reg logger s).1 in
  let evh := new_events s (BuildExtraOutputHDUs reg first s).1 in
  (forall k, k ∈ keys <-> k ∈ (reg.*1) /\ is_Some (out !! k)) /\
  keys `sublist_of` (reg.*1) /\
  (forall k v, k ∉ (reg.*1) -> active_keys reg (<[k := v]> out) = keys) /\
  Forall (fun f : M unit =>
            hook_keys (new_events s (f s).1) `prefix_of` keys /\
            ((f s).2 = Ok tt -> hook_keys (new_events s (f s).1) = keys))
         per_kind /\
  (exists ns, length ns = length keys /\
              hook_keys evw = mjoin (zip_with replicate ns keys)) /\
  (exists ns, length ns = length keys /\
              hook_keys evh = mjoin (zip_with replicate ns keys)) /\
  (forall k, k ∉ keys ->
     Forall (fun f : M unit => k ∉ hook_keys (new_events s (f s).1)) per_kind /\
     (k ∉ hook_keys evw) /\ (k ∉ hook_keys evh)).
Proof.
  intros Hwf Hout keys per_kind evw evh.
  assert (Hper : Forall (fun f : M unit =>
            hook_keys (new_events s (f s).1) `prefix_of` keys /\
            ((f s).2 = Ok tt -> hook_keys (new_events s (f s).1) = keys))
         per_kind).
  { subst per_kind.
    apply Forall_cons. split.
    { apply (keys_in_order_run reg _ s out Hout). intros s' r Hrun.
      destruct (SetupExtraOutput_run reg logger s out Hout s' r Hrun)
        as (evs & Ht & _ & Hpre & Hall). by exists evs. }
    apply Forall_cons. split.
    { apply (keys_in_order_run reg _ s out Hout).
      by apply SetupExtraOutputsForImage_keys. }
    apply Forall_cons. split.
    { apply (keys_in_order_run reg _ s out Hout).
      by apply ProcessExtraOutputsForStamp_keys. }
    apply Forall_cons. split; [|by constructor].
    apply (keys_in_order_run reg _ s out Hout).
    by apply ProcessExtraOutputsForImage_keys. }
  pose proof (wl_order _ _ _ _ _ _ (WriteExtraOutputs_facts reg logger s out Hwf Hout))
    as Hw.
  pose proof (hl_order _ _ _ _ _ (BuildExtraOutputHDUs_facts reg first s out Hwf Hout))
    as Hh.
  fold keys evw in Hw. fold keys evh in Hh.
  split.
  { intros k. unfold keys, active_keys. rewrite list_elem_of_filter. tauto. }
  split; [apply sublist_filter|].
  split; [intros k v; apply active_keys_insert|].
  split; [exact Hper|]. split; [exact Hw|]. split; [exact Hh|].
  intros k Hk. split; [|split].
  - eapply Forall_impl; [exact Hper|]. intros f [Hpre _] Hin.
    apply Hk. by eapply elem_of_prefix.
  - destruct Hw as (ns & _ & ->). intros Hin. apply Hk.
    by apply (elem_of_mjoin_replicate ns).
  - destruct Hh as (ns & _ & ->). intros Hin. apply Hk.
    by apply (elem_of_mjoin_replicate ns).
Qed.

(** C8: [writeHdu] of the base class raises on every input and never
    returns an artifact.  (What is raised is a TypeError: the code calls
    [NotImplemented], which is not an exception class.) *)
Theorem C8_base_writeHdu_raises set_workspace (self : BuilderId) (field : Node)
    (base : Config) (w : World) :
  writeHdu (ExtraOutputBuilder set_workspace) self field base w
  = (w, Raise TypeError) /\
  forall a, (writeHdu (ExtraOutputBuilder set_workspace) self field base w).2
            <> Ok a.
Proof. split; [reflexivity|]. intros a. simpl. discriminate. Qed.

(** ** The registry *)

Lemma RegisterExtraOutput_keys key builder reg k :
  k ∈ (RegisterExtraOutput key builder reg).*1 <-> k = key \/ k ∈ reg.*1.
Proof.
  induction reg as [|[k0 b0] rest IH]; cbn [RegisterExtraOutput].
  - rewrite fmap_cons, !fmap_nil, list_elem_of_singleton, elem_of_nil. simpl. tauto.
  - case_bool_decide; simplify_eq; rewrite !fmap_cons, !elem_of_cons; simpl.
    + tauto.
    + rewrite IH. tauto.
Qed.

Lemma RegisterExtraOutput_NoDup key builder reg :
  NoDup (reg.*1) -> NoDup ((RegisterExtraOutput key builder reg).*1).
Proof.
  induction reg as [|[k0 b0] rest IH]; cbn [RegisterExtraOutput]; intros Hnd.
  - apply NoDup_singleton.
  - rewrite fmap_cons in Hnd. apply NoDup_cons in Hnd as [Hk0 Hrest].
    case_bool_decide; simplify_eq; rewrite fmap_cons.
    + by apply NoDup_cons.
    + apply NoDup_cons. split; [|by apply IH].
      rewrite RegisterExtraOutput_keys. simpl in *. intros [?|?]; congruence.
Qed.

Lemma RegisterExtraOutput_registered key builder reg :
  key ∈ reg.*1 -> (RegisterExtraOutput key builder reg).*1 = reg.*1.
Proof.
  induction reg as [|[k0 b0] rest IH]; cbn [RegisterExtraOutput]; intros Hin.
  - by apply elem_of_nil in Hin.
  - case_bool_decide; simplify_eq; [done|]. rewrite !fmap_cons.
    rewrite fmap_cons in Hin. apply elem_of_cons in Hin as [?|Hin]; [done|].
    by rewrite IH.
Qed.

Lemma reg_lookup_register key builder reg key' :
  reg_lookup (RegisterExtraOutput key builder reg) key'
  = if bool_decide (key' = key) then Some builder else reg_lookup reg key'.
Proof.
  induction reg as [|[k0 b0] rest IH]; simpl.
  - repeat case_bool_decide; congruence.
  - repeat (case_bool_decide; simpl; simplify_eq); congruence.
Qed.

Lemma reg_lookup_None reg key :
  reg_lookup reg key = None <-> key ∉ reg.*1.
Proof.
  induction reg as [|[k0 b0] rest IH]; cbn [reg_lookup].
  - split; [intros _; apply not_elem_of_nil|done].
  - rewrite fmap_cons, not_elem_of_cons. simpl.
    case_bool_decide; simplify_eq.
    + split; [done|]. by intros [? _].
    + rewrite IH. split; [|tauto]. intros Hn. split; [congruence|done].
Qed.

(** X1: registering a kind and looking it up.  After
    [RegisterExtraOutput(key, builder)] the registry holds [builder] under
    [key], whether or not the name was registered before, and every other
    name holds what it held. *)
Theorem X1_register_then_lookup key builder reg key' :
  reg_lookup (RegisterExtraOutput key builder reg) key'
  = (if bool_decide (key' = key) then Some builder else reg_lookup reg key') /\
  (is_Some (reg_lookup (RegisterExtraOutput key builder reg) key')
   <-> key' = key \/ is_Some (reg_lookup reg key')).
Proof.
  split; [apply reg_lookup_register|].
  rewrite reg_lookup_register. case_bool_decide; [|tauto].
  split; [by left|by eexists].
Qed.

Lemma register_all_snoc l k b :
  register_all (l ++ [(k, b)]) = RegisterExtraOutput k b (register_all l).
Proof. unfold register_all. by rewrite foldl_app. Qed.

(** X2: whatever registrations were made, in whatever order and however often
    a name was registered again, the registry holds every registered name
    exactly once, with the builder of its last registration. *)
Theorem X2_registrations_give_a_dict (l : list (string * BuilderId)) :
  registry_wf (register_all l) /\
  (forall k, k ∈ (register_all l).*1 <-> k ∈ l.*1) /\
  (forall k, reg_lookup (register_all l) k
             = snd <$> last (filter (fun kb => kb.1 = k) l)).
Proof.
  induction l as [|[k b] l IH] using rev_ind.
  - split; [apply NoDup_nil_2|]. split; [done|done].
  - destruct IH as (Hnd & Hkeys & Hlook). rewrite register_all_snoc.
    split; [by apply RegisterExtraOutput_NoDup|]. split.
    + intros k'. rewrite RegisterExtraOutput_keys, Hkeys, fmap_app, elem_of_app.
      simpl. rewrite list_elem_of_singleton. tauto.
    + intros k'. rewrite reg_lookup_register, filter_app, Hlook.
      rewrite filter_cons, filter_nil. simpl.
      case_bool_decide; simplify_eq.
      * rewrite decide_True by done. by rewrite last_snoc.
      * rewrite decide_False by done. by rewrite app_nil_r.
Qed.

(** X3: the active kinds after a registration.  A name is active afterwards
    exactly when it was active before, or it is the registered name and a key
    of [output]; and registering a name again, to replace its builder, leaves
    the active kinds and their order as they were. *)
Theorem X3_registration_and_active_kinds key builder reg
    (out : gmap string Node) :
  (forall k, k ∈ active_keys (RegisterExtraOutput key builder reg) out
             <-> k ∈ active_keys reg out \/ (k = key /\ is_Some (out !! key))) /\
  (key ∈ reg.*1 ->
   active_keys (RegisterExtraOutput key builder reg) out = active_keys reg out).
Proof.
  split.
  - intros k. unfold active_keys.
    rewrite !list_elem_of_filter, RegisterExtraOutput_keys.
    split; [intros [Hs [->|Hin]]; [by right|by left]|].
    intros [[Hs Hin]|[-> Hs]]; (split; [done|]); [by right|by left].
  - intros Hin. unfold active_keys. by rewrite RegisterExtraOutput_registered.
Qed.

(** ** SetupExtraOutput *)

Lemma setup_key_effect reg um logger key eb (s s' : St) r :
  extra_builder (cfg s) = Some eb ->
  setup_key reg um logger key s = (s', r) ->
  exists evs, trace s' = trace s ++ evs /\
    ((exists b n, r = Ok tt /\ nimages (cfg s) = Some n /\
        reg_lookup reg key = Some b /\
        cfg s' = set_extra_builder (<[key := b]> eb) (cfg s) /\
        hook_events evs
        = [(key, CInitialize (new_data um n) (new_scratch um), Returned None)]) \/
     (exists e n, r = Raise e /\ cfg s' = cfg s /\ nimages (cfg s) = Some n /\
        hook_events evs
        = [(key, CInitialize (new_data um n) (new_scratch um), Raised e)]) \/
     (exists k, r = Raise (KeyError k) /\ cfg s' = cfg s /\
        hook_events evs = [] /\ (nimages (cfg s) = None -> k = "nimages"))).
Proof.
  intros Heb Hrun. unfold setup_key, log, when in Hrun.
  destruct logger; minv; inv_calls.
  all: try (exists []; rewrite app_nil_r; split; [done|]; right; right;
            eexists; split; [reflexivity|]; split; [done|]; split; [done|];
            intros; congruence).
  all: cfg_eq; simplify_eq.
  all: eexists; (split; [trace_eq|]); simpl.
  all: first
    [ left; eexists _, _; split; [reflexivity|];
      split; [first [eassumption|reflexivity]|];
      split; [first [eassumption|reflexivity]|]; split; reflexivity
    | right; left; eexists _, _; split; [reflexivity|]; split; [reflexivity|];
      split; [first [eassumption|reflexivity]|]; reflexivity
    | right; right; eexists; split; [reflexivity|]; split; [reflexivity|];
      split; [reflexivity|]; intros; congruence ].
Qed.


Lemma fail_fast_nil {A} (r : result A) : fail_fast [] r.
Proof. left. constructor. Qed.

Lemma fail_fast_app {A} hs1 hs2 (r : result A) :
  Forall returned hs1 -> fail_fast hs2 r -> fail_fast (hs1 ++ hs2) r.
Proof.
  intros H1 [H2|(pre & k & c & e & -> & Hpre & ->)].
  - left. by apply Forall_app.
  - right. exists (hs1 ++ pre), k, c, e. rewrite app_assoc.
    split; [done|]. split; [by apply Forall_app|done].
Qed.

Lemma fail_fast_ok {A} hs (a : A) : fail_fast hs (Ok a) -> Forall returned hs.
Proof. by intros [?|(? & ? & ? & ? & _ & _ & ?)]. Qed.

Lemma fail_fast_raised {A} k c e (r : result A) :
  r = Raise e -> fail_fast [(k, c, Raised e)] r.
Proof. intros ->. right. exists [], k, c, e. by split; [|split; [constructor|]]. Qed.

Lemma same_unset_refl (c : Config) : same_unset c c.
Proof. by repeat split. Qed.

Lemma same_unset_trans (c1 c2 c3 : Config) :
  same_unset c1 c2 -> same_unset c2 c3 -> same_unset c1 c3.
Proof.
  unfold same_unset. intros H12 H23. destruct_and!.
  repeat split; congruence.
Qed.

Lemma setup_loop_spec reg um logger keys :
  forall eb (s s' : St) r,
    extra_builder (cfg s) = Some eb ->
    for_each keys (setup_key reg um logger) s = (s', r) ->
    exists evs eb', trace s' = trace s ++ evs /\
      same_unset (cfg s) (cfg s') /\
      output_manager (cfg s') = output_manager (cfg s) /\
      extra_builder (cfg s') = Some eb' /\
      (forall key, eb' !! key = eb !! key \/
         (key ∈ keys /\ is_Some (eb' !! key) /\
          eb' !! key = reg_lookup reg key)) /\
      (r = Ok tt -> forall key, key ∈ keys ->
         is_Some (eb' !! key) /\ eb' !! key = reg_lookup reg key) /\
      fail_fast (hook_events evs) r /\
      (forall h, h ∈ hook_events evs ->
         exists n, nimages (cfg s) = Some n /\
           h.1.2 = CInitialize (new_data um n) (new_scratch um)) /\
      (nimages (cfg s) = None -> keys <> [] ->
         r = Raise (KeyError "nimages") /\ hook_events evs = []).
Proof.
  induction keys as [|k rest IH]; intros eb s s' r Heb Hrun.
  - simpl in Hrun. unfold ret in Hrun. simplify_eq. exists [], eb.
    rewrite app_nil_r. split; [done|]. split; [apply same_unset_refl|].
    split; [done|]. split; [done|]. split; [by left|].
    split; [by intros _ key Hin%elem_of_nil|]. split; [apply fail_fast_nil|].
    split; [by intros h Hin%elem_of_nil|done].
  - apply for_each_cons_inv in Hrun as [(s1 & Hk & Hrest)|(e & Hk & ->)].
    + apply (setup_key_effect _ _ _ _ eb _ _ _ Heb) in Hk
        as (evs1 & Ht1 & [(b & n & _ & Hn & Hb & Hc & Hev)|
                          [(e & n & ? & _)|(k' & ? & _)]]); [|done..].
      assert (Heb1 : extra_builder (cfg s1) = Some (<[k := b]> eb))
        by (by rewrite Hc).
      apply (IH _ _ _ _ Heb1) in Hrest
        as (evs2 & eb' & Ht2 & Hun & Hom & Heb' & Hmap & Hok & Hff & Hargs & _).
      exists (evs1 ++ evs2), eb'.
      split; [rewrite Ht2, Ht1; by rewrite app_assoc|].
      split.
      { eapply same_unset_trans; [|exact Hun]. rewrite Hc. by repeat split. }
      split; [rewrite Hom, Hc; done|]. split; [done|].
      split.
      { intros key. destruct (Hmap key) as [Hsame|(Hin & Hs & Hl)].
        - destruct (decide (key = k)) as [->|Hne].
          + right. rewrite Hsame, lookup_insert_eq.
            split; [apply elem_of_cons; by left|]. split; [by eexists|done].
          + left. by rewrite Hsame, lookup_insert_ne.
        - right. split; [apply elem_of_cons; by right|done]. }
      split.
      { intros Hr key [->|Hin]%elem_of_cons; [|by apply Hok].
        destruct (Hmap k) as [Hsame|(_ & Hs & Hl)]; [|done].
        rewrite Hsame, lookup_insert_eq. split; [by eexists|done]. }
      rewrite hook_events_app, Hev. split.
      { apply fail_fast_app; [|done]. repeat constructor. by eexists. }
      split; [|congruence].
      intros h [->%list_elem_of_singleton|Hin]%elem_of_app.
      * exists n. done.
      * destruct (Hargs h Hin) as (n' & Hn' & Hh). exists n'.
        split; [|done]. rewrite Hc in Hn'. exact Hn'.
    + apply (setup_key_effect _ _ _ _ eb _ _ _ Heb) in Hk
        as (evs1 & Ht1 & [(b & n & ? & _)|
                          [(e' & n & ? & Hc & Hn & Hev)|
                           (k' & ? & Hc & Hev & Hnone)]]); [done|..]; simplify_eq.
      * exists evs1, eb. split; [done|]. rewrite Hc.
        split; [apply same_unset_refl|]. split; [done|]. split; [done|].
        split; [by left|]. split; [done|]. rewrite Hev.
        split; [by apply fail_fast_raised|]. split; [|congruence].
        intros h ->%list_elem_of_singleton. by exists n.
      * exists evs1, eb. split; [done|]. rewrite Hc.
        split; [apply same_unset_refl|]. split; [done|]. split; [done|].
        split; [by left|]. split; [done|]. rewrite Hev.
        split; [apply fail_fast_nil|]. split; [by intros h Hin%elem_of_nil|].
        intros Hn _. by rewrite (Hnone Hn).
Qed.

Lemma SetupExtraOutput_loop reg logger (s : St) out :
  output (cfg s) = Some out ->
  SetupExtraOutput reg logger s =
  for_each (active_keys reg out) (setup_key reg (use_manager (cfg s)) logger)
    (setup_start s).
Proof.
  intros Hout.
  unfold SetupExtraOutput, setup_start, bind, get_cfg, when, modify_cfg, ret.
  rewrite Hout. destruct s as [c w t]. simpl.
  destruct (use_manager c && bool_decide (output_manager c = None));
    destruct (bool_decide (extra_builder c = None)); reflexivity.
Qed.

Lemma setup_start_builders (s : St) :
  extra_builder (cfg (setup_start s))
  = Some (default ∅ (extra_builder (cfg s))).
Proof.
  unfold setup_start. simpl.
  destruct (use_manager (cfg s) && bool_decide (output_manager (cfg s) = None));
    case_bool_decide as Heb; simpl; try (by rewrite Heb);
    by destruct (extra_builder (cfg s)).
Qed.

Lemma setup_start_unset (s : St) : same_unset (cfg s) (cfg (setup_start s)).
Proof.
  unfold setup_start. simpl.
  destruct (use_manager (cfg s) && bool_decide (output_manager (cfg s) = None));
    case_bool_decide; by repeat split.
Qed.

Lemma setup_start_manager (s : St) :
  is_Some (output_manager (cfg (setup_start s))) <->
  use_manager (cfg s) = true \/ is_Some (output_manager (cfg s)).
Proof.
  unfold setup_start. simpl.
  destruct (use_manager (cfg s)); simpl.
  - case_bool_decide as Hm; case_bool_decide; simpl;
      (split; [by left|intros _]); try (by eexists);
      by destruct (output_manager (cfg s)).
  - case_bool_decide; simpl; (split; [by right|by intros [?|?]]).
Qed.

Lemma SetupExtraOutput_facts reg logger (s : St) out :
  output (cfg s) = Some out ->
  let res := SetupExtraOutput reg logger s in
  exists eb',
    same_unset (cfg s) (cfg res.1) /\
    (is_Some (output_manager (cfg res.1)) <->
       use_manager (cfg s) = true \/ is_Some (output_manager (cfg s))) /\
    extra_builder (cfg res.1) = Some eb' /\
    (forall key, eb' !! key = default ∅ (extra_builder (cfg s)) !! key \/
       (key ∈ active_keys reg out /\ is_Some (eb' !! key) /\
        eb' !! key = reg_lookup reg key)) /\
    (res.2 = Ok tt -> forall key, key ∈ active_keys reg out ->
       is_Some (eb' !! key) /\ eb' !! key = reg_lookup reg key) /\
    fail_fast (hook_events (new_events s res.1)) res.2 /\
    (forall h, h ∈ hook_events (new_events s res.1) ->
       exists n, nimages (cfg s) = Some n /\
         h.1.2 = CInitialize (new_data (use_manager (cfg s)) n)
                   (new_scratch (use_manager (cfg s)))) /\
    (nimages (cfg s) = None -> active_keys reg out <> [] ->
       res.2 = Raise (KeyError "nimages") /\
       hook_events (new_events s res.1) = []).
Proof.
  intros Hout res. subst res. rewrite (SetupExtraOutput_loop _ _ _ _ Hout).
  destruct (for_each _ _ (setup_start s)) as [s' r] eqn:Hrun.
  apply (setup_loop_spec _ _ _ _ _ _ _ _ (setup_start_builders s)) in Hrun
    as (evs & eb' & Ht & Hun & Hom & Heb' & Hmap & Hok & Hff & Hargs & Hnone).
  pose proof (setup_start_unset s) as Hun0.
  assert (Hn0 : nimages (cfg (setup_start s)) = nimages (cfg s))
    by (unfold same_unset in Hun0; tauto).
  assert (Hev : new_events s s' = evs) by (by apply new_events_app).
  exists eb'. simpl. rewrite Hev.
  split; [by eapply same_unset_trans|].
  split; [rewrite Hom; apply setup_start_manager|].
  split; [done|]. split; [done|]. split; [done|]. split; [done|].
  split; [intros h Hin; rewrite <- Hn0; by apply Hargs|].
  rewrite <- Hn0. exact Hnone.
Qed.
Lemma SetupExtraOutput_quiet reg logger (s : St) :
  output (cfg s) = None -> SetupExtraOutput reg logger s = (s, Ok tt).
Proof.
  intros Hout. unfold SetupExtraOutput, bind, get_cfg. by rewrite Hout.
Qed.

Lemma new_events_same (s : St) : new_events s s = [].
Proof. unfold new_events. by rewrite drop_all. Qed.

Lemma new_data_items um n :
  data_items (new_data um n) = replicate (Z.to_nat n) None.
Proof.
  unfold new_data, py_range. simpl.
  rewrite (const_fmap _ _ None) by done.
  rewrite length_seqZ. f_equal. lia.
Qed.

(** X4: what [SetupExtraOutput] leaves in the configuration, whether it
    returns or raises.  A manager entry is there afterwards exactly when the
    manager is needed or an entry was there before; [extra_builder] is a
    dict in which a name holds what it held before or, for an active kind
    that was set up, its registered builder; on a normal return every active
    kind holds its registered builder; and no other entry is assigned. *)
Theorem X4_setup_stores_builders reg logger (s : St) out :
  output (cfg s) = Some out ->
  let res := SetupExtraOutput reg logger s in
  same_unset (cfg s) (cfg res.1) /\
  (is_Some (output_manager (cfg res.1)) <->
     use_manager (cfg s) = true \/ is_Some (output_manager (cfg s))) /\
  exists eb', extra_builder (cfg res.1) = Some eb' /\
    (forall key, eb' !! key = default ∅ (extra_builder (cfg s)) !! key \/
       (key ∈ active_keys reg out /\ is_Some (eb' !! key) /\
        eb' !! key = reg_lookup reg key)) /\
    (res.2 = Ok tt -> forall key, key ∈ active_keys reg out ->
       is_Some (eb' !! key) /\ eb' !! key = reg_lookup reg key).
Proof.
  intros Hout res.
  destruct (SetupExtraOutput_facts reg logger s out Hout)
    as (eb' & Hun & Hom & Heb & Hmap & Hok & _).
  split; [done|]. split; [done|]. by exists eb'.
Qed.

(** X5: the work space handed to [initialize].  Each call receives a data
    list of [nimages] entries, all [None] (no entry when [nimages] is zero or
    negative), and an empty scratch dict; and [initialize] is the only hook
    that [SetupExtraOutput] calls. *)
Theorem X5_setup_workspace reg logger (s : St) n :
  nimages (cfg s) = Some n ->
  Forall (fun h => exists data scratch,
            h.1.2 = CInitialize data scratch /\
            data_items data = replicate (Z.to_nat n) None /\
            scratch_items scratch = ∅)
    (hook_events (new_events s (SetupExtraOutput reg logger s).1)).
Proof.
  intros Hn. destruct (output (cfg s)) as [out|] eqn:Hout.
  - destruct (SetupExtraOutput_facts reg logger s out Hout)
      as (eb' & _ & _ & _ & _ & _ & _ & Hargs & _).
    apply Forall_forall. intros h Hin.
    destruct (Hargs h Hin) as (n' & Hn' & Hh). simplify_eq.
    eexists _, _. split; [exact Hh|]. split; [apply new_data_items|done].
  - rewrite SetupExtraOutput_quiet by done. simpl.
    rewrite new_events_same. constructor.
Qed.

(** X6: [SetupExtraOutput] without [config['nimages']].  When a kind is
    active the function raises KeyError before any builder is called; when
    none is, [nimages] is never read and the function returns. *)
Theorem X6_setup_needs_nimages reg logger (s : St) out :
  output (cfg s) = Some out ->
  nimages (cfg s) = None ->
  let res := SetupExtraOutput reg logger s in
  (active_keys reg out <> [] -> res.2 = Raise (KeyError "nimages")) /\
  (active_keys reg out = [] -> res.2 = Ok tt) /\
  hook_events (new_events s res.1) = [].
Proof.
  intros Hout Hn res. subst res.
  pose proof (SetupExtraOutput_facts reg logger s out Hout) as Hf.
  cbv zeta in Hf. destruct Hf as (eb' & _ & _ & _ & _ & _ & _ & Hargs & Hnone).
  split; [intros Hne; by apply Hnone|]. split.
  - intros Hnil. rewrite (SetupExtraOutput_loop _ _ _ _ Hout), Hnil. done.
  - destruct (hook_events _) as [|h hs]; [done|].
    destruct (Hargs h) as (n & Hn' & _); [by left|congruence].
Qed.

(** ** The functions of the image phase *)

Lemma per_image_body_ff (c : Call)
    (hook : BuilderId -> Node -> Config -> World -> World * result unit)
    key (s s' : St) r :
  bind (get_builder key) (fun builder =>
    bind (get_field key) (fun field =>
      call_hook key c no_value (hook builder field))) s = (s', r) ->
  cfg s' = cfg s /\
  exists evs, trace s' = trace s ++ evs /\
    ((r = Ok tt /\ hook_events evs = [(key, c, Returned None)]) \/
     (exists e, r = Raise e /\ hook_events evs = [(key, c, Raised e)]) \/
     (exists k, r = Raise (KeyError k) /\ hook_events evs = [] /\
                ~ ready (cfg s) key)).
Proof.
  intros Hrun. minv; inv_calls.
  - split; [done|]. eexists [_]. split; [done|]. simpl.
    destruct r as [[]|e]; [by left|right; left; by exists e].
  - split; [done|]. exists []. rewrite app_nil_r. split; [done|].
    right; right. eexists. split; [done|]. split; [done|].
    intros [_ (out & Hout & Hk)]. destruct Hk as [f Hf]. congruence.
  - split; [done|]. exists []. rewrite app_nil_r. split; [done|].
    right; right. eexists. split; [done|]. split; [done|].
    intros [_ (out & Hout & Hk)]. congruence.
  - split; [done|]. exists []. rewrite app_nil_r. split; [done|].
    right; right. eexists. split; [done|]. split; [done|].
    intros [(eb & Heb & Hk) _]. destruct Hk as [f Hf]. congruence.
  - split; [done|]. exists []. rewrite app_nil_r. split; [done|].
    right; right. eexists. split; [done|]. split; [done|].
    intros [(eb & Heb & Hk) _]. congruence.
Qed.

Lemma per_image_loop (c : Call)
    (hook : BuilderId -> Node -> Config -> World -> World * result unit) keys :
  forall (s s' : St) r,
    for_each keys (fun key =>
      bind (get_builder key) (fun builder =>
        bind (get_field key) (fun field =>
          call_hook key c no_value (hook builder field)))) s = (s', r) ->
    cfg s' = cfg s /\
    exists evs, trace s' = trace s ++ evs /\
      fail_fast (hook_events evs) r /\
      Forall (fun h => h.1.2 = c) (hook_events evs) /\
      ((forall key, key ∈ keys -> ready (cfg s) key) ->
       (r = Ok tt /\
        hook_events evs = (fun k => (k, c, Returned None)) <$> keys) \/
       hook_failure (hook_events evs) r).
Proof.
  induction keys as [|k rest IH]; intros s s' r Hrun.
  - simpl in Hrun. unfold ret in Hrun. simplify_eq. split; [done|].
    exists []. rewrite app_nil_r. split; [done|]. split; [apply fail_fast_nil|].
    split; [constructor|]. intros _. by left.
  - apply for_each_cons_inv in Hrun as [(s1 & Hk & Hrest)|(e & Hk & ->)].
    + apply per_image_body_ff in Hk
        as (Hc1 & evs1 & Ht1 & [[_ Hev1]|[(e & ? & _)|(k' & ? & _)]]); [|done..].
      apply IH in Hrest as (Hc2 & evs2 & Ht2 & Hff & Hcs & Hready).
      split; [congruence|]. exists (evs1 ++ evs2).
      split; [rewrite Ht2, Ht1; by rewrite app_assoc|].
      rewrite hook_events_app, Hev1. split.
      { apply fail_fast_app; [|done]. repeat constructor. by eexists. }
      split; [by constructor|].
      intros Hall. destruct Hready as [[-> Hev2]|(pre & k' & c' & e & Hev2 & ->)].
      * intros key Hin. rewrite Hc1. apply Hall. apply elem_of_cons. by right.
      * left. split; [done|]. simpl. by rewrite Hev2.
      * right. exists ((k, c, Returned None) :: pre), k', c', e.
        split; [|done]. simpl. by rewrite Hev2.
    + apply per_image_body_ff in Hk
        as (Hc1 & evs1 & Ht1 & [[? _]|[(e' & ? & Hev1)|(k' & ? & Hev1 & Hnr)]]);
        [done|..]; simplify_eq.
      * split; [done|]. exists evs1. split; [done|]. rewrite Hev1.
        split; [by apply fail_fast_raised|]. split; [by repeat constructor|].
        intros _. right. by exists [], k, c, e'.
      * split; [done|]. exists evs1. split; [done|]. rewrite Hev1.
        split; [apply fail_fast_nil|]. split; [constructor|].
        intros Hall. exfalso. apply Hnr, Hall. apply elem_of_cons. by left.
Qed.
Lemma image_loop_ff keys :
  forall on (s s' : St) r,
    image_loop keys on s = (s', r) ->
    cfg s' = cfg s /\
    exists evs, trace s' = trace s ++ evs /\ fail_fast (hook_events evs) r.
Proof.
  induction keys as [|k rest IH]; intros on s s' r Hrun.
  - simpl in Hrun. unfold ret in Hrun. simplify_eq. split; [done|].
    exists []. rewrite app_nil_r. split; [done|apply fail_fast_nil].
  - simpl in Hrun.
    assert (Hquiet : s' = s -> cfg s' = cfg s /\
      exists evs, trace s' = trace s ++ evs /\ fail_fast (hook_events evs) r).
    { intros ->. split; [done|]. exists []. rewrite app_nil_r.
      split; [done|apply fail_fast_nil]. }
    apply bind_inv in Hrun as [(s1 & objs & Hobj & Hrun)|(e & Hobj & ->)].
    2:{ destruct on as [l|].
        - unfold ret in Hobj. simplify_eq.
        - apply image_obj_nums_state in Hobj as ->. by apply Hquiet. }
    assert (Hs1 : s1 = s).
    { destruct on as [l|].
      - unfold ret in Hobj. by simplify_eq.
      - by apply image_obj_nums_state in Hobj. }
    subst s1. clear Hobj.
    minv; try (by apply Hquiet); inv_calls.
    + match goal with
      | Hc : cfg ?y = cfg ?x, Hl : image_loop _ _ ?y = _ |- _ =>
          apply (IH (Some objs) y s' r) in Hl as (Hc2 & evs2 & Ht2 & Hff)
      end.
      split; [congruence|]. eexists ([_] ++ evs2). split; [trace_eq|].
      rewrite hook_events_app. apply fail_fast_app; [|done].
      repeat constructor. by eexists.
    + split; [done|]. eexists [_]. split; [trace_eq|]. simpl.
      by apply fail_fast_raised.
Qed.

Lemma hdu_key_ff out key hdus (s s' : St) r :
  hdu_key out key hdus s = (s', r) ->
  exists evs, trace s' = trace s ++ evs /\
    fail_fast (hook_events evs) r /\
    (is_ok r = true -> Forall returned (hook_events evs)).
Proof.
  intros Hrun. unfold hdu_key in Hrun.
  assert (Hquiet : s' = s ->
    exists evs, trace s' = trace s ++ evs /\
      fail_fast (hook_events evs) r /\
      (is_ok r = true -> Forall returned (hook_events evs))).
  { intros ->. exists []. rewrite app_nil_r.
    split; [done|]. split; [apply fail_fast_nil|by constructor]. }
  apply bind_inv in Hrun as [(s1 & field & Hf & Hrun)|(e & Hf & ->)];
    unfold require in Hf; destruct (out !! key) as [field'|] eqn:Ek;
    unfold ret, raise in Hf; simplify_eq.
  2:{ by apply Hquiet. }
  destruct field as [e|d].
  { unfold leaf_field in Hrun.
    destruct (leaf_has_key e _) as [[]|]; unfold raise, ret in Hrun;
      simplify_eq; by apply Hquiet. }
  destruct (d !! "hdu") as [h|] eqn:Eh;
    [|unfold ret in Hrun; simplify_eq; by apply Hquiet].
  minv.
  destruct (_ || _); [unfold raise in Hrun; simplify_eq; by apply Hquiet|].
  minv; inv_calls; cfg_eq.
  - eexists [EHook key CFinalize _; EHook key CWriteHdu _].
    split; [trace_eq|]. simpl.
    match goal with
    | |- fail_fast ?hs _ /\ _ => assert (Hall : Forall returned hs)
    end.
    { repeat constructor; by eexists. }
    split; [by left|done].
  - eexists [EHook key CFinalize _; EHook key CWriteHdu _].
    split; [trace_eq|]. simpl. split; [|done].
    apply (fail_fast_app [_]); [repeat constructor; by eexists|].
    by apply fail_fast_raised.
  - eexists [EHook key CFinalize _].
    split; [trace_eq|]. simpl. split; [by apply fail_fast_raised|done].
  - by apply Hquiet.
  - by apply Hquiet.
Qed.

Lemma hdu_loop_ff out keys :
  forall hdus (s s' : St) r,
    hdu_loop out keys hdus s = (s', r) ->
    exists evs, trace s' = trace s ++ evs /\
      fail_fast (hook_events evs) r /\
      (is_ok r = true -> Forall returned (hook_events evs)).
Proof.
  induction keys as [|k rest IH]; intros hdus s s' r Hrun.
  - simpl in Hrun. unfold ret in Hrun. simplify_eq. exists [].
    rewrite app_nil_r. split; [done|]. split; [apply fail_fast_nil|by constructor].
  - simpl in Hrun.
    apply bind_inv in Hrun as [(s1 & hdus1 & Hk1 & Hrest)|(e & Hk1 & ->)];
      apply hdu_key_ff in Hk1 as (evs1 & Ht1 & Hff1 & Hok1).
    + apply IH in Hrest as (evs2 & Ht2 & Hff2 & Hok2).
      exists (evs1 ++ evs2). split; [rewrite Ht2, Ht1; by rewrite app_assoc|].
      rewrite hook_events_app. split.
      * apply fail_fast_app; [by apply Hok1|done].
      * intros Hr. apply Forall_app. split; [by apply Hok1|by apply Hok2].
    + exists evs1. split; [done|]. split; [done|done].
Qed.
Lemma SetupExtraOutputsForImage_cases reg (s s' : St) r :
  SetupExtraOutputsForImage reg s = (s', r) ->
  cfg s' = cfg s /\
  exists evs, trace s' = trace s ++ evs /\
    fail_fast (hook_events evs) r /\
    Forall (fun h => h.1.2 = CSetupImage) (hook_events evs) /\
    ((forall key, key ∈ kinds_of reg s -> ready (cfg s) key) ->
     (r = Ok tt /\
      hook_events evs
      = (fun k => (k, CSetupImage, Returned None)) <$> kinds_of reg s) \/
     hook_failure (hook_events evs) r).
Proof.
  intros Hrun. unfold SetupExtraOutputsForImage, bind, get_cfg in Hrun.
  unfold kinds_of. destruct (output (cfg s)) as [out|] eqn:Hout.
  - by apply (per_image_loop CSetupImage
                (fun b fld => setupImage (class_of b) b fld)) in Hrun.
  - unfold ret in Hrun. simplify_eq. split; [done|]. exists [].
    rewrite app_nil_r. split; [done|]. split; [apply fail_fast_nil|].
    split; [constructor|]. intros _. by left.
Qed.

Lemma ProcessExtraOutputsForStamp_cases reg (s s' : St) r :
  ProcessExtraOutputsForStamp reg s = (s', r) ->
  cfg s' = cfg s /\
  exists evs, trace s' = trace s ++ evs /\
    fail_fast (hook_events evs) r /\
    (forall out, output (cfg s) = Some out -> obj_num (cfg s) = None ->
       s' = s /\ r = Raise (KeyError "obj_num")) /\
    (forall n, obj_num (cfg s) = Some n ->
       Forall (fun h => h.1.2 = CProcessStamp n) (hook_events evs) /\
       ((forall key, key ∈ kinds_of reg s -> ready (cfg s) key) ->
        (r = Ok tt /\
         hook_events evs
         = (fun k => (k, CProcessStamp n, Returned None)) <$> kinds_of reg s) \/
        hook_failure (hook_events evs) r)).
Proof.
  intros Hrun. unfold ProcessExtraOutputsForStamp, bind, get_cfg in Hrun.
  unfold kinds_of. destruct (output (cfg s)) as [out|] eqn:Hout.
  - unfold require in Hrun. destruct (obj_num (cfg s)) as [n|] eqn:Hn.
    + unfold ret in Hrun.
      apply (per_image_loop (CProcessStamp n)
               (fun b fld => processStamp (class_of b) b n fld)) in Hrun
        as (Hc & evs & Ht & Hff & Hall & Hready).
      split; [done|]. exists evs. split; [done|]. split; [done|].
      split; [done|]. intros n' [= <-]. done.
    + unfold raise in Hrun. simplify_eq. split; [done|]. exists [].
      rewrite app_nil_r. split; [done|]. split; [apply fail_fast_nil|].
      split; [done|done].
  - unfold ret in Hrun. simplify_eq. split; [done|]. exists [].
    rewrite app_nil_r. split; [done|]. split; [apply fail_fast_nil|].
    split; [done|]. intros n Hn. split; [constructor|]. intros _. by left.
Qed.

Lemma ProcessExtraOutputsForImage_ff reg (s s' : St) r :
  ProcessExtraOutputsForImage reg s = (s', r) ->
  cfg s' = cfg s /\
  exists evs, trace s' = trace s ++ evs /\ fail_fast (hook_events evs) r.
Proof.
  intros Hrun. unfold ProcessExtraOutputsForImage, bind, get_cfg in Hrun.
  destruct (output (cfg s)) as [out|].
  - by apply image_loop_ff in Hrun.
  - unfold ret in Hrun. simplify_eq. split; [done|]. exists [].
    rewrite app_nil_r. split; [done|apply fail_fast_nil].
Qed.

Lemma fail_fast_raise {A B} hs e :
  fail_fast hs (Raise e : result A) -> fail_fast hs (Raise e : result B).
Proof.
  intros [Hall|(pre & k & c & e' & -> & Hpre & [= <-])]; [by left|].
  right. by exists pre, k, c, e.
Qed.

Lemma BuildExtraOutputHDUs_ff reg first (s : St) :
  fails_fast (BuildExtraOutputHDUs reg first) s.
Proof.
  unfold fails_fast. destruct (output (cfg s)) as [out|] eqn:Hout.
  - rewrite (BuildExtraOutputHDUs_loop _ _ _ _ Hout).
    set (s0 := {| cfg := _; world := _; trace := _ |}).
    unfold bind.
    destruct (hdu_loop out (active_keys reg out) ∅ s0) as [s1 r1] eqn:El.
    apply hdu_loop_ff in El as (evs & Ht & Hff & Hok).
    assert (Hnew : new_events s s1 = evs) by (by apply new_events_app).
    destruct r1 as [hdus|e]; simpl.
    + destruct (hdu_list first hdus s1) as [s2 r2] eqn:Elist.
      apply hdu_list_state in Elist as ->. simpl. rewrite Hnew.
      left. by apply Hok.
    + rewrite Hnew. by eapply fail_fast_raise.
  - rewrite BuildExtraOutputHDUs_quiet by done. apply fail_fast_nil.
Qed.

Lemma fails_fast_intro {A} (f : M A) (s : St) :
  (forall s' r, f s = (s', r) ->
     exists evs, trace s' = trace s ++ evs /\ fail_fast (hook_events evs) r) ->
  fails_fast f s.
Proof.
  intros Hf. unfold fails_fast. destruct (f s) as [s' r] eqn:Hrun.
  destruct (Hf s' r eq_refl) as (evs & Ht & Hff). simpl.
  by rewrite (new_events_app _ _ _ Ht).
Qed.

(** X7: an exception out of a builder hook is never swallowed by the
    functions that call each hook once.  In [SetupExtraOutput], the three
    functions of the image phase and [BuildExtraOutputHDUs], either every
    hook call made has returned, or the last call made raised and the
    function raised that same exception: no hook is called after one has
    raised. *)
Theorem X7_hook_exception_ends_the_run reg logger first (s : St) :
  fails_fast (SetupExtraOutput reg logger) s /\
  fails_fast (SetupExtraOutputsForImage reg) s /\
  fails_fast (ProcessExtraOutputsForStamp reg) s /\
  fails_fast (ProcessExtraOutputsForImage reg) s /\
  fails_fast (BuildExtraOutputHDUs reg first) s.
Proof.
  split.
  { destruct (output (cfg s)) as [out|] eqn:Hout.
    - pose proof (SetupExtraOutput_facts reg logger s out Hout) as Hf.
      cbv zeta in Hf. destruct Hf as (eb' & _ & _ & _ & _ & _ & Hff & _).
      exact Hff.
    - unfold fails_fast. rewrite SetupExtraOutput_quiet by done. simpl.
      rewrite new_events_same. apply fail_fast_nil. }
  split.
  { apply fails_fast_intro. intros s' r Hrun.
    apply SetupExtraOutputsForImage_cases in Hrun
      as (_ & evs & Ht & Hff & _). by exists evs. }
  split.
  { apply fails_fast_intro. intros s' r Hrun.
    apply ProcessExtraOutputsForStamp_cases in Hrun
      as (_ & evs & Ht & Hff & _). by exists evs. }
  split.
  { apply fails_fast_intro. intros s' r Hrun.
    apply ProcessExtraOutputsForImage_ff in Hrun
      as (_ & evs & Ht & Hff). by exists evs. }
  apply BuildExtraOutputHDUs_ff.
Qed.

Lemma active_keys_in_output reg (out : gmap string Node) key :
  key ∈ active_keys reg out -> is_Some (out !! key).
Proof. unfold active_keys. rewrite list_elem_of_filter. tauto. Qed.

(** X8: [SetupExtraOutput] makes the image phase safe from lookup errors.
    After it has returned normally, [config['extra_builder'][key]] and
    [config['output'][key]] exist for every active kind, so
    [SetupExtraOutputsForImage] and, given [config['obj_num']],
    [ProcessExtraOutputsForStamp] call their hook on every active kind in
    registry order and return, unless a hook raises, in which case they raise
    what that hook raised. *)
Theorem X8_setup_makes_the_image_phase_ready reg logger (s : St) :
  (SetupExtraOutput reg logger s).2 = Ok tt ->
  let s1 := (SetupExtraOutput reg logger s).1 in
  let keys := kinds_of reg s in
  let img := SetupExtraOutputsForImage reg s1 in
  let stamp := ProcessExtraOutputsForStamp reg s1 in
  (forall key, key ∈ keys -> ready (cfg s1) key) /\
  ((img.2 = Ok tt /\
    hook_events (new_events s1 img.1)
    = (fun k => (k, CSetupImage, Returned None)) <$> keys) \/
   hook_failure (hook_events (new_events s1 img.1)) img.2) /\
  (forall n, obj_num (cfg s) = Some n ->
     (stamp.2 = Ok tt /\
      hook_events (new_events s1 stamp.1)
      = (fun k => (k, CProcessStamp n, Returned None)) <$> keys) \/
     hook_failure (hook_events (new_events s1 stamp.1)) stamp.2).
Proof.
  intros Hok s1 keys img stamp.
  assert (Hs1 : kinds_of reg s1 = keys /\ obj_num (cfg s1) = obj_num (cfg s) /\
                forall key, key ∈ keys -> ready (cfg s1) key).
  { subst s1 keys. unfold kinds_of.
    destruct (output (cfg s)) as [out|] eqn:Hout.
    - pose proof (SetupExtraOutput_facts reg logger s out Hout) as Hf.
      cbv zeta in Hf.
      destruct Hf as (eb' & Hun & _ & Heb & _ & Hall & _).
      unfold same_unset in Hun. destruct_and!.
      match goal with Ho : output _ = output _ |- _ => rewrite Ho, Hout end.
      split; [done|]. split; [done|]. intros key Hin. split.
      + exists eb'. split; [done|]. by apply (Hall Hok key).
      + exists out. split; [congruence|]. by eapply active_keys_in_output.
    - rewrite SetupExtraOutput_quiet by done. simpl. rewrite Hout.
      split; [done|]. split; [done|]. by intros key Hin%elem_of_nil. }
  destruct Hs1 as (Hkinds & Hobj & Hready). split; [done|]. split.
  - subst img. destruct (SetupExtraOutputsForImage reg s1) as [s2 r2] eqn:Hrun.
    apply SetupExtraOutputsForImage_cases in Hrun
      as (_ & evs & Ht & _ & _ & Hcases).
    simpl. rewrite (new_events_app _ _ _ Ht). rewrite Hkinds in Hcases.
    by apply Hcases.
  - intros n Hn. subst stamp.
    destruct (ProcessExtraOutputsForStamp reg s1) as [s2 r2] eqn:Hrun.
    apply ProcessExtraOutputsForStamp_cases in Hrun
      as (_ & evs & Ht & _ & _ & Hcases).
    simpl. rewrite (new_events_app _ _ _ Ht).
    rewrite Hobj in Hcases. destruct (Hcases n Hn) as [_ Hc].
    rewrite Hkinds in Hc. by apply Hc.
Qed.

(** X9: [ProcessExtraOutputsForStamp] hands [config['obj_num']] to every
    [processStamp] call, and makes no other hook call.  The entry is read
    before the loop over the kinds: with an [output] section and no
    [obj_num] the function raises KeyError at once, leaving everything as it
    was, also when no kind is active. *)
Theorem X9_stamp_object_number reg (s : St) out :
  output (cfg s) = Some out ->
  let res := ProcessExtraOutputsForStamp reg s in
  match obj_num (cfg s) with
  | None => res = (s, Raise (KeyError "obj_num"))
  | Some n =>
      Forall (fun h => h.1.2 = CProcessStamp n)
        (hook_events (new_events s res.1))
  end.
Proof.
  intros Hout res. subst res.
  destruct (ProcessExtraOutputsForStamp reg s) as [s' r] eqn:Hrun.
  apply ProcessExtraOutputsForStamp_cases in Hrun
    as (_ & evs & Ht & _ & Hnone & Hsome).
  destruct (obj_num (cfg s)) as [n|] eqn:Hn.
  - simpl. rewrite (new_events_app _ _ _ Ht). by apply Hsome.
  - destruct (Hnone out Hout eq_refl) as [-> ->]. done.
Qed.

(** ** The object numbers of an image *)

Lemma add_counts_app counts l1 l2 start (s : St) :
  add_counts counts (l1 ++ l2) start s =
  match add_counts counts l1 start s with
  | (s', Ok v) => add_counts counts l2 v s'
  | (s', Raise e) => (s', Raise e)
  end.
Proof.
  revert start. induction l1 as [|i l1 IH]; intros start; simpl; [done|].
  destruct (py_index counts i); [apply IH|done].
Qed.

Lemma py_index_out {A} (l : list A) (i : Z) :
  i < - Z.of_nat (length l) \/ Z.of_nat (length l) <= i -> py_index l i = None.
Proof.
  intros Hi. unfold py_index.
  rewrite bool_decide_eq_false_2 by lia. by rewrite bool_decide_eq_false_2 by lia.
Qed.

Lemma add_counts_beyond counts k start (s : St) :
  Z.of_nat (length counts) < k ->
  add_counts counts (py_range 0 k) start s = (s, Raise IndexError).
Proof.
  intros Hk. unfold py_range.
  replace (k - 0) with (Z.of_nat (length counts) + (k - Z.of_nat (length counts)))
    by lia.
  rewrite seqZ_app by lia. rewrite add_counts_app.
  pose proof (add_counts_run counts s (length counts) O start) as Hadd.
  change (Z.of_nat 0) with 0 in Hadd. rewrite Hadd by (simpl; lia).
  rewrite seqZ_cons by lia. simpl.
  rewrite py_index_out by lia. done.
Qed.

Lemma image_obj_nums_out (s : St) f img img0 obj0 counts :
  file_num (cfg s) = Some f ->
  image_num (cfg s) = Some img ->
  start_image_num (cfg s) = Some img0 ->
  start_obj_num (cfg s) = Some obj0 ->
  nobj (cfg s) = Some counts ->
  (img - img0 < - Z.of_nat (length counts) \/
   Z.of_nat (length counts) <= img - img0) ->
  image_obj_nums s = (s, Raise IndexError).
Proof.
  intros Hf Hi Hi0 Ho Hn Hk.
  unfold image_obj_nums, bind, get_cfg, require, ret, raise.
  rewrite Hf, Hi, Hi0, Ho, Hn.
  destruct (decide (Z.of_nat (length counts) < img - img0)) as [Hgt|Hle].
  - by rewrite add_counts_beyond.
  - destruct (decide (img - img0 < 0)) as [Hneg|Hpos].
    + unfold py_range. rewrite seqZ_nil by lia. simpl. unfold ret.
      by rewrite py_index_out.
    + assert (Heq : img - img0 = Z.of_nat (length counts)) by lia.
      unfold py_range. rewrite Heq.
      replace (Z.of_nat (length counts) - 0) with (Z.of_nat (length counts))
        by lia.
      pose proof (add_counts_run counts s (length counts) O obj0) as Hadd.
      change (Z.of_nat 0) with 0 in Hadd. rewrite Hadd by (simpl; lia).
      by rewrite py_index_out by lia.
Qed.

Lemma image_obj_nums_negative (s : St) f img img0 obj0 counts n :
  file_num (cfg s) = Some f ->
  image_num (cfg s) = Some img ->
  start_image_num (cfg s) = Some img0 ->
  start_obj_num (cfg s) = Some obj0 ->
  nobj (cfg s) = Some counts ->
  - Z.of_nat (length counts) <= img - img0 < 0 ->
  counts !! Z.to_nat (Z.of_nat (length counts) + (img - img0)) = Some n ->
  image_obj_nums s = (s, Ok (py_range obj0 (obj0 + n))).
Proof.
  intros Hf Hi Hi0 Ho Hn Hk Hnk.
  unfold image_obj_nums, bind, get_cfg, require, ret, raise.
  rewrite Hf, Hi, Hi0, Ho, Hn.
  unfold py_range at 1. rewrite seqZ_nil by lia. simpl. unfold ret.
  assert (Hpy : py_index counts (img - img0) = Some n).
  { unfold py_index. rewrite bool_decide_eq_false_2 by lia.
    by rewrite bool_decide_eq_true_2 by lia. }
  by rewrite Hpy.
Qed.

Lemma image_obj_nums_in_range (s : St) f img img0 obj0 counts n :
  file_num (cfg s) = Some f ->
  image_num (cfg s) = Some img ->
  start_image_num (cfg s) = Some img0 ->
  start_obj_num (cfg s) = Some obj0 ->
  nobj (cfg s) = Some counts ->
  0 <= img - img0 < Z.of_nat (length counts) ->
  counts !! Z.to_nat (img - img0) = Some n ->
  let first_obj := obj0 + sum_counts (take (Z.to_nat (img - img0)) counts) in
  image_obj_nums s = (s, Ok (py_range first_obj (first_obj + n))).
Proof.
  intros Hf Hi Hi0 Ho Hn Hk Hnk first_obj.
  unfold image_obj_nums, bind, get_cfg, require, ret, raise.
  rewrite Hf, Hi, Hi0, Ho, Hn. unfold py_range at 1.
  replace (img - img0 - 0) with (Z.of_nat (Z.to_nat (img - img0))) by lia.
  pose proof (add_counts_run counts s (Z.to_nat (img - img0)) O obj0) as Hadd.
  change (Z.of_nat 0) with 0 in Hadd. rewrite Hadd by (simpl; lia).
  rewrite drop_0.
  assert (Hpy : py_index counts (img - img0) = Some n).
  { unfold py_index. by rewrite bool_decide_eq_true_2 by lia. }
  rewrite Hpy. done.
Qed.

(** X10: an image outside the file.  When the position
    [image_num - start_image_num] is at or beyond the length of
    [config['nobj']], or below minus that length, and a kind is active,
    [ProcessExtraOutputsForImage] raises IndexError before it looks up or
    calls any builder, and leaves everything as it was. *)
Theorem X10_image_position_out_of_range reg (s : St) out f img img0 obj0 counts :
  output (cfg s) = Some out ->
  active_keys reg out <> [] ->
  file_num (cfg s) = Some f ->
  image_num (cfg s) = Some img ->
  start_image_num (cfg s) = Some img0 ->
  start_obj_num (cfg s) = Some obj0 ->
  nobj (cfg s) = Some counts ->
  (img - img0 < - Z.of_nat (length counts) \/
   Z.of_nat (length counts) <= img - img0) ->
  ProcessExtraOutputsForImage reg s = (s, Raise IndexError).
Proof.
  intros Hout Hne Hf Hi Hi0 Ho Hn Hk.
  unfold ProcessExtraOutputsForImage, bind, get_cfg. rewrite Hout.
  destruct (active_keys reg out) as [|key rest]; [done|].
  simpl. unfold bind.
  by rewrite (image_obj_nums_out s f img img0 obj0 counts).
Qed.

Lemma object_ranges_length start counts :
  length (object_ranges start counts) = length counts.
Proof. revert start. induction counts; intros; simpl; by f_equal. Qed.

Lemma object_ranges_lookup counts :
  forall start k r,
    object_ranges start counts !! k = Some r ->
    exists n, counts !! k = Some n /\
      r = py_range (start + sum_counts (take k counts))
                   (start + sum_counts (take k counts) + n).
Proof.
  induction counts as [|n rest IH]; intros start k r Hr; [done|].
  destruct k as [|k]; simpl in *.
  - simplify_eq. exists n. split; [done|]. unfold sum_counts. simpl.
    by rewrite Z.add_0_r.
  - destruct (IH _ _ _ Hr) as (n' & Hn' & ->). exists n'. split; [done|].
    unfold sum_counts. simpl. fold (sum_counts (take k rest)).
    by rewrite !Z.add_assoc.
Qed.

Lemma object_ranges_concat counts :
  Forall (fun n => 0 <= n) counts ->
  forall start,
    concat (object_ranges start counts)
    = py_range start (start + sum_counts counts).
Proof.
  induction 1 as [|n rest Hn Hall IH]; intros start; simpl.
  - unfold py_range, sum_counts. simpl. by rewrite seqZ_nil by lia.
  - rewrite IH. unfold py_range, sum_counts. simpl.
    fold (sum_counts rest).
    assert (Hs : 0 <= sum_counts rest).
    { clear -Hall. induction Hall; unfold sum_counts in *; simpl; lia. }
    replace (start + (n + sum_counts rest) - start) with (n + sum_counts rest)
      by lia.
    rewrite seqZ_app by lia. f_equal; f_equal; lia.
Qed.

(** X12: the object numbers of the images of a file tile the objects of the
    file.  With counts that are not negative, the ranges computed for the
    images at the positions 0, 1, ... are consecutive: put one after the
    other they are the object numbers from [start_obj_num] up to
    [start_obj_num] plus the sum of all the counts, each exactly once. *)
Theorem X12_object_ranges_tile_the_file (s : St) f img0 obj0 counts :
  file_num (cfg s) = Some f ->
  start_image_num (cfg s) = Some img0 ->
  start_obj_num (cfg s) = Some obj0 ->
  nobj (cfg s) = Some counts ->
  Forall (fun n => 0 <= n) counts ->
  let ranges := object_ranges obj0 counts in
  length ranges = length counts /\
  (forall k r, ranges !! k = Some r ->
     let sk := at_image s (img0 + Z.of_nat k) in
     image_obj_nums sk = (sk, Ok r)) /\
  concat ranges = py_range obj0 (obj0 + sum_counts counts) /\
  NoDup (concat ranges).
Proof.
  intros Hf Hi0 Ho Hn Hpos ranges. subst ranges.
  split; [apply object_ranges_length|]. split.
  - intros k r Hr sk.
    destruct (object_ranges_lookup _ _ _ _ Hr) as (n & Hk & ->).
    assert (Hlt : (k < length counts)%nat) by (by eapply lookup_lt_Some).
    assert (Hpos_k : img0 + Z.of_nat k - img0 = Z.of_nat k) by lia.
    pose proof (image_obj_nums_in_range sk f (img0 + Z.of_nat k) img0 obj0
                  counts n Hf eq_refl Hi0 Ho Hn) as Hrun.
    cbv zeta in Hrun. rewrite Hpos_k, Nat2Z.id in Hrun.
    apply Hrun; [lia|done].
  - split; [by apply object_ranges_concat|].
    rewrite object_ranges_concat by done. apply NoDup_seqZ.
Qed.

(** ** The errors of BuildExtraOutputHDUs *)

Lemma hdu_key_slot_exact out key hdus (s : St) z :
  hdu_slot (cfg s) out key = Some (key, z) ->
  hdu_hooks_return (cfg s) key ->
  (0 < z /\ hdus !! z = None /\
   exists a s', hdu_key out key hdus s = (s', Ok (<[z := a]> hdus)) /\
     cfg s' = cfg s /\
     trace s' = trace s ++ [EHook key CFinalize (Returned None);
                            EHook key CWriteHdu (Returned (Some a))]) \/
  (~ (0 < z /\ hdus !! z = None) /\
   hdu_key out key hdus s = (s, Raise TypeError)).
Proof.
  intros Hs (eb & b & Heb & Hb & Hhooks). unfold hdu_slot in Hs.
  destruct (out !! key) as [[e|d]|] eqn:Hd; try done.
  destruct (d !! "hdu") as [h|] eqn:Hh; [|done]. simplify_eq.
  unfold hdu_key, bind, require, ret, get_cfg. rewrite Hd, Hh.
  set (z := ParseValue_int d "hdu" (cfg s)).
  destruct (bool_decide (z <= 0) || bool_decide (is_Some (hdus !! z))) eqn:Ebad.
  - right. split; [|done]. intros [Hpos Hfree].
    apply orb_true_iff in Ebad as [Hz|Hz].
    + apply bool_decide_eq_true in Hz. lia.
    + apply bool_decide_eq_true in Hz. rewrite Hfree in Hz. by destruct Hz.
  - apply orb_false_iff in Ebad as [Hz1 Hz2].
    apply bool_decide_eq_false in Hz1. apply bool_decide_eq_false in Hz2.
    unfold get_builder, bind, get_cfg, require, ret. rewrite Heb, Hb.
    unfold call_hook. simpl.
    destruct (Hhooks (Dict d) (cfg s) (world s)) as [Hfin _].
    destruct (finalize (class_of b) b (Dict d) (cfg s) (world s)) as [w1 [[]|e]] eqn:Efin;
      [|done].
    simpl.
    destruct (Hhooks (Dict d) (cfg s) w1) as [_ Hw].
    destruct (writeHdu (class_of b) b (Dict d) (cfg s) w1) as [w2 [a|e]] eqn:Ew;
      [|done].
    simpl. left. split; [lia|]. split.
    + destruct (hdus !! z) eqn:E; [|done]. destruct Hz2. eauto.
    + eexists a, _. split; [done|]. split; [done|]. simpl.
      by rewrite <- app_assoc.
Qed.

Lemma hdu_loop_calls out keys :
  (forall key, key ∈ keys -> exists d, out !! key = Some (Dict d)) ->
  forall hdus (s : St),
    (forall ks, ks ∈ hdu_slots (cfg s) out keys -> hdu_hooks_return (cfg s) ks.1) ->
    let slots := hdu_slots (cfg s) out keys in
    let res := hdu_loop out keys hdus s in
    exists evs, trace res.1 = trace s ++ evs /\
      match res.2 with
      | Ok _ => hook_keys evs = twice slots.*1
      | Raise e =>
          e = TypeError /\
          exists pre ks post, slots = pre ++ ks :: post /\
            (ks.2 <= 0 \/ is_Some (hdus !! ks.2) \/ ks.2 ∈ pre.*2) /\
            hook_keys evs = twice pre.*1
      end.
Proof.
  induction keys as [|k rest IH]; intros Hdict hdus s Hret; cbv zeta.
  - simpl. exists []. by rewrite app_nil_r.
  - assert (Hdict' : forall key, key ∈ rest -> exists d, out !! key = Some (Dict d)).
    { intros key Hin. apply Hdict. by right. }
    rewrite hdu_slots_cons in *. rewrite hdu_loop_cons.
    destruct (hdu_slot (cfg s) out k) as [[k' z]|] eqn:Es.
    + pose proof (hdu_slot_key _ _ _ _ Es) as Hk. simpl in Hk. subst k'.
      assert (Hretk : hdu_hooks_return (cfg s) k).
      { apply (Hret (k, z)). left. }
      destruct (hdu_key_slot_exact out k hdus s z Es Hretk)
        as [(Hpos & Hfree & a & s1 & -> & Hc & Ht)|(Hbad & ->)].
      * assert (Hret1 : forall ks, ks ∈ hdu_slots (cfg s1) out rest ->
                  hdu_hooks_return (cfg s1) ks.1).
        { rewrite Hc. intros ks Hin. apply Hret. by right. }
        specialize (IH Hdict' (<[z := a]> hdus) s1 Hret1). cbv zeta in IH.
        rewrite Hc in IH. destruct IH as (evs2 & Ht2 & IH).
        exists ([EHook k CFinalize (Returned None);
                 EHook k CWriteHdu (Returned (Some a))] ++ evs2).
        split; [rewrite Ht2, Ht; by rewrite <- app_assoc|].
        rewrite hook_keys_app.
        destruct (hdu_loop out rest (<[z:=a]> hdus) s1).2 as [hdus'|e].
        -- rewrite IH. done.
        -- destruct IH as (-> & pre & ks & post & Hsl & Hwhy & Hk).
           split; [done|]. exists ((k, z) :: pre), ks, post.
           split; [by rewrite Hsl|]. split; [|by rewrite Hk].
           destruct Hwhy as [?|[Hin|?]]; [by left|..].
           ++ destruct (decide (ks.2 = z)) as [->|Hne].
              ** right; right. rewrite fmap_cons. by left.
              ** rewrite lookup_insert_ne in Hin by done. by right; left.
           ++ right; right. rewrite fmap_cons. by right.
      * simpl. exists []. rewrite app_nil_r. split; [done|]. split; [done|].
        exists [], (k, z), (hdu_slots (cfg s) out rest). split; [done|].
        split; [|done]. simpl.
        destruct (decide (0 < z)) as [Hz|Hz]; [|left; lia].
        right; left. destruct (hdus !! z) eqn:E; [by eexists|].
        exfalso. by apply Hbad.
    + rewrite hdu_key_no_slot; [|apply Hdict; left|done].
      apply (IH Hdict' hdus s). intros ks Hin. by apply Hret.
Qed.

(** X13: the two errors of [BuildExtraOutputHDUs] and when they come.  The
    fields of the active kinds are dicts and the hooks of the HDU-mode kinds
    return.  A slot that is zero, negative or taken already stops the loop
    before the [finalize] of its kind: the kinds before it were finalized
    and built, no later kind is called, and what is raised is the TypeError
    of the malformed message.  When every slot is positive and taken once,
    every HDU-mode kind is finalized and built, in registry order, and only
    then are the slots checked against [first]: a gap is a ValueError raised
    after all the builders have run. *)
Theorem X13_hdu_errors_and_their_timing reg first (s : St) out :
  output (cfg s) = Some out ->
  let c := set_index_key "file_num" (cfg s) in
  let keys := active_keys reg out in
  let slots := hdu_slots c out keys in
  (forall key, key ∈ keys -> exists d, out !! key = Some (Dict d)) ->
  (forall ks, ks ∈ slots -> hdu_hooks_return c ks.1) ->
  let res := BuildExtraOutputHDUs reg first s in
  let called := hook_keys (new_events s res.1) in
  let valid := Forall (fun z => 0 < z) slots.*2 /\ NoDup slots.*2 in
  (~ valid ->
   res.2 = Raise TypeError /\
   exists pre ks post, slots = pre ++ ks :: post /\
     (ks.2 <= 0 \/ ks.2 ∈ pre.*2) /\ called = twice pre.*1) /\
  (valid ->
   called = twice slots.*1 /\
   (~ contiguous_run first slots.*2 -> res.2 = Raise ValueError)).
Proof.
  intros Hout c keys slots Hdict Hret res called valid.
  subst res called. rewrite (BuildExtraOutputHDUs_loop _ _ _ _ Hout).
  fold keys. fold c.
  set (s0 := {| cfg := c; world := world s; trace := trace s |}).
  pose proof (hdu_loop_slots out keys Hdict ∅ s0 Hret) as Hloop.
  pose proof (hdu_loop_calls out keys Hdict ∅ s0 Hret) as Hcalls.
  cbv zeta in Hloop, Hcalls. change (cfg s0) with c in Hloop, Hcalls.
  fold slots in Hloop, Hcalls.
  unfold bind. destruct (hdu_loop out keys ∅ s0) as [s1 [hdus|e]] eqn:Eloop;
    simpl in Hloop, Hcalls; destruct Hloop as (Hc & evs & Ht & Hloop);
    destruct Hcalls as (evs' & Ht' & Hcalls);
    rewrite Ht in Ht'; apply app_inv_head in Ht'; subst evs'.
  - destruct Hloop as (Hall & Hnd & Hdom & _ & _).
    assert (Hdom' : forall z, is_Some (hdus !! z) <-> z ∈ slots.*2).
    { intros z. rewrite Hdom. rewrite lookup_empty. split; [|by right].
      intros [[? ?]|?]; done. }
    assert (Hpos : Forall (fun z => 0 < z) slots.*2).
    { eapply Forall_impl; [exact Hall|]. by intros z [? _]. }
    destruct (hdu_list_spec first hdus slots.*2 s1 Hnd Hdom') as [_ Hno].
    split; [intros Hnv; destruct Hnv; by split|]. intros _.
    destruct (hdu_list first hdus s1) as [s2 r2] eqn:Elist.
    assert (Hs2 : s2 = s1) by (by eapply hdu_list_state). subst s2.
    cbn [fst snd]. rewrite (new_events_app s s1 evs) by done.
    split; [done|].
    intros Hgap. specialize (Hno Hgap). by simplify_eq.
  - simpl. rewrite (new_events_app s s1 evs) by done.
    destruct Hcalls as (-> & pre & ks & post & Hsl & Hwhy & Hk). split.
    + intros _. split; [done|]. exists pre, ks, post. split; [done|].
      split; [|done]. destruct Hwhy as [?|[Hin|?]]; [by left| |by right].
      rewrite lookup_empty in Hin. by destruct Hin.
    + intros [Hpos Hnd]. exfalso. apply Hloop. split; [|done].
      eapply Forall_impl; [exact Hpos|]. intros z Hz. split; [done|].
      apply lookup_empty.
Qed.
(** ** A builder of the base class in HDU mode *)

Lemma call_hook_res {A} key c (val : A -> option Artifact) hook (s s1 : St) r :
  call_hook key c val hook s = (s1, r) -> r = (hook (cfg s) (world s)).2.
Proof.
  unfold call_hook. destruct (hook (cfg s) (world s)) as [w r'].
  by intros [= _ <-].
Qed.

Lemma hdu_key_base out k key hdus (s s' : St) r eb b sw :
  hdu_key out k hdus s = (s', r) ->
  extra_builder (cfg s) = Some eb ->
  eb !! key = Some b ->
  class_of b = ExtraOutputBuilder sw ->
  cfg s' = cfg s /\
  exists evs, trace s' = trace s ++ evs /\
    (forall o, (key, CWriteHdu, o) ∈ hook_events evs -> o = Raised TypeError) /\
    (k = key -> hdu_mode out key -> is_ok r = false).
Proof.
  intros Hrun Heb Hb Hcls. unfold hdu_key in Hrun.
  assert (Hquiet : s' = s -> (k = key -> hdu_mode out key -> is_ok r = false) ->
    cfg s' = cfg s /\
    exists evs, trace s' = trace s ++ evs /\
      (forall o, (key, CWriteHdu, o) ∈ hook_events evs -> o = Raised TypeError) /\
      (k = key -> hdu_mode out key -> is_ok r = false)).
  { intros -> Hr. split; [done|]. exists []. rewrite app_nil_r.
    split; [done|]. split; [|done]. by intros o Hin%elem_of_nil. }
  apply bind_inv in Hrun as [(s1 & field & Hf & Hrun)|(e & Hf & ->)];
    unfold require in Hf; destruct (out !! k) as [field'|] eqn:Ek;
    unfold ret, raise in Hf; simplify_eq.
  2:{ by apply Hquiet. }
  destruct field as [e|d].
  { unfold leaf_field in Hrun.
    destruct (leaf_has_key e _) as [[]|]; unfold raise, ret in Hrun;
      simplify_eq; (apply Hquiet; [done|]); try done.
    intros -> (d' & Hd' & _). congruence. }
  destruct (d !! "hdu") as [h|] eqn:Eh.
  2:{ unfold ret in Hrun. simplify_eq. apply Hquiet; [done|].
      intros -> (d' & Hd' & Hh'). simplify_eq. rewrite Eh in Hh'.
      by destruct Hh'. }
  minv.
  destruct (_ || _); [unfold raise in Hrun; simplify_eq; by apply Hquiet|].
  minv;
    repeat match goal with
    | Hc : call_hook _ CWriteHdu _ _ _ = _ |- _ =>
        pose proof (call_hook_res _ _ _ _ _ _ _ Hc); revert Hc
    end; intros; inv_calls; cfg_eq.
  all: try (by apply Hquiet).
  all: split; [done|].
  all: destruct (decide (k = key)) as [->|Hne]; simplify_eq.
  all: try match goal with
       | Hw : _ = (writeHdu (class_of _) _ _ _ _).2 |- _ =>
           rewrite Hcls in Hw; simpl in Hw; simplify_eq
       end.
  all: eexists; (split; [trace_eq|]); simpl.
  all: split; [|done].
  all: intros o Hin;
       repeat match goal with
       | Hi : _ ∈ _ :: _ |- _ => apply elem_of_cons in Hi as [Hi|Hi]
       | Hi : _ ∈ [] |- _ => by apply elem_of_nil in Hi
       end; by simplify_eq.
Qed.

Lemma hdu_loop_base out (key : string) eb b sw keys :
  forall hdus (s s' : St) r,
    hdu_loop out keys hdus s = (s', r) ->
    extra_builder (cfg s) = Some eb ->
    eb !! key = Some b ->
    class_of b = ExtraOutputBuilder sw ->
    exists evs, trace s' = trace s ++ evs /\
      (forall o, (key, CWriteHdu, o) ∈ hook_events evs -> o = Raised TypeError) /\
      (key ∈ keys -> hdu_mode out key -> is_ok r = false).
Proof.
  induction keys as [|k rest IH]; intros hdus s s' r Hrun Heb Hb Hcls.
  - simpl in Hrun. unfold ret in Hrun. simplify_eq. exists [].
    rewrite app_nil_r. split; [done|].
    split; [by intros o Hin%elem_of_nil|by intros Hin%elem_of_nil].
  - simpl in Hrun.
    apply bind_inv in Hrun as [(s1 & hdus1 & Hk1 & Hrest)|(e & Hk1 & ->)];
      apply (hdu_key_base _ _ key _ _ _ _ eb b sw) in Hk1
        as (Hc1 & evs1 & Ht1 & Hw1 & Hr1); try done.
    + apply IH in Hrest as (evs2 & Ht2 & Hw2 & Hr2); [|by rewrite Hc1|done..].
      exists (evs1 ++ evs2). split; [rewrite Ht2, Ht1; by rewrite app_assoc|].
      rewrite hook_events_app. split.
      * intros o [Hin|Hin]%elem_of_app; [by apply Hw1|by apply Hw2].
      * intros [->|Hin]%elem_of_cons Hmode; [|by apply Hr2].
        by specialize (Hr1 eq_refl Hmode).
    + exists evs1. split; [done|]. split; [done|done].
Qed.

Lemma fail_fast_raised_elem {A} hs (r : result A) k c e :
  fail_fast hs r -> (k, c, Raised e) ∈ hs -> r = Raise e.
Proof.
  intros [Hall|(pre & k' & c' & e' & -> & Hpre & ->)] Hin.
  - rewrite Forall_forall in Hall. by destruct (Hall _ Hin) as [a ?].
  - apply elem_of_app in Hin as [Hin|Hin%list_elem_of_singleton].
    + rewrite Forall_forall in Hpre. by destruct (Hpre _ Hin) as [a ?].
    + by simplify_eq.
Qed.

(** X14: a kind in HDU mode whose builder does not override [writeHdu].
    When an active kind with an [hdu] entry is built by an object of the
    base class, [BuildExtraOutputHDUs] never returns a list, whatever the
    other kinds and their builders do; and if the [writeHdu] of that kind is
    reached, it raises the TypeError of the base class, which is what
    [BuildExtraOutputHDUs] then raises. *)
Theorem X14_base_builder_in_hdu_mode reg first (s : St) out key d eb b sw :
  output (cfg s) = Some out ->
  key ∈ active_keys reg out ->
  out !! key = Some (Dict d) ->
  is_Some (d !! "hdu") ->
  extra_builder (cfg s) = Some eb ->
  eb !! key = Some b ->
  class_of b = ExtraOutputBuilder sw ->
  let res := BuildExtraOutputHDUs reg first s in
  is_ok res.2 = false /\
  (forall o, (key, CWriteHdu, o) ∈ hook_events (new_events s res.1) ->
             o = Raised TypeError /\ res.2 = Raise TypeError).
Proof.
  intros Hout Hin Hd Hh Heb Hb Hcls res.
  assert (Hmode : hdu_mode out key) by (by exists d).
  pose proof (BuildExtraOutputHDUs_ff reg first s) as Hff.
  unfold fails_fast in Hff. fold res in Hff.
  assert (Hloop : is_ok res.2 = false /\
    forall o, (key, CWriteHdu, o) ∈ hook_events (new_events s res.1) ->
              o = Raised TypeError).
  { subst res. rewrite (BuildExtraOutputHDUs_loop _ _ _ _ Hout).
    set (s0 := {| cfg := _; world := _; trace := _ |}).
    unfold bind.
    destruct (hdu_loop out (active_keys reg out) ∅ s0) as [s1 r1] eqn:El.
    apply (hdu_loop_base _ key eb b sw) in El as (evs & Ht & Hw & Hr);
      [|done..].
    specialize (Hr Hin Hmode). destruct r1 as [hdus|e]; [done|]. simpl.
    split; [done|]. by rewrite (new_events_app s s1 evs). }
  destruct Hloop as [Hbad Hw]. split; [done|]. intros o Ho.
  pose proof (Hw o Ho) as ->. split; [done|].
  by eapply fail_fast_raised_elem.
Qed.

(** ** Files kept by noclobber, and the record of last files *)

Lemma write_key_noclobber ntries dd logger key (s : St) out d :
  output (cfg s) = Some out ->
  out !! key = Some (Dict d) ->
  is_Some (d !! "file_name") ->
  let d' := SetDefaultExt d ".fits" in
  let c' := set_output (<[key := Dict d']> out) (cfg s) in
  isfile (world s) (resolve_path d' dd c') = true ->
  write_key ntries dd true logger key s =
  log_file_num logger LWarn key
    {| cfg := c'; world := world s; trace := trace s |}.
Proof.
  intros Hout Hk [fn Hfn] d' c' Hfile.
  unfold write_key, get_field, bind, get_cfg, require, ret. rewrite Hout, Hk.
  rewrite Hfn. simpl. rewrite Hout. simpl.
  unfold get_world. simpl. fold d'. fold c'. by rewrite Hfile.
Qed.

Lemma log_file_num_cases logger lvl key (s : St) :
  let res := log_file_num logger lvl key s in
  cfg res.1 = cfg s /\ world res.1 = world s /\
  hook_events (new_events s res.1) = [] /\
  (logger = false \/ is_Some (file_num (cfg s)) -> res.2 = Ok tt) /\
  (logger = true -> file_num (cfg s) = None ->
   res = (s, Raise (KeyError "file_num"))).
Proof.
  unfold log_file_num, when, bind, get_cfg, require, ret, raise, emit.
  destruct logger; simpl.
  - destruct (file_num (cfg s)) as [f|]; simpl.
    + split; [done|]. split; [done|]. split.
      * unfold new_events. simpl. by rewrite drop_app_length.
      * split; [done|]. by intros _ ?.
    + split; [done|]. split; [done|]. rewrite new_events_same.
      split; [done|]. split; [|done]. intros [?|[? ?]]; done.
  - split; [done|]. split; [done|]. rewrite new_events_same.
    split; [done|]. split; [done|]. by intros ?.
Qed.

(** The first active kind, kept by [noclobber]: it gets no hook call and
    its record stays; with a logger and no [file_num] the log line of the
    skip raises KeyError before any hook is called. *)
Lemma noclobber_first_kind reg logger (s : St) out key rest d :
  registry_wf reg ->
  output (cfg s) = Some out ->
  active_keys reg out = key :: rest ->
  out !! key = Some (Dict d) ->
  is_Some (d !! "file_name") ->
  let c := set_index_key "file_num" (cfg s) in
  let d' := SetDefaultExt d ".fits" in
  let c' := set_output (<[key := Dict d']> out) (cfg (write_start s)) in
  write_noclobber out c = true ->
  isfile (world s) (resolve_path d' (write_default_dir out c) c') = true ->
  let res := WriteExtraOutputs reg logger s in
  hooks_of key (new_events s res.1) = [] /\
  last_file (cfg res.1) key = last_file (cfg s) key /\
  (logger = true -> file_num (cfg s) = None ->
   res.2 = Raise (KeyError "file_num") /\
   hook_events (new_events s res.1) = []).
Proof.
  intros Hwf Hout Hkeys Hk Hfn c d' c' Hnc Hfile res. subst res.
  assert (Hnd : NoDup (key :: rest)).
  { rewrite <- Hkeys. by apply active_keys_NoDup. }
  apply NoDup_cons in Hnd as [Hkey Hnd].
  set (s0 := write_start s).
  assert (Hout0 : output (cfg s0) = Some out).
  { subst s0. by rewrite write_start_output. }
  set (s1 := {| cfg := c'; world := world s0; trace := trace s0 |}).
  assert (Hrun : WriteExtraOutputs reg logger s =
    match log_file_num logger LWarn key s1 with
    | (s2, Ok _) =>
        for_each rest
          (write_key (write_ntries out c) (write_default_dir out c) true logger)
          s2
    | (s2, Raise e) => (s2, Raise e)
    end).
  { rewrite (WriteExtraOutputs_loop _ _ _ _ Hout). fold c.
    rewrite Hkeys, Hnc. simpl for_each. unfold bind. fold s0.
    by rewrite (write_key_noclobber _ _ _ _ s0 out d Hout0 Hk Hfn). }
  rewrite Hrun. clear Hrun.
  pose proof (log_file_num_cases logger LWarn key s1) as Hlog.
  cbv zeta in Hlog.
  destruct (log_file_num logger LWarn key s1) as [s2 r2] eqn:El.
  simpl in Hlog. destruct Hlog as (Hc2 & Hw2 & Hev2 & Hok2 & Hbad2).
  assert (Hlast1 : forall k, last_file (cfg s1) k = last_file (cfg s) k).
  { intros k. subst s1 c'. simpl. unfold last_file. simpl.
    apply (write_start_last_file s k). }
  assert (Hfnum : file_num (cfg s1) = file_num (cfg s)).
  { subst s1 c' s0. simpl. unfold write_start. simpl. by case_bool_decide. }
  assert (Ht1 : trace s1 = trace s) by done.
  assert (Hev02 : exists evs1, trace s2 = trace s ++ evs1 /\ hook_events evs1 = []).
  { apply log_file_num_run in El as (_ & evs1 & Ht & Hh). exists evs1.
    by rewrite <- Ht1. }
  destruct Hev02 as (evs1 & Ht12 & Hh1).
  destruct r2 as [[]|e]; cbv beta iota.
  - destruct (for_each rest _ s2) as [s3 r3] eqn:Erest.
    apply (write_loop_spec _ _ _ _ _ Hnd) in Erest as [evs2 P].
    simpl.
    assert (Hnew : new_events s s3 = evs1 ++ evs2).
    { apply new_events_app. rewrite (wl_trace _ _ _ _ _ _ P), Ht12.
      by rewrite app_assoc. }
    rewrite Hnew. split.
    + rewrite hooks_of_app. rewrite (hooks_of_other key evs1).
      2:{ intros h Hin. rewrite Hh1 in Hin. by apply elem_of_nil in Hin. }
      apply hooks_of_other. intros h Hin Heq. apply Hkey. rewrite <- Heq.
      by eapply write_loop_keys.
    + split.
      * rewrite (wl_record_other _ _ _ _ _ _ P key Hkey).
        unfold last_file. rewrite Hc2. apply Hlast1.
      * intros -> Hnone. rewrite <- Hfnum in Hnone.
        by specialize (Hbad2 eq_refl Hnone).
  - simpl. rewrite (new_events_app s s2 evs1) by done. split.
    + apply hooks_of_other. intros h Hin. rewrite Hh1 in Hin.
      by apply elem_of_nil in Hin.
    + split.
      * unfold last_file. rewrite Hc2. apply Hlast1.
      * intros -> Hnone. rewrite <- Hfnum in Hnone.
        specialize (Hbad2 eq_refl Hnone). by simplify_eq.
Qed.

(** X16: the record of last files.  After [WriteExtraOutputs] on a
    configuration with an [output] section, [config['extra_last_file']]
    exists, also when nothing was written or the function raised; no entry
    of it was removed; and the entry of a name that is not an active kind, or
    of a kind without a [file_name], is what it was. *)
Theorem X16_record_of_last_files reg logger (s : St) out :
  registry_wf reg ->
  output (cfg s) = Some out ->
  let res := WriteExtraOutputs reg logger s in
  is_Some (extra_last_file (cfg res.1)) /\
  (forall key, is_Some (last_file (cfg s) key) ->
               is_Some (last_file (cfg res.1) key)) /\
  (forall key, key ∉ active_keys reg out ->
               last_file (cfg res.1) key = last_file (cfg s) key) /\
  (forall key, ~ file_mode out key ->
               last_file (cfg res.1) key = last_file (cfg s) key).
Proof.
  intros Hwf Hout res.
  pose proof (WriteExtraOutputs_facts reg logger s out Hwf Hout) as P.
  cbv zeta in P. fold res in P.
  assert (Hrec : forall key,
    last_file (cfg res.1) key = last_file (cfg s) key \/
    exists p, last_file (cfg res.1) key = Some p /\
      (key, CWriteFile p, Returned None) ∈ hook_events (new_events s res.1)).
  { intros key. rewrite <- (write_start_last_file s key).
    apply (wl_record _ _ _ _ _ _ P). }
  split.
  { apply (wl_record_kept _ _ _ _ _ _ P). unfold write_start. simpl.
    case_bool_decide as Hn; simpl; [by eexists|].
    by destruct (extra_last_file (cfg s)). }
  split.
  { intros key Hs. destruct (Hrec key) as [->|(p & -> & _)]; [done|by eexists]. }
  split.
  - intros key Hno. destruct (Hrec key) as [Heq|(p & _ & Hin)]; [done|].
    exfalso. apply Hno. apply (write_loop_keys _ _ _ _ _ _ _ P Hin).
  - intros key Hnm. destruct (Hrec key) as [Heq|(p & _ & Hin)]; [done|].
    exfalso.
    assert (Hout0 : output (cfg (write_start s)) = Some out).
    { by rewrite write_start_output. }
    pose proof (wl_no_target _ _ _ _ _ _ P out key Hout0 Hnm) as Hnil.
    assert (Hin' : (key, CWriteFile p, Returned None)
                     ∈ hooks_of key (new_events s res.1)).
    { by apply hooks_of_elem. }
    rewrite Hnil in Hin'. by apply elem_of_nil in Hin'.
Qed.

(** X17: the entries [ProcessExtraOutputsForImage] reads.  They are read on
    the first pass through the loop over the kinds, in the order [file_num],
    [image_num], [start_image_num], [start_obj_num], [nobj]: when a kind is
    active, the first one that is missing is the KeyError raised, before any
    builder is looked up or called, and [file_num] is required although it
    is not used; when no kind is active none of them is read and the
    function returns. *)
Theorem X17_image_entries_are_read_on_the_first_pass reg (s : St) out :
  output (cfg s) = Some out ->
  let res := ProcessExtraOutputsForImage reg s in
  (active_keys reg out = [] -> res = (s, Ok tt)) /\
  (active_keys reg out <> [] ->
   forall k, first_missing (cfg s) = Some k -> res = (s, Raise (KeyError k))).
Proof.
  intros Hout res. subst res.
  unfold ProcessExtraOutputsForImage, bind, get_cfg. rewrite Hout. split.
  - by intros ->.
  - intros Hne k Hk. destruct (active_keys reg out) as [|key rest]; [done|].
    simpl. unfold bind, image_obj_nums, bind, get_cfg, require, ret, raise.
    unfold first_missing in Hk.
    destruct (file_num (cfg s)); [|by simplify_eq].
    destruct (image_num (cfg s)); [|by simplify_eq].
    destruct (start_image_num (cfg s)); [|by simplify_eq].
    destruct (start_obj_num (cfg s)); [|by simplify_eq].
    destruct (nobj (cfg s)); [done|by simplify_eq].
Qed.

(** ** Loops that call one hook per kind, call by call *)

Lemma called_in_order_nil c : called_in_order c [] [] (Ok tt).
Proof. by left. Qed.

Lemma called_in_order_cons c k rest hs r :
  called_in_order c rest hs r ->
  called_in_order c (k :: rest) ((k, c, Returned None) :: hs) r.
Proof.
  intros [[-> ->]|(pre & key & post & e & -> & -> & ->)].
  - by left.
  - right. by exists (k :: pre), key, post, e.
Qed.

Lemma called_in_order_raise c k rest e :
  called_in_order c (k :: rest) [(k, c, Raised e)] (Raise e).
Proof. right. by exists [], k, rest, e. Qed.

Lemma image_loop_exact keys :
  forall on (s s' : St) r objs img img0,
    image_loop keys on s = (s', r) ->
    image_num (cfg s) = Some img ->
    start_image_num (cfg s) = Some img0 ->
    (on = Some objs \/ (on = None /\ image_obj_nums s = (s, Ok objs))) ->
    (forall key, key ∈ keys -> ready (cfg s) key) ->
    exists evs, trace s' = trace s ++ evs /\
      called_in_order (CProcessImage (img - img0) objs) keys (hook_events evs) r.
Proof.
  induction keys as [|k rest IH]; intros on s s' r objs img img0 Hrun Hi Hi0 Hon Hready.
  - simpl in Hrun. unfold ret in Hrun. simplify_eq. exists [].
    rewrite app_nil_r. split; [done|apply called_in_order_nil].
  - simpl in Hrun.
    destruct (Hready k) as [(eb & Heb & [b Hb]) (out & Hout & [field Hfield])];
      [left|].
    apply bind_inv in Hrun as [(s1 & objs' & Hobj & Hrun)|(e & Hobj & ->)].
    2:{ destruct Hon as [->|[-> Hnums]].
        - unfold ret in Hobj. simplify_eq.
        - rewrite Hnums in Hobj. simplify_eq. }
    assert (s1 = s /\ objs' = objs) as [-> ->].
    { destruct Hon as [->|[-> Hnums]].
      - unfold ret in Hobj. by simplify_eq.
      - rewrite Hnums in Hobj. by simplify_eq. }
    clear Hobj.
    minv; inv_calls; simplify_eq.
    + match goal with
      | Hc : cfg ?y = cfg ?x, Hl : image_loop _ _ ?y = _,
        Hn : image_num (cfg ?x) = Some ?i,
        Hn0 : start_image_num (cfg ?x) = Some ?i0 |- _ =>
          apply (IH (Some objs) y s' r objs i i0) in Hl as (evs2 & Ht2 & Hcalls);
          [|by rewrite Hc|by rewrite Hc|by left
           |intros key Hin; rewrite Hc; apply Hready; by right]
      end.
      eexists ([_] ++ evs2). split; [trace_eq|].
      rewrite hook_events_app. simpl. by apply called_in_order_cons.
    + eexists [_]. split; [trace_eq|]. simpl. apply called_in_order_raise.
Qed.

Lemma ProcessExtraOutputsForImage_exact reg (s : St) out img img0 objs :
  output (cfg s) = Some out ->
  image_num (cfg s) = Some img ->
  start_image_num (cfg s) = Some img0 ->
  image_obj_nums s = (s, Ok objs) ->
  (forall key, key ∈ active_keys reg out -> ready (cfg s) key) ->
  let res := ProcessExtraOutputsForImage reg s in
  called_in_order (CProcessImage (img - img0) objs) (active_keys reg out)
    (hook_events (new_events s res.1)) res.2.
Proof.
  intros Hout Hi Hi0 Hnums Hready res. subst res.
  unfold ProcessExtraOutputsForImage, bind, get_cfg. rewrite Hout.
  destruct (image_loop (active_keys reg out) None s) as [s' r] eqn:Hrun.
  apply (image_loop_exact _ _ _ _ _ objs img img0) in Hrun
    as (evs & Ht & Hcalls); [|done|done|by right|done].
  simpl. by rewrite (new_events_app s s' evs Ht).
Qed.

(** C7: the arguments of [processImage].  For an image at position
    [k = image_num - start_image_num] of a file, with [0 <= k < len(nobj)],
    on a configuration in which the builders of the active kinds are set up,
    [ProcessExtraOutputsForImage] calls [processImage] once on each active
    kind, in registry order, until a call raises (which is then what the
    function raises) and otherwise on all of them, and then returns.  Every
    call receives the index [k] and the object numbers that start at
    [start_obj_num] plus the counts of the earlier images of the file and
    are [nobj[k]] consecutive numbers. *)
Theorem C7_process_image_arguments reg (s : St) out f img img0 obj0 counts n :
  output (cfg s) = Some out ->
  file_num (cfg s) = Some f ->
  image_num (cfg s) = Some img ->
  start_image_num (cfg s) = Some img0 ->
  start_obj_num (cfg s) = Some obj0 ->
  nobj (cfg s) = Some counts ->
  let k := img - img0 in
  0 <= k < Z.of_nat (length counts) ->
  counts !! Z.to_nat k = Some n ->
  0 <= n ->
  (forall key, key ∈ active_keys reg out -> ready (cfg s) key) ->
  let first_obj := obj0 + sum_counts (take (Z.to_nat k) counts) in
  let obj_nums := py_range first_obj (first_obj + n) in
  let res := ProcessExtraOutputsForImage reg s in
  called_in_order (CProcessImage k obj_nums) (active_keys reg out)
    (hook_events (new_events s res.1)) res.2 /\
  length obj_nums = Z.to_nat n /\
  (forall i, (i < Z.to_nat n)%nat -> obj_nums !! i = Some (first_obj + Z.of_nat i)).
Proof.
  intros Hout Hf Hi Hi0 Ho Hn k Hk Hnk Hpos Hready first_obj obj_nums res.
  split; [|split].
  - apply ProcessExtraOutputsForImage_exact; try done.
    by apply (image_obj_nums_in_range s f img img0 obj0 counts n).
  - unfold obj_nums, py_range. rewrite length_seqZ. lia.
  - intros i Hlt. unfold obj_nums, py_range. apply lookup_seqZ. lia.
Qed.

(** X11: an image before the start of the file.  When [image_num] is below
    [start_image_num] by at most the length of [config['nobj']], on a
    configuration in which the builders of the active kinds are set up, no
    IndexError is raised: the position [k] is negative, no count is added to
    [start_obj_num], and [nobj[k]] is read from the end of the list.
    [processImage] is called once on each active kind, in registry order,
    with the negative index [k] and the object numbers from [start_obj_num]
    on, [nobj[len + k]] of them; the function returns when all the calls
    have returned, and raises only what a call raised. *)
Theorem X11_image_before_start_wraps reg (s : St) out f img img0 obj0 counts n :
  output (cfg s) = Some out ->
  file_num (cfg s) = Some f ->
  image_num (cfg s) = Some img ->
  start_image_num (cfg s) = Some img0 ->
  start_obj_num (cfg s) = Some obj0 ->
  nobj (cfg s) = Some counts ->
  let k := img - img0 in
  - Z.of_nat (length counts) <= k < 0 ->
  counts !! Z.to_nat (Z.of_nat (length counts) + k) = Some n ->
  (forall key, key ∈ active_keys reg out -> ready (cfg s) key) ->
  let res := ProcessExtraOutputsForImage reg s in
  called_in_order (CProcessImage k (py_range obj0 (obj0 + n)))
    (active_keys reg out) (hook_events (new_events s res.1)) res.2.
Proof.
  intros Hout Hf Hi Hi0 Ho Hn k Hk Hnk Hready res.
  apply ProcessExtraOutputsForImage_exact; try done.
  by apply (image_obj_nums_negative s f img img0 obj0 counts n).
Qed.

(** ** The setup loop, call by call *)

Lemma new_workspace um n :
  CInitialize (new_data um n) (new_scratch um) = workspace (backing_of um) n.
Proof.
  unfold workspace, new_data, new_scratch, backing_of. f_equal. f_equal.
  apply (new_data_items um n).
Qed.

Lemma setup_key_exact reg um logger key (s s' : St) r n out field b eb :
  setup_key reg um logger key s = (s', r) ->
  nimages (cfg s) = Some n ->
  output (cfg s) = Some out ->
  out !! key = Some field ->
  reg_lookup reg key = Some b ->
  extra_builder (cfg s) = Some eb ->
  exists evs o,
    trace s' = trace s ++ evs /\
    hook_events evs = [(key, workspace (backing_of um) n, o)] /\
    ((r = Ok tt /\ o = Returned None /\
      cfg s' = set_extra_builder (<[key := b]> eb) (cfg s)) \/
     (exists e, r = Raise e /\ o = Raised e)).
Proof.
  intros Hrun Hn Hout Hfield Hreg Heb.
  unfold setup_key, log, when in Hrun.
  destruct logger; minv; inv_calls; cfg_eq; simplify_eq;
    rewrite ?new_workspace in *.
  - eexists [_; _; _], _. split; [trace_eq|]. split; [done|]. left.
    split; [|done]. match goal with |- Ok ?u = Ok tt => by destruct u end.
  - eexists [_; _], _. split; [trace_eq|]. split; [done|]. right. eauto.
  - eexists [_], _. split; [trace_eq|]. split; [done|]. left.
    split; [|done]. match goal with |- Ok ?u = Ok tt => by destruct u end.
  - eexists [_], _. split; [trace_eq|]. split; [done|]. right. eauto.
Qed.

Lemma setup_loop_exact reg um logger n out keys :
  forall (s s' : St) r eb,
    for_each keys (setup_key reg um logger) s = (s', r) ->
    nimages (cfg s) = Some n ->
    output (cfg s) = Some out ->
    extra_builder (cfg s) = Some eb ->
    (forall key, key ∈ keys ->
       is_Some (out !! key) /\ is_Some (reg_lookup reg key)) ->
    exists evs, trace s' = trace s ++ evs /\
      called_in_order (workspace (backing_of um) n) keys (hook_events evs) r.
Proof.
  induction keys as [|k rest IH]; intros s s' r eb Hrun Hn Hout Heb Hkeys.
  - simpl in Hrun. unfold ret in Hrun. simplify_eq. exists [].
    rewrite app_nil_r. split; [done|apply called_in_order_nil].
  - destruct (Hkeys k) as [[field Hfield] [b Hb]]; [left|].
    apply for_each_cons_inv in Hrun as [(s1 & Hk & Hrest)|(e & Hk & ->)].
    + destruct (setup_key_exact _ _ _ _ _ _ _ n out field b eb Hk)
        as (evs1 & o & Ht1 & Hh1 & [(_ & -> & Hc1)|(e & ? & _)]);
        try done.
      apply (IH s1 s' r (<[k := b]> eb)) in Hrest as (evs2 & Ht2 & Hcalls);
        try (by rewrite Hc1).
      2:{ intros key Hin. apply Hkeys. by right. }
      exists (evs1 ++ evs2). split; [rewrite Ht2, Ht1; by rewrite app_assoc|].
      rewrite hook_events_app, Hh1. simpl. by apply called_in_order_cons.
    + destruct (setup_key_exact _ _ _ _ _ _ _ n out field b eb Hk)
        as (evs1 & o & Ht1 & Hh1 & [(? & _)|(e' & [= <-] & ->)]);
        try done.
      exists evs1. split; [done|]. rewrite Hh1. apply called_in_order_raise.
Qed.

Lemma use_manager_iff (c : Config) :
  use_manager c = true <->
  current_nproc c = None /\
  exists img, image c = Some img /\ is_Some (img !! "nproc") /\
              ParseValue_int img "nproc" c <> 1.
Proof.
  unfold use_manager.
  destruct (current_nproc c) as [n|]; [split; [done|by intros [? _]]|].
  destruct (image c) as [img|]; [|split; [done|by intros [_ (?&?&_)]]].
  destruct (img !! "nproc") as [e|] eqn:En.
  - rewrite bool_decide_eq_true. split.
    + intros Hne. split; [done|]. exists img. rewrite En. eauto.
    + intros [_ (img' & [= <-] & _ & Hne)]. done.
  - split; [done|]. intros [_ (img' & [= <-] & Hs & _)].
    rewrite En in Hs. by destruct Hs.
Qed.

Lemma SetupExtraOutput_exact reg logger (s : St) out n :
  output (cfg s) = Some out ->
  nimages (cfg s) = Some n ->
  let res := SetupExtraOutput reg logger s in
  called_in_order (workspace (backing_of (use_manager (cfg s))) n)
    (active_keys reg out) (hook_events (new_events s res.1)) res.2.
Proof.
  intros Hout Hn res. subst res.
  rewrite (SetupExtraOutput_loop _ _ _ _ Hout).
  destruct (for_each _ _ (setup_start s)) as [s' r] eqn:Hrun.
  destruct (setup_start_unset s) as (_ & Ho & _ & _ & _ & Hni & _).
  destruct (setup_loop_exact reg (use_manager (cfg s)) logger n out _ _ _ _
              (default ∅ (extra_builder (cfg s))) Hrun)
    as (evs & Ht & Hcalls).
  - by rewrite Hni.
  - by rewrite Ho.
  - apply setup_start_builders.
  - intros key Hin. unfold active_keys in Hin.
    apply list_elem_of_filter in Hin as [Hout' Hreg]. split; [done|].
    destruct (reg_lookup reg key) as [b|] eqn:Eb; [by eexists|].
    apply reg_lookup_None in Eb. done.
  - simpl. by rewrite (new_events_app s s' evs Ht).
Qed.

(** C3: the choice of the work space at file setup.  On a configuration
    with an [output] section and [nimages], [SetupExtraOutput] calls
    [initialize] once on each active kind, in registry order, until a call
    raises and otherwise on all of them, and then returns.  When the run is
    not already inside a worker process ([current_nproc] absent) and the
    number of processes for image construction is configured and resolves to
    something other than 1, every call receives a data list and a scratch
    dict that are proxies of the manager, which is then there; in every
    other case every call receives a plain list and a plain dict. *)
Theorem C3_shared_workspace_choice reg logger (s : St) out n :
  output (cfg s) = Some out ->
  nimages (cfg s) = Some n ->
  let c := cfg s in
  let shared :=
    current_nproc c = None /\
    exists img, image c = Some img /\ is_Some (img !! "nproc") /\
                ParseValue_int img "nproc" c <> 1 in
  let res := SetupExtraOutput reg logger s in
  let calls := hook_events (new_events s res.1) in
  (use_manager c = true <-> shared) /\
  (shared ->
   called_in_order (workspace Proxy n) (active_keys reg out) calls res.2 /\
   is_Some (output_manager (cfg res.1))) /\
  (~ shared ->
   called_in_order (workspace Plain n) (active_keys reg out) calls res.2).
Proof.
  intros Hout Hn c shared res calls.
  pose proof (use_manager_iff c) as Hiff. fold shared in Hiff.
  pose proof (SetupExtraOutput_exact reg logger s out n Hout Hn) as Hcalls.
  cbv zeta in Hcalls. fold c res calls in Hcalls.
  destruct (SetupExtraOutput_facts reg logger s out Hout)
    as (eb' & Hun & Hom & _).
  fold res in Hom.
  split; [done|]. split.
  - intros Hs. apply Hiff in Hs. rewrite Hs in Hcalls. split; [done|].
    apply Hom. by left.
  - intros Hs. destruct (use_manager c) eqn:Hum; [destruct Hs; by apply Hiff|].
    done.
Qed.

(** ** The write loop, call by call *)




Lemma log_file_num_ok lg lvl key (s : St) :
  lg = false \/ is_Some (file_num (cfg s)) ->
  exists s' logs, log_file_num lg lvl key s = (s', Ok tt) /\
    cfg s' = cfg s /\ world s' = world s /\
    trace s' = trace s ++ logs /\ hook_events logs = [].
Proof.
  intros Hlg. unfold log_file_num, when, bind, get_cfg, require, ret, emit.
  destruct lg.
  - destruct Hlg as [?|[f Hf]]; [done|]. rewrite Hf.
    eexists _, [ELog lvl key]. by repeat split.
  - exists s, []. rewrite app_nil_r. by repeat split.
Qed.










Lemma write_start_facts (s : St) :
  extra_builder (cfg (write_start s)) = extra_builder (cfg s) /\
  file_num (cfg (write_start s)) = file_num (cfg s) /\
  is_Some (extra_last_file (cfg (write_start s))) /\
  world (write_start s) = world s /\ trace (write_start s) = trace s.
Proof.
  unfold write_start. simpl. case_bool_decide as Hn; simpl.
  - repeat split; by eexists.
  - repeat split. by destruct (extra_last_file (cfg s)).
Qed.




(** X15: a file kept by [noclobber].  When [output.noclobber] is on and the
    resolved path of the first active kind is an existing file when
    [WriteExtraOutputs] is called, that kind is neither finalized nor
    written and its record of the last file stays as it was.  The skip is
    logged with [config['file_num']]: with a logger and no [file_num] the
    function raises KeyError there, before any hook is called.  Otherwise
    the loop goes on with the next kind: what [WriteExtraOutputs] does and
    returns is what the passes for the remaining kinds do and return, from
    a state in which the field of the skipped kind has been handed to
    [SetDefaultExt] and nothing else has happened but the log line. *)
Theorem X15_noclobber_keeps_an_existing_file reg logger (s : St) out key rest d :
  registry_wf reg ->
  output (cfg s) = Some out ->
  active_keys reg out = key :: rest ->
  out !! key = Some (Dict d) ->
  is_Some (d !! "file_name") ->
  let c := set_index_key "file_num" (cfg s) in
  let d' := SetDefaultExt d ".fits" in
  let c' := set_output (<[key := Dict d']> out) (cfg (write_start s)) in
  write_noclobber out c = true ->
  isfile (world s) (resolve_path d' (write_default_dir out c) c') = true ->
  let res := WriteExtraOutputs reg logger s in
  hooks_of key (new_events s res.1) = [] /\
  last_file (cfg res.1) key = last_file (cfg s) key /\
  (logger = true -> file_num (cfg s) = None ->
   res.2 = Raise (KeyError "file_num") /\
   hook_events (new_events s res.1) = []) /\
  (logger = false \/ is_Some (file_num (cfg s)) ->
   exists s1,
     cfg s1 = c' /\ world s1 = world s /\
     hook_events (new_events s s1) = [] /\
     res = for_each rest
             (write_key (write_ntries out c) (write_default_dir out c) true
                logger) s1).
Proof.
  intros Hwf Hout Hkeys Hk Hfn c d' c' Hnc Hfile res.
  destruct (noclobber_first_kind reg logger s out key rest d Hwf Hout Hkeys
              Hk Hfn Hnc Hfile) as (Hq & Hlast & Hbad).
  split; [exact Hq|]. split; [exact Hlast|]. split; [exact Hbad|].
  intros Hlg. subst res.
  destruct (write_start_facts s) as (_ & Hfn0 & _ & Hw0 & Ht0).
  set (s0 := write_start s) in *.
  assert (Hout0 : output (cfg s0) = Some out).
  { subst s0. by rewrite write_start_output. }
  set (t1 := {| cfg := c'; world := world s0; trace := trace s0 |}).
  destruct (log_file_num_ok logger LWarn key t1)
    as (s1 & logs & Hlog & Hc1 & Hw1 & Ht1 & Hlogs).
  { change (logger = false \/ is_Some (file_num (cfg s0))). by rewrite Hfn0. }
  exists s1. split; [done|]. split; [by rewrite Hw1|]. split.
  { rewrite (new_events_app s s1 logs); [done|]. rewrite Ht1.
    change (trace t1) with (trace s0). by rewrite Ht0. }
  rewrite (WriteExtraOutputs_loop _ _ _ _ Hout). fold c.
  rewrite Hkeys, Hnc. simpl for_each. unfold bind. fold s0.
  rewrite (write_key_noclobber _ _ _ _ s0 out d Hout0 Hk Hfn).
  - fold d'. fold c'. fold t1. by rewrite Hlog.
  - fold d'. fold c'. by rewrite Hw0.
Qed.

(** ** A file build in which nothing fails *)







End Runs.

(** ** Runs of the concrete instance *)

#[local] Existing Instances demo_sig demo_ext.

(** The registry is a dict: no name is registered twice. *)
Lemma demo_registry_wf : registry_wf demo_registry.
Proof. apply (bool_decide_unpack _). by vm_compute. Qed.

(** [badpix] is registered and absent from [output]; [retry_io] is a key
    of [output] and no kind. *)
Lemma demo_active_keys :
  active_keys demo_registry demo_output = ["psf"; "weight"; "truth"].
Proof. by vm_compute. Qed.

Lemma demo_hdu_active_keys :
  active_keys demo_registry demo_hdu_output = ["psf"; "weight"; "badpix"].
Proof. by vm_compute. Qed.

Lemma demo_hdu_slots c :
  hdu_slots c demo_hdu_output ["psf"; "weight"; "badpix"]
  = [("psf", 2); ("weight", 1); ("badpix", 3)].
Proof. reflexivity. Qed.

(** With slots 2, 1 and 3 and [first = 1] the artifacts come back in slot
    order: [weight], [psf], [badpix]. *)
Example demo_hdus_in_slot_order :
  (BuildExtraOutputHDUs demo_registry 1
     (demo_state (demo_with_output demo_hdu_output))).2
  = Ok ["hdu of builder 1"; "hdu of builder 0"; "hdu of builder 2"].
Proof. by vm_compute. Qed.

(** With slots 1 and 3 and [first = 1] the gap at 2 is an error, raised
    after both builders were called. *)
Example demo_hdus_gap_raises :
  let res := BuildExtraOutputHDUs demo_registry 1
               (demo_state (demo_with_output demo_gap_output)) in
  res.2 = Raise ValueError /\
  hook_keys (trace res.1) = ["psf"; "psf"; "weight"; "weight"].
Proof. by vm_compute. Qed.

(** Two transient failures and two retries allowed: the third attempt puts
    the file on disk and the record of last files is updated. *)
Example demo_write_after_retries :
  let res := WriteExtraOutputs demo_registry false
               (demo_flaky_state (demo_with_output demo_output) 2) in
  res.2 = Ok tt /\
  files (world res.1) = ["psf.fits"] /\
  last_file (cfg res.1) "psf" = Some "psf.fits" /\
  hook_events (trace res.1)
  = [("psf", CFinalize, Returned None);
     ("psf", CWriteFile "psf.fits", Raised IOError);
     ("psf", CWriteFile "psf.fits", Raised IOError);
     ("psf", CWriteFile "psf.fits", Returned None)].
Proof. by vm_compute. Qed.

(** A third failure exhausts the attempts: the error reaches the caller and
    nothing is recorded. *)
Example demo_write_exhausted :
  let res := WriteExtraOutputs demo_registry false
               (demo_flaky_state (demo_with_output demo_output) 3) in
  res.2 = Raise IOError /\
  files (world res.1) = [] /\
  last_file (cfg res.1) "psf" = None.
Proof. by vm_compute. Qed.

(** C9 on a run that writes [psf.fits]. *)
Lemma C9_record_updated_only_after_write_witness :
  let s := demo_state (demo_with_output demo_output) in
  let s' := (WriteExtraOutputs demo_registry false s).1 in
  let evs := new_events s s' in
  registry_wf demo_registry /\
  (last_file (cfg s') "psf" = last_file (cfg s) "psf" \/
   exists p, last_file (cfg s') "psf" = Some p /\
             ("psf", CWriteFile p, Returned None) ∈ hook_events evs) /\
  ((forall p o, ("psf", CWriteFile p, o) ∈ hook_events evs ->
                o <> Returned None) ->
   last_file (cfg s') "psf" = last_file (cfg s) "psf").
Proof.
  split; [exact demo_registry_wf|].
  exact (C9_record_updated_only_after_write demo_registry false
           (demo_state (demo_with_output demo_output)) "psf"
           demo_registry_wf).
Defined.

(** C4 on two runs of the write phase in a row: the first one writes
    [psf.fits], the second one does not call [writeFile] for it. *)
Lemma C4_duplicate_write_suppressed_witness :
  let s := demo_state (demo_with_output demo_output) in
  let s1 := (WriteExtraOutputs demo_registry false s).1 in
  let s3 := (WriteExtraOutputs demo_registry false s1).1 in
  ("psf", CWriteFile "psf.fits", Returned None)
    ∈ hook_events (new_events s s1) /\
  forall o, ("psf", CWriteFile "psf.fits", o)
              ∉ hook_events (new_events s1 s3).
Proof.
  intros s s1 s3.
  assert (Hw : ("psf", CWriteFile "psf.fits", Returned None)
                 ∈ hook_events (new_events s s1)).
  { vm_compute. repeat constructor. }
  split; [exact Hw|].
  exact (C4_duplicate_write_suppressed demo_registry false false s s1
           "psf" "psf.fits" demo_registry_wf Hw eq_refl).
Defined.

(** C2 on the slots 2, 1 and 3 with [first = 1]. *)
Lemma C2_hdu_slots_validated_witness :
  let s := demo_state (demo_with_output demo_hdu_output) in
  let slots := [("psf", 2); ("weight", 1); ("badpix", 3)] in
  let res := BuildExtraOutputHDUs demo_registry 1 s in
  (is_ok res.2 = false <->
   ~ (Forall (fun z => 0 < z) slots.*2 /\ contiguous_run 1 slots.*2)) /\
  (forall hdulist, res.2 = Ok hdulist ->
     length hdulist = length slots /\
     forall key z, (key, z) ∈ slots ->
       exists a, hdulist !! Z.to_nat (z - 1) = Some a /\
                 (key, CWriteHdu, Returned (Some a))
                   ∈ hook_events (new_events s res.1)).
Proof.
  pose proof (C2_hdu_slots_validated demo_registry 1
                (demo_state (demo_with_output demo_hdu_output))
                demo_hdu_output eq_refl) as Hc.
  cbv zeta in Hc. rewrite demo_hdu_active_keys, demo_hdu_slots in Hc.
  apply Hc.
  - apply Forall_forall. repeat constructor; eexists; reflexivity.
  - apply Forall_forall.
    repeat constructor; exists demo_builders; eexists;
      (split; [reflexivity|split; [reflexivity|]]);
      intros field base w; split; reflexivity.
Defined.

(** C2 as the spec has it fails for [first = 0]: the single slot 0 is a
    duplicate-free run of consecutive numbers starting at 0, and
    [BuildExtraOutputHDUs] raises all the same, since it refuses every slot
    that is not positive. *)
Lemma C2_contiguous_run_raises_iff_counterexample :
  let s := demo_state (demo_with_output demo_zero_output) in
  let c := set_index_key "file_num" (cfg s) in
  let slots :=
    hdu_slots c demo_zero_output (active_keys demo_registry demo_zero_output) in
  slots = [("psf", 0)] /\
  contiguous_run 0 slots.*2 /\
  is_ok (BuildExtraOutputHDUs demo_registry 0 s).2 = false.
Proof.
  split; [by vm_compute|]. split; [|by vm_compute].
  apply (bool_decide_unpack _). by vm_compute.
Qed.


(** C10 on a [psf] field of type [NumberedFile] without an [ext]. *)
Lemma C10_index_key_and_frame_witness :
  let s := demo_state (demo_with_output demo_numbered_output) in
  let w := WriteExtraOutputs demo_registry false s in
  let h := BuildExtraOutputHDUs demo_registry 1 s in
  let s0 := {| cfg := set_index_key "file_num" (cfg s); world := world s;
               trace := trace s |} in
  registry_wf demo_registry /\
  index_key (cfg w.1) = Some "file_num" /\
  index_key (cfg h.1) = Some "file_num" /\
  (output (cfg s) = None -> w = (s0, Ok tt) /\ h = (s0, Ok [])) /\
  same_unwritten (cfg s) (cfg w.1) /\
  (forall out, output (cfg s) = Some out ->
     defaulted_on (active_keys demo_registry out) (Some out)
       (output (cfg w.1))) /\
  cfg h.1 = set_index_key "file_num" (cfg s).
Proof.
  split; [exact demo_registry_wf|].
  exact (C10_index_key_and_frame demo_registry false 1
           (demo_state (demo_with_output demo_numbered_output))
           demo_registry_wf).
Defined.

(** C10 as the spec has it fails on a [psf] field of type [NumberedFile]
    with a [file_name] and no [ext]: [WriteExtraOutputs] hands the field to
    [SetDefaultExt], which stores the extension in it, so [config['output']]
    is not what it was. *)
Lemma C10_output_entry_modified_counterexample :
  let s := demo_state (demo_with_output demo_numbered_output) in
  let w := WriteExtraOutputs demo_registry false s in
  demo_psf_ext (output (cfg s)) = None /\
  demo_psf_ext (output (cfg w.1)) = Some (LStr ".fits") /\
  output (cfg w.1) <> output (cfg s).
Proof.
  intros s w.
  assert (Hs : demo_psf_ext (output (cfg s)) = None) by (by vm_compute).
  assert (Hw : demo_psf_ext (output (cfg w.1)) = Some (LStr ".fits"))
    by (by vm_compute).
  split; [exact Hs|]. split; [exact Hw|].
  intros Heq. rewrite Heq, Hs in Hw. discriminate.
Qed.

(** C6 on three active kinds out of four registered ones. *)
Lemma C6_active_kinds_in_registry_order_witness :
  let s := demo_state demo_image_config in
  let keys := ["psf"; "weight"; "truth"] in
  let per_kind : list (M unit) :=
    [SetupExtraOutput demo_registry false;
     SetupExtraOutputsForImage demo_registry;
     ProcessExtraOutputsForStamp demo_registry;
     ProcessExtraOutputsForImage demo_registry] in
  let evw := new_events s (WriteExtraOutputs demo_registry false s).1 in
  let evh := new_events s (BuildExtraOutputHDUs demo_registry 1 s).1 in
  (forall k, k ∈ keys <-> k ∈ (demo_registry.*1) /\ is_Some (demo_output !! k)) /\
  keys `sublist_of` (demo_registry.*1) /\
  (forall k v, k ∉ (demo_registry.*1) ->
     active_keys demo_registry (<[k := v]> demo_output) = keys) /\
  Forall (fun f : M unit =>
            hook_keys (new_events s (f s).1) `prefix_of` keys /\
            ((f s).2 = Ok tt -> hook_keys (new_events s (f s).1) = keys))
         per_kind /\
  (exists ns, length ns = length keys /\
              hook_keys evw = mjoin (zip_with replicate ns keys)) /\
  (exists ns, length ns = length keys /\
              hook_keys evh = mjoin (zip_with replicate ns keys)) /\
  (forall k, k ∉ keys ->
     Forall (fun f : M unit => k ∉ hook_keys (new_events s (f s).1)) per_kind /\
     (k ∉ hook_keys evw) /\ (k ∉ hook_keys evh)).
Proof.
  pose proof (C6_active_kinds_in_registry_order demo_registry false 1
                (demo_state demo_image_config) demo_output
                demo_registry_wf eq_refl) as Hc.
  cbv zeta in Hc. rewrite demo_active_keys in Hc. exact Hc.
Defined.

(** The per-kind hooks of the four lifecycle functions on the third image:
    every active kind is called, in registry order. *)
Example demo_image_hooks_in_registry_order :
  let s := demo_state demo_image_config in
  hook_keys (trace (SetupExtraOutputsForImage demo_registry s).1)
  = ["psf"; "weight"; "truth"] /\
  hook_keys (trace (ProcessExtraOutputsForStamp demo_registry s).1)
  = ["psf"; "weight"; "truth"] /\
  hook_keys (trace (ProcessExtraOutputsForImage demo_registry s).1)
  = ["psf"; "weight"; "truth"].
Proof. by vm_compute. Qed.

(** *** The registry, the setup and the image phase on the instance *)

(** X4 on a file of three images with three active kinds. *)
Lemma X4_setup_stores_builders_witness :
  let s := demo_state demo_image_config in
  let res := SetupExtraOutput demo_registry false s in
  same_unset (cfg s) (cfg res.1) /\
  (is_Some (output_manager (cfg res.1)) <->
     use_manager (cfg s) = true \/ is_Some (output_manager (cfg s))) /\
  exists eb', extra_builder (cfg res.1) = Some eb' /\
    (forall key, eb' !! key = default ∅ (extra_builder (cfg s)) !! key \/
       (key ∈ active_keys demo_registry demo_output /\ is_Some (eb' !! key) /\
        eb' !! key = reg_lookup demo_registry key)) /\
    (res.2 = Ok tt -> forall key, key ∈ active_keys demo_registry demo_output ->
       is_Some (eb' !! key) /\ eb' !! key = reg_lookup demo_registry key).
Proof.
  exact (X4_setup_stores_builders demo_registry false
           (demo_state demo_image_config) demo_output eq_refl).
Defined.

(** X5 with [nimages = 3]. *)
Lemma X5_setup_workspace_witness :
  let s := demo_state demo_image_config in
  Forall (fun h => exists data scratch,
            h.1.2 = CInitialize data scratch /\
            data_items data = replicate (Z.to_nat 3) None /\
            scratch_items scratch = ∅)
    (hook_events (new_events s (SetupExtraOutput demo_registry false s).1)).
Proof.
  exact (X5_setup_workspace demo_registry false
           (demo_state demo_image_config) 3 eq_refl).
Defined.

(** X6 on a configuration with active kinds and no [nimages]. *)
Lemma X6_setup_needs_nimages_witness :
  let s := demo_state (demo_with_output demo_output) in
  let res := SetupExtraOutput demo_registry false s in
  (active_keys demo_registry demo_output <> [] ->
   res.2 = Raise (KeyError "nimages")) /\
  (active_keys demo_registry demo_output = [] -> res.2 = Ok tt) /\
  hook_events (new_events s res.1) = [].
Proof.
  exact (X6_setup_needs_nimages demo_registry false
           (demo_state (demo_with_output demo_output)) demo_output
           eq_refl eq_refl).
Defined.

(** X8 after a setup that returns. *)
Lemma X8_setup_makes_the_image_phase_ready_witness :
  let s := demo_state demo_image_config in
  let s1 := (SetupExtraOutput demo_registry false s).1 in
  let keys := kinds_of demo_registry s in
  let img := SetupExtraOutputsForImage demo_registry s1 in
  let stamp := ProcessExtraOutputsForStamp demo_registry s1 in
  (SetupExtraOutput demo_registry false s).2 = Ok tt /\
  (forall key, key ∈ keys -> ready (cfg s1) key) /\
  ((img.2 = Ok tt /\
    hook_events (new_events s1 img.1)
    = (fun k => (k, CSetupImage, Returned None)) <$> keys) \/
   hook_failure (hook_events (new_events s1 img.1)) img.2) /\
  (forall n, obj_num (cfg s) = Some n ->
     (stamp.2 = Ok tt /\
      hook_events (new_events s1 stamp.1)
      = (fun k => (k, CProcessStamp n, Returned None)) <$> keys) \/
     hook_failure (hook_events (new_events s1 stamp.1)) stamp.2).
Proof.
  assert (Hok : (SetupExtraOutput demo_registry false
                   (demo_state demo_image_config)).2 = Ok tt)
    by (by vm_compute).
  split; [exact Hok|].
  exact (X8_setup_makes_the_image_phase_ready demo_registry false
           (demo_state demo_image_config) Hok).
Defined.

(** X9 with [obj_num = 130]. *)
Lemma X9_stamp_object_number_witness :
  let s := demo_state demo_image_config in
  Forall (fun h => h.1.2 = CProcessStamp 130)
    (hook_events
       (new_events s (ProcessExtraOutputsForStamp demo_registry s).1)).
Proof.
  exact (X9_stamp_object_number demo_registry
           (demo_state demo_image_config) demo_output eq_refl).
Defined.

(** X10 on the fourth image of a file of three. *)
Lemma X10_image_position_out_of_range_witness :
  let s := demo_state (set_image_num 6 demo_image_config) in
  ProcessExtraOutputsForImage demo_registry s = (s, Raise IndexError).
Proof.
  refine (X10_image_position_out_of_range demo_registry
            (demo_state (set_image_num 6 demo_image_config)) demo_output
            0 6 3 100 [10; 20; 30] eq_refl _ eq_refl eq_refl eq_refl eq_refl
            eq_refl _).
  - rewrite demo_active_keys. discriminate.
  - right. simpl. lia.
Defined.

(** X12 on images of 10, 20 and 30 objects from object 100 on. *)
Lemma X12_object_ranges_tile_the_file_witness :
  let s := demo_state demo_image_config in
  let ranges := object_ranges 100 [10; 20; 30] in
  length ranges = 3%nat /\
  (forall k r, ranges !! k = Some r ->
     let sk := at_image s (3 + Z.of_nat k) in
     image_obj_nums sk = (sk, Ok r)) /\
  concat ranges = py_range 100 (100 + sum_counts [10; 20; 30]) /\
  NoDup (concat ranges).
Proof.
  refine (X12_object_ranges_tile_the_file (demo_state demo_image_config)
            0 3 100 [10; 20; 30] eq_refl eq_refl eq_refl eq_refl _).
  repeat constructor; lia.
Defined.
(** *** The write phase on the instance *)

Lemma demo_gap_active_keys :
  active_keys demo_registry demo_gap_output = ["psf"; "weight"].
Proof. by vm_compute. Qed.

Lemma demo_gap_slots c :
  hdu_slots c demo_gap_output ["psf"; "weight"] = [("psf", 1); ("weight", 3)].
Proof. reflexivity. Qed.

(** X13 on the slots 1 and 3 with [first = 1]: both kinds are finalized and
    built before the gap is found. *)
Lemma X13_hdu_errors_and_their_timing_witness :
  let s := demo_state (demo_with_output demo_gap_output) in
  let slots := [("psf", 1); ("weight", 3)] in
  let res := BuildExtraOutputHDUs demo_registry 1 s in
  let called := hook_keys (new_events s res.1) in
  let valid := Forall (fun z => 0 < z) slots.*2 /\ NoDup slots.*2 in
  (~ valid ->
   res.2 = Raise TypeError /\
   exists pre ks post, slots = pre ++ ks :: post /\
     (ks.2 <= 0 \/ ks.2 ∈ pre.*2) /\ called = twice pre.*1) /\
  (valid ->
   called = twice slots.*1 /\
   (~ contiguous_run 1 slots.*2 -> res.2 = Raise ValueError)).
Proof.
  pose proof (X13_hdu_errors_and_their_timing demo_registry 1
                (demo_state (demo_with_output demo_gap_output))
                demo_gap_output eq_refl) as Hx.
  cbv zeta in Hx. rewrite demo_gap_active_keys, demo_gap_slots in Hx.
  apply Hx.
  - apply Forall_forall. repeat constructor; eexists; reflexivity.
  - apply Forall_forall.
    repeat constructor; exists demo_builders; eexists;
      (split; [reflexivity|split; [reflexivity|]]);
      intros field base w; split; reflexivity.
Defined.

(** X14 on the instance whose [psf] builder is of the base class, with
    [psf] in HDU 2. *)
Lemma X14_base_builder_in_hdu_mode_witness :
  let s := demo_state (demo_with_output demo_hdu_output) in
  let res := @BuildExtraOutputHDUs demo_sig demo_base_ext demo_registry 1 s in
  is_ok res.2 = false /\
  (forall o, ("psf", CWriteHdu, o) ∈ hook_events (new_events s res.1) ->
             o = Raised TypeError /\ res.2 = Raise TypeError).
Proof.
  refine (@X14_base_builder_in_hdu_mode demo_sig demo_base_ext demo_registry 1
            (demo_state (demo_with_output demo_hdu_output)) demo_hdu_output
            "psf" {[ "hdu" := demo_leaf (LInt 2) ]} demo_builders O
            (fun _ _ _ w => w) eq_refl _ _ _ eq_refl _ eq_refl).
  - rewrite demo_hdu_active_keys. repeat constructor.
  - reflexivity.
  - by eexists.
  - reflexivity.
Defined.

(** X16 on a run that writes [psf.fits]. *)
Lemma X16_record_of_last_files_witness :
  let s := demo_state (demo_with_output demo_output) in
  let res := WriteExtraOutputs demo_registry false s in
  is_Some (extra_last_file (cfg res.1)) /\
  (forall key, is_Some (last_file (cfg s) key) ->
               is_Some (last_file (cfg res.1) key)) /\
  (forall key, key ∉ active_keys demo_registry demo_output ->
               last_file (cfg res.1) key = last_file (cfg s) key) /\
  (forall key, ~ file_mode demo_output key ->
               last_file (cfg res.1) key = last_file (cfg s) key).
Proof.
  exact (X16_record_of_last_files demo_registry false
           (demo_state (demo_with_output demo_output)) demo_output
           demo_registry_wf eq_refl).
Defined.

(** Five registrations of four names: each name is there once, and [psf]
    holds the builder of its second registration. *)
Example demo_register_all :
  let reg := register_all
               [("psf", 0%nat); ("weight", 1%nat); ("psf", 7%nat);
                ("badpix", 2%nat); ("truth", 3%nat)] in
  reg.*1 = ["psf"; "weight"; "badpix"; "truth"] /\
  reg_lookup reg "psf" = Some 7%nat.
Proof. by vm_compute. Qed.

(** X17 on a configuration with active kinds and none of the entries. *)
Lemma X17_image_entries_are_read_on_the_first_pass_witness :
  let s := demo_state (demo_with_output demo_output) in
  let res := ProcessExtraOutputsForImage demo_registry s in
  (active_keys demo_registry demo_output = [] -> res = (s, Ok tt)) /\
  (active_keys demo_registry demo_output <> [] ->
   forall k, first_missing (cfg s) = Some k -> res = (s, Raise (KeyError k))).
Proof.
  exact (X17_image_entries_are_read_on_the_first_pass demo_registry
           (demo_state (demo_with_output demo_output)) demo_output eq_refl).
Defined.

(** C7 on the third image of a file with 10, 20 and 30 objects that starts
    at object 100: every active kind is called with index 2 and the objects
    130 to 159, and the function returns. *)
Lemma C7_process_image_arguments_witness :
  let s := demo_state demo_image_config in
  let obj_nums := py_range 130 (130 + 30) in
  let res := ProcessExtraOutputsForImage demo_registry s in
  (res.2 = Ok tt /\
   hook_events (new_events s res.1)
   = [("psf", CProcessImage 2 obj_nums, Returned None);
      ("weight", CProcessImage 2 obj_nums, Returned None);
      ("truth", CProcessImage 2 obj_nums, Returned None)]) /\
  called_in_order (CProcessImage 2 obj_nums) ["psf"; "weight"; "truth"]
    (hook_events (new_events s res.1)) res.2 /\
  length obj_nums = 30%nat /\
  (forall i, (i < 30)%nat -> obj_nums !! i = Some (130 + Z.of_nat i)).
Proof.
  split; [by vm_compute|].
  pose proof (C7_process_image_arguments demo_registry
                (demo_state demo_image_config) demo_output 0 5 3 100
                [10; 20; 30] 30 eq_refl eq_refl eq_refl eq_refl eq_refl
                eq_refl) as Hc.
  cbv zeta in Hc. rewrite demo_active_keys in Hc. apply Hc.
  - simpl. lia.
  - reflexivity.
  - lia.
  - apply Forall_forall.
    repeat constructor; (exists demo_builders || exists demo_output);
      (split; [reflexivity|eexists; reflexivity]).
Defined.

(** X11 on the image before the first one: every active kind is called
    with the position -1 and the thirty objects from 100 on, the count of
    the last image, and the function returns. *)
Lemma X11_image_before_start_wraps_witness :
  let s := demo_state (set_image_num 2 demo_image_config) in
  let res := ProcessExtraOutputsForImage demo_registry s in
  let c := CProcessImage (-1) (py_range 100 (100 + 30)) in
  (res.2 = Ok tt /\
   hook_events (new_events s res.1)
   = [("psf", c, Returned None); ("weight", c, Returned None);
      ("truth", c, Returned None)]) /\
  called_in_order c ["psf"; "weight"; "truth"]
    (hook_events (new_events s res.1)) res.2.
Proof.
  split; [by vm_compute|].
  pose proof (X11_image_before_start_wraps demo_registry
                (demo_state (set_image_num 2 demo_image_config)) demo_output
                0 2 3 100 [10; 20; 30] 30 eq_refl eq_refl eq_refl eq_refl
                eq_refl eq_refl) as Hc.
  cbv zeta in Hc. rewrite demo_active_keys in Hc. apply Hc.
  - simpl. lia.
  - reflexivity.
  - apply Forall_forall.
    repeat constructor; (exists demo_builders || exists demo_output);
      (split; [reflexivity|eexists; reflexivity]).
Defined.

(** C3 on a file of three images with three active kinds: built in four
    processes, every kind is initialized with proxies of the manager; with
    no [nproc] configured, with a plain list and a plain dict. *)
Lemma C3_shared_workspace_choice_witness :
  let s := demo_state demo_parallel_config in
  let res := SetupExtraOutput demo_registry false s in
  let calls := hook_events (new_events s res.1) in
  let s' := demo_state demo_image_config in
  let res' := SetupExtraOutput demo_registry false s' in
  let calls' := hook_events (new_events s' res'.1) in
  (res.2 = Ok tt /\
   calls = [("psf", workspace Proxy 3, Returned None);
            ("weight", workspace Proxy 3, Returned None);
            ("truth", workspace Proxy 3, Returned None)]) /\
  (called_in_order (workspace Proxy 3) ["psf"; "weight"; "truth"] calls res.2 /\
   is_Some (output_manager (cfg res.1))) /\
  called_in_order (workspace Plain 3) ["psf"; "weight"; "truth"] calls' res'.2.
Proof.
  split; [by vm_compute|].
  pose proof (C3_shared_workspace_choice demo_registry false
                (demo_state demo_parallel_config) demo_output 3
                eq_refl eq_refl) as Hc.
  pose proof (C3_shared_workspace_choice demo_registry false
                (demo_state demo_image_config) demo_output 3
                eq_refl eq_refl) as Hc'.
  cbv zeta in Hc, Hc'. rewrite demo_active_keys in Hc, Hc'.
  split.
  - apply Hc. split; [reflexivity|].
    eexists. split; [reflexivity|]. split; [by eexists|]. by vm_compute.
  - apply Hc'. intros [_ (img & Himg & _)]. discriminate.
Defined.


(** X15 with [psf.fits] on disk and [noclobber] on: [psf] is passed over
    and [weight], the next kind, is finalized and written; with a logger and
    no [file_num] the KeyError comes before any hook. *)
Lemma X15_noclobber_keeps_an_existing_file_witness :
  let s := demo_disk_state (demo_with_output demo_keep_output) ["psf.fits"] in
  let c := set_index_key "file_num" (cfg s) in
  let c' := set_output
              (<["psf" := demo_dict
                   (SetDefaultExt {[ "file_name" := demo_leaf (LStr "psf.fits") ]}
                      ".fits")]> demo_keep_output)
              (cfg (write_start s)) in
  let res := WriteExtraOutputs demo_registry false s in
  let res' := WriteExtraOutputs demo_registry true s in
  (res.2 = Ok tt /\
   hook_events (new_events s res.1)
   = [("weight", CFinalize, Returned None);
      ("weight", CWriteFile "weight.fits", Returned None)] /\
   files (world res.1) = ["weight.fits"; "psf.fits"]) /\
  hooks_of "psf" (new_events s res.1) = [] /\
  last_file (cfg res.1) "psf" = last_file (cfg s) "psf" /\
  (exists s1,
     cfg s1 = c' /\ world s1 = world s /\
     hook_events (new_events s s1) = [] /\
     res = for_each ["weight"]
             (write_key (write_ntries demo_keep_output c)
                (write_default_dir demo_keep_output c) true false) s1) /\
  res'.2 = Raise (KeyError "file_num") /\
  hook_events (new_events s res'.1) = [].
Proof.
  split; [by vm_compute|].
  assert (Hkeys : active_keys demo_registry demo_keep_output
                  = "psf" :: ["weight"]) by (by vm_compute).
  assert (Hfn : is_Some (({[ "file_name" := demo_leaf (LStr "psf.fits") ]}
                           : gmap string (@Node demo_sig)) !! "file_name"))
    by (by eexists).
  assert (Hnc : write_noclobber demo_keep_output
                  (set_index_key "file_num"
                     (cfg (demo_disk_state (demo_with_output demo_keep_output)
                             ["psf.fits"]))) = true) by (by vm_compute).
  assert (Hfile : isfile
            (world (demo_disk_state (demo_with_output demo_keep_output)
                      ["psf.fits"]))
            (resolve_path
               (SetDefaultExt {[ "file_name" := demo_leaf (LStr "psf.fits") ]}
                  ".fits")
               (write_default_dir demo_keep_output
                  (set_index_key "file_num"
                     (cfg (demo_disk_state (demo_with_output demo_keep_output)
                             ["psf.fits"]))))
               (set_output
                  (<["psf" := Dict
                       (SetDefaultExt
                          {[ "file_name" := demo_leaf (LStr "psf.fits") ]}
                          ".fits")]> demo_keep_output)
                  (cfg (write_start
                          (demo_disk_state (demo_with_output demo_keep_output)
                             ["psf.fits"]))))) = true) by (by vm_compute).
  destruct (X15_noclobber_keeps_an_existing_file demo_registry false
              (demo_disk_state (demo_with_output demo_keep_output) ["psf.fits"])
              demo_keep_output "psf" ["weight"]
              {[ "file_name" := demo_leaf (LStr "psf.fits") ]}
              demo_registry_wf eq_refl Hkeys eq_refl Hfn Hnc Hfile)
    as (Hq & Hlast & _ & Hgo).
  destruct (X15_noclobber_keeps_an_existing_file demo_registry true
              (demo_disk_state (demo_with_output demo_keep_output) ["psf.fits"])
              demo_keep_output "psf" ["weight"]
              {[ "file_name" := demo_leaf (LStr "psf.fits") ]}
              demo_registry_wf eq_refl Hkeys eq_refl Hfn Hnc Hfile)
    as (_ & _ & Hbad & _).
  split; [exact Hq|]. split; [exact Hlast|].
  split; [apply Hgo; by left|]. by apply Hbad.
Defined.

